(** * Segmented reduction ("scatter") and the message-passing model of
    [sagemaker/code/inference.py]

    The Python functions are embedded as Rocq functions over a small model of
    the tensor operations they call.  A tensor is a shape together with an
    element function on multi-indices; Python exceptions are values of an
    error type threaded through a [result] monad. *)

From Stdlib Require Import String.
From Stdlib Require Import List ZArith Lia Bool Arith PeanoNat Permutation.
Import ListNotations.

Set Implicit Arguments.

(** ** Exceptions and the error monad *)

(** The exceptions the modelled code can raise, named by their cause.
    - [ShapeMismatch]: the RuntimeError of [expand], [cat], [linear] and of
      in-place arithmetic on incompatible extents (the spec's ShapeError);
    - [IndexOutOfBounds]: the RuntimeError "index i is out of bounds for
      dimension d" of [scatter_add_] and [index_select] (the spec's
      IndexError);
    - [DimOutOfRange]: the IndexError of a list or tuple subscript and of a
      tensor axis that does not exist;
    - [NegativeDimension]: the RuntimeError of creating a tensor with a
      negative extent;
    - [EmptyReduction]: the RuntimeError of [max] on a tensor without
      elements;
    - [ValueError]: the [raise ValueError] of [scatter];
    - [KernelError]: any failure of an operator of the external
      [torch.ops.torch_scatter] namespace;
    - [BaseClassError]: any exception raised by the base class
      [MessagePassing] of torch_geometric, in its constructor or in its
      check of the edge index. *)
Inductive Exc : Type :=
| ShapeMismatch
| IndexOutOfBounds
| DimOutOfRange
| NegativeDimension
| EmptyReduction
| ValueError
| KernelError
| BaseClassError.

Inductive result (X : Type) : Type :=
| Ok (x : X)
| Err (e : Exc).

Arguments Ok {X} x.
Arguments Err {X} e.

Definition bind {X Y : Type} (r : result X) (f : X -> result Y) : result Y :=
  match r with
  | Ok x => f x
  | Err e => Err e
  end.

Notation "x <- c ;; k" := (bind c (fun x => k))
  (at level 61, c at next level, right associativity).

Definition fmap {X Y : Type} (f : X -> Y) (r : result X) : result Y :=
  x <- r ;; Ok (f x).

(** A Python [for _ in range(n): x = f(x)] whose body may raise. *)
Fixpoint repeatM {X : Type} (n : nat) (f : X -> result X) (x : X) : result X :=
  match n with
  | O => Ok x
  | S n' => y <- f x ;; repeatM n' f y
  end.

(** ** Lists by position *)

Fixpoint set_nth {X : Type} (l : list X) (k : nat) (x : X) : list X :=
  match l, k with
  | [], _ => []
  | _ :: r, O => x :: r
  | y :: r, S k' => y :: set_nth r k' x
  end.

Fixpoint insert_nth {X : Type} (l : list X) (k : nat) (x : X) {struct k} : list X :=
  match k, l with
  | O, _ => x :: l
  | S _, [] => [x]
  | S k', y :: r => y :: insert_nth r k' x
  end.

Fixpoint remove_nth {X : Type} (l : list X) (k : nat) : list X :=
  match l, k with
  | [], _ => []
  | _ :: r, O => r
  | y :: r, S k' => y :: remove_nth r k'
  end.

Fixpoint idx_eqb (p q : list nat) : bool :=
  match p, q with
  | [], [] => true
  | i :: p', j :: q' => (i =? j) && idx_eqb p' q'
  | _, _ => false
  end.

(** Python subscript [l[i]] with a possibly negative position. *)
Definition py_index (len : nat) (i : Z) : result nat :=
  let n := Z.of_nat len in
  if ((- n <=? i) && (i <? n))%Z
  then Ok (Z.to_nat (if (i <? 0)%Z then (i + n)%Z else i))
  else Err DimOutOfRange.

(** Python [l[i] = x]. *)
Definition py_setitem {X : Type} (l : list X) (i : Z) (x : X) : result (list X) :=
  k <- py_index (length l) i ;; Ok (set_nth l k x).

(** ** Tensors *)

(** A tensor: its shape and its element at each multi-index.  Only the
    elements at multi-indices within the shape are meaningful. *)
Record Tensor (A : Type) : Type := mkTensor {
  size : list nat;
  get : list nat -> A
}.

Definition tdim {A : Type} (t : Tensor A) : nat := length (size t).

(** All multi-indices of a shape, in row-major order. *)
Fixpoint indices (sz : list nat) : list (list nat) :=
  match sz with
  | [] => [[]]
  | n :: rest => flat_map (fun i => map (cons i) (indices rest)) (seq 0 n)
  end.

Fixpoint in_bounds (sz p : list nat) : bool :=
  match sz, p with
  | [], [] => true
  | n :: sz', i :: p' => (i <? n) && in_bounds sz' p'
  | _, _ => false
  end.

Definition numel {A : Type} (t : Tensor A) : nat :=
  fold_right Nat.mul 1 (size t).

(** The elements in row-major order ([t.flatten().tolist()]). *)
Definition elements {A : Type} (t : Tensor A) : list A :=
  map (get t) (indices (size t)).

Definition tmap {A B : Type} (f : A -> B) (t : Tensor A) : Tensor B :=
  mkTensor (size t) (fun p => f (get t p)).

Definition full {A : Type} (sz : list nat) (v : A) : Tensor A :=
  mkTensor sz (fun _ => v).

(** [torch.zeros(size)] and the like take a Python list of ints. *)
Fixpoint to_shape (sz : list Z) : result (list nat) :=
  match sz with
  | [] => Ok []
  | z :: rest =>
      if (z <? 0)%Z then Err NegativeDimension
      else r <- to_shape rest ;; Ok (Z.to_nat z :: r)
  end.

(** [t.unsqueeze(dim)]: a singleton axis inserted at [dim], which ranges
    over [-(rank+1), rank]. *)
Definition unsqueeze {A : Type} (t : Tensor A) (dim : Z) : result (Tensor A) :=
  k <- py_index (S (tdim t)) dim ;;
  Ok (mkTensor (insert_nth (size t) k 1) (fun p => get t (remove_nth p k))).

(** Where an element of an expanded tensor is read from: position 0 on the
    axes that were singletons. *)
Fixpoint expand_index (sz p : list nat) : list nat :=
  match sz, p with
  | s :: sz', i :: p' => (if s =? 1 then 0 else i) :: expand_index sz' p'
  | _, _ => []
  end.

Fixpoint expandable (sz target : list nat) : bool :=
  match sz, target with
  | [], [] => true
  | s :: sz', g :: target' => ((s =? g) || (s =? 1)) && expandable sz' target'
  | _, _ => false
  end.

(** [t.expand(target)]: the shape [target] has at least the rank of [t];
    the axes of [t] are aligned with the last axes of [target]; an axis is
    kept when the extents agree and repeated when its extent is 1 (also to
    extent 0); any other extent raises.  The result is a view. *)
Definition expand {A : Type} (t : Tensor A) (target : list nat) : result (Tensor A) :=
  let lead := length target - tdim t in
  if (length target <? tdim t) then Err ShapeMismatch
  else if expandable (size t) (skipn lead target)
  then Ok (mkTensor target (fun p => get t (expand_index (size t) (skipn lead p))))
  else Err ShapeMismatch.

(** ** [broadcast] (source lines 22-31) *)

Definition broadcast {A B : Type} (src : Tensor A) (other : Tensor B) (dim : Z)
  : result (Tensor A) :=
  let dim := if (dim <? 0)%Z then (Z.of_nat (tdim other) + dim)%Z else dim in
  src <- (if tdim src =? 1
          then repeatM (Z.to_nat dim) (fun s => unsqueeze s 0) src
          else Ok src) ;;
  src <- repeatM (tdim other - tdim src) (fun s => unsqueeze s (-1)) src ;;
  expand src (size other).

(** ** Element types *)

(** What the code uses of a tensor's dtype.  The sums of [scatter_add_] are
    taken with [add], in the dtype of the value buffer. *)
Record DType (A : Type) : Type := mkDType {
  zero : A;
  one : A;
  add : A -> A -> A;
  mul : A -> A -> A;
  lt : A -> A -> bool;
  relu : A -> A;
  is_floating_point : bool;
  true_divide : A -> A -> A;
  floor_divide : A -> A -> A
}.

(** [torch.int64]: two's complement on 64 bits.  [true_divide] is never
    selected for an integer dtype ([is_floating_point] is false). *)
Definition wrap64 (z : Z) : Z := ((z + 2 ^ 63) mod 2 ^ 64 - 2 ^ 63)%Z.

Definition int64 : DType Z := {|
  zero := 0%Z;
  one := 1%Z;
  add := fun x y => wrap64 (x + y);
  mul := fun x y => wrap64 (x * y);
  lt := Z.ltb;
  relu := fun x => Z.max 0 x;
  is_floating_point := false;
  true_divide := fun x y => wrap64 (x / y);
  floor_divide := fun x y => wrap64 (x / y)
|}.

(** A sum in the dtype, taken from [zero] in list order. *)
Definition sum_list {A : Type} (dt : DType A) (l : list A) : A :=
  fold_left (add dt) l (zero dt).

(** ** The segmented reduction *)

Section Scatter.

Context {A : Type} (dt : DType A).

(** The operators of the external [torch.ops.torch_scatter] namespace, which
    [scatter_mul], [scatter_min] and [scatter_max] delegate to. *)
Variable torch_scatter_mul :
  Tensor A -> Tensor Z -> Z -> option (Tensor A) -> option Z -> result (Tensor A).
Variable torch_scatter_min :
  Tensor A -> Tensor Z -> Z -> option (Tensor A) -> option Z ->
  result (Tensor A * Tensor Z).
Variable torch_scatter_max :
  Tensor A -> Tensor Z -> Z -> option (Tensor A) -> option Z ->
  result (Tensor A * Tensor Z).

Definition zeros (sz : list Z) : result (Tensor A) :=
  s <- to_shape sz ;; Ok (full s (zero dt)).

Definition ones (sz : list nat) : Tensor A := full sz (one dt).

(** [index.max()] *)
Definition tensor_max (t : Tensor Z) : result Z :=
  match elements t with
  | [] => Err EmptyReduction
  | x :: rest => Ok (fold_left Z.max rest x)
  end.

(** A tensor without axes counts as one axis of extent 1 in the checks of
    [scatter_add_]. *)
Definition nonempty_size (sz : list nat) : list nat :=
  match sz with
  | [] => [1]
  | _ => sz
  end.

Definition maybe_wrap_dim (rank : nat) (dim : Z) : result nat :=
  py_index (Nat.max rank 1) dim.

(** The shape check of [self.scatter_add_(dim, index, src)]: equal ranks,
    [index] within [src] on every axis and within [self] on every axis but
    [dim]. *)
Definition scatter_shape_check (d : nat) (self_sz index_sz src_sz : list nat) : bool :=
  let s := nonempty_size self_sz in
  let i := nonempty_size index_sz in
  let r := nonempty_size src_sz in
  (length i =? length r) && (length i =? length s) &&
  forallb (fun k => (nth k i 0 <=? nth k r 0) &&
                    ((k =? d) || (nth k i 0 <=? nth k s 0)))
          (seq 0 (length i)).

(** [o[q] += v] *)
Definition add_at (o : Tensor A) (q : list nat) (v : A) : Tensor A :=
  mkTensor (size o)
    (fun p => if idx_eqb p q then add dt (get o p) v else get o p).

(** One element of the scatter: [self[..., index[p], ...] += src[p]], with
    the group id checked against the extent of [self] at [dim]. *)
Definition scatter_step (d : nat) (index : Tensor Z) (src : Tensor A)
  (acc : result (Tensor A)) (p : list nat) : result (Tensor A) :=
  o <- acc ;;
  let g := get index p in
  if ((0 <=? g) && (g <? Z.of_nat (nth d (nonempty_size (size o)) 0%nat)))%Z
  then Ok (add_at o (set_nth p d (Z.to_nat g)) (get src p))
  else Err IndexOutOfBounds.

(** [self.scatter_add_(dim, index, src)], the elements of [index] visited in
    row-major order; the value returned is [self] after the update. *)
Definition scatter_add_ (self : Tensor A) (dim : Z) (index : Tensor Z)
  (src : Tensor A) : result (Tensor A) :=
  d <- maybe_wrap_dim (tdim self) dim ;;
  if numel index =? 0 then Ok self
  else if scatter_shape_check d (size self) (size index) (size src)
  then fold_left (scatter_step d index src) (indices (size index)) (Ok self)
  else Err ShapeMismatch.

(** Source lines 34-49. *)
Definition scatter_sum (src : Tensor A) (index : Tensor Z) (dim : Z)
  (out : option (Tensor A)) (dim_size : option Z) : result (Tensor A) :=
  index <- broadcast index src dim ;;
  match out with
  | None =>
      let size0 := map Z.of_nat (size src) in
      size1 <- match dim_size with
               | Some ds => py_setitem size0 dim ds
               | None =>
                   if numel index =? 0 then py_setitem size0 dim 0%Z
                   else m <- tensor_max index ;; py_setitem size0 dim (m + 1)%Z
               end ;;
      out <- zeros size1 ;;
      scatter_add_ out dim index src
  | Some out => scatter_add_ out dim index src
  end.

(** Source lines 52-55. *)
Definition scatter_add (src : Tensor A) (index : Tensor Z) (dim : Z)
  (out : option (Tensor A)) (dim_size : option Z) : result (Tensor A) :=
  scatter_sum src index dim out dim_size.

(** Source lines 58-61. *)
Definition scatter_mul (src : Tensor A) (index : Tensor Z) (dim : Z)
  (out : option (Tensor A)) (dim_size : option Z) : result (Tensor A) :=
  torch_scatter_mul src index dim out dim_size.

(** [t.size(dim)] *)
Definition size_at {X : Type} (t : Tensor X) (dim : Z) : result nat :=
  k <- py_index (tdim t) dim ;; Ok (nth k (size t) 0).

(** [count[count < 1] = 1] *)
Definition clamp_count (c : A) : A := if lt dt c (one dt) then one dt else c.

(** [out.true_divide_(count)] and [out.div_(count, rounding_mode='floor')],
    for an operand of the shape of [out]. *)
Definition div_ (f : A -> A -> A) (out count : Tensor A) : result (Tensor A) :=
  if idx_eqb (size out) (size count)
  then Ok (mkTensor (size out) (fun p => f (get out p) (get count p)))
  else Err ShapeMismatch.

(** Source lines 64-84. *)
Definition scatter_mean (src : Tensor A) (index : Tensor Z) (dim : Z)
  (out : option (Tensor A)) (dim_size : option Z) : result (Tensor A) :=
  out <- scatter_sum src index dim out dim_size ;;
  dim_size <- size_at out dim ;;
  let index_dim := dim in
  let index_dim :=
    if (index_dim <? 0)%Z then (index_dim + Z.of_nat (tdim src))%Z else index_dim in
  let index_dim :=
    if (Z.of_nat (tdim index) <=? index_dim)%Z
    then (Z.of_nat (tdim index) - 1)%Z else index_dim in
  let ones := ones (size index) in
  count <- scatter_sum ones index index_dim None (Some (Z.of_nat dim_size)) ;;
  let count := tmap clamp_count count in
  count <- broadcast count out dim ;;
  if is_floating_point dt
  then div_ (true_divide dt) out count
  else div_ (floor_divide dt) out count.

(** Source lines 87-98. *)
Definition scatter_min (src : Tensor A) (index : Tensor Z) (dim : Z)
  (out : option (Tensor A)) (dim_size : option Z)
  : result (Tensor A * Tensor Z) :=
  torch_scatter_min src index dim out dim_size.

Definition scatter_max (src : Tensor A) (index : Tensor Z) (dim : Z)
  (out : option (Tensor A)) (dim_size : option Z)
  : result (Tensor A * Tensor Z) :=
  torch_scatter_max src index dim out dim_size.

(** Source lines 101-188; [r[0]] is [fst]. *)
Definition scatter (src : Tensor A) (index : Tensor Z) (dim : Z)
  (out : option (Tensor A)) (dim_size : option Z) (reduce : string)
  : result (Tensor A) :=
  if ((reduce =? "sum") || (reduce =? "add"))%string
  then scatter_sum src index dim out dim_size
  else if (reduce =? "mul")%string
  then scatter_mul src index dim out dim_size
  else if (reduce =? "mean")%string
  then scatter_mean src index dim out dim_size
  else if (reduce =? "min")%string
  then fmap fst (scatter_min src index dim out dim_size)
  else if (reduce =? "max")%string
  then fmap fst (scatter_max src index dim out dim_size)
  else Err ValueError.

End Scatter.

(** ** Layers of the network *)

Section Network.

Context {A : Type} (dt : DType A).

Variable torch_scatter_mul :
  Tensor A -> Tensor Z -> Z -> option (Tensor A) -> option Z -> result (Tensor A).
Variable torch_scatter_min :
  Tensor A -> Tensor Z -> Z -> option (Tensor A) -> option Z ->
  result (Tensor A * Tensor Z).
Variable torch_scatter_max :
  Tensor A -> Tensor Z -> Z -> option (Tensor A) -> option Z ->
  result (Tensor A * Tensor Z).

(** The constructor of the base class [MessagePassing], which receives the
    aggregation name; it belongs to torch_geometric, not to the repository. *)
Variable MessagePassing_init : string -> result unit.

(** The values [nn.Linear] gives its parameters at construction, before a
    state dict is loaded. *)
Variable init_param : list nat -> A.

(** [nn.Linear]: a weight of shape [out_features; in_features] and a bias of
    shape [out_features]. *)
Record Linear : Type := mkLinear {
  in_features : nat;
  out_features : nat;
  weight : Tensor A;
  bias : Tensor A
}.

Definition Linear_init (n_in n_out : nat) : Linear :=
  mkLinear n_in n_out (mkTensor [n_out; n_in] init_param)
           (mkTensor [n_out] init_param).

(** [y[..., o] = sum_i x[..., i] * weight[o, i] + bias[o]]; the last extent
    of [x] has to be [in_features]. *)
Definition linear (l : Linear) (x : Tensor A) : result (Tensor A) :=
  match rev (size x) with
  | [] => Err ShapeMismatch
  | k :: _ =>
      if k =? in_features l
      then Ok (mkTensor (removelast (size x) ++ [out_features l])
                 (fun p =>
                    let o := last p 0 in
                    add dt
                      (sum_list dt
                         (map (fun i => mul dt (get x (removelast p ++ [i]))
                                               (get (weight l) [o; i]))
                              (seq 0 (in_features l))))
                      (get (bias l) [o])))
      else Err ShapeMismatch
  end.

(** [F.relu] and [nn.ReLU]. *)
Definition relu_ (x : Tensor A) : Tensor A := tmap (relu dt) x.

(** [Sequential(Linear, ReLU, Linear, ReLU)]. *)
Record MLP : Type := mkMLP {
  fc1 : Linear;
  fc2 : Linear
}.

Definition mlp (m : MLP) (x : Tensor A) : result (Tensor A) :=
  h <- linear (fc1 m) x ;;
  let h := relu_ h in
  h <- linear (fc2 m) h ;;
  Ok (relu_ h).

(** The concatenation along the last axis of two buffers that [torch.cat]
    does not skip: equal ranks, at least one axis, and equal extents on
    every axis but the last. *)
Definition cat2 (a b : Tensor A) : result (Tensor A) :=
  match rev (size a), rev (size b) with
  | la :: lead_a, lb :: lead_b =>
      if idx_eqb lead_a lead_b
      then Ok (mkTensor (removelast (size a) ++ [la + lb])
                 (fun p =>
                    let k := last p 0 in
                    if k <? la then get a p
                    else get b (removelast p ++ [k - la])))
      else Err ShapeMismatch
  | _, _ => Err ShapeMismatch
  end.

(** The buffers [torch.cat] skips: those of shape [0], one axis without
    element. *)
Definition skipped (t : Tensor A) : bool := idx_eqb (size t) [0].

(** [torch.cat(ts, dim=-1)]: an empty list and a buffer without axis are
    refused; the buffers of shape [0] are skipped and the others are
    concatenated from left to right; when every buffer is skipped the
    result is a buffer of shape [0]. *)
Definition cat (ts : list (Tensor A)) : result (Tensor A) :=
  match ts with
  | [] => Err ShapeMismatch
  | t0 :: _ =>
      if existsb (fun t => tdim t =? 0) ts then Err ShapeMismatch
      else
        match filter (fun t => negb (skipped t)) ts with
        | [] => Ok t0
        | t :: rest => fold_left (fun acc u => a <- acc ;; cat2 a u) rest (Ok t)
        end
  end.

(** [t.repeat(reps)]: at least as many repetitions as axes; the shape of
    [t] is padded with leading ones and multiplied by [reps]. *)
Definition repeat_ (t : Tensor A) (reps : list nat) : result (Tensor A) :=
  if length reps <? tdim t then Err ShapeMismatch
  else
    let lead := length reps - tdim t in
    let padded := repeat 1 lead ++ size t in
    Ok (mkTensor (map (fun '(s, r) => s * r) (combine padded reps))
          (fun p => get t (map (fun '(i, s) => i mod s)
                               (combine (skipn lead p) (size t))))).

(** [t[k]] for a row number [k]. *)
Definition select_row {X : Type} (t : Tensor X) (k : nat) : result (Tensor X) :=
  match size t with
  | n :: rest => if k <? n then Ok (mkTensor rest (fun p => get t (k :: p)))
                 else Err DimOutOfRange
  | [] => Err DimOutOfRange
  end.

(** [t.index_select(dim, index)] for a 1-D [index]. *)
Definition index_select (t : Tensor A) (dim : Z) (index : Tensor Z)
  : result (Tensor A) :=
  d <- maybe_wrap_dim (tdim t) dim ;;
  match size index with
  | [e] =>
      if forallb (fun i => ((0 <=? get index [i]) &&
                            (get index [i] <? Z.of_nat (nth d (size t) 0%nat)))%Z)
                 (seq 0 e)
      then Ok (mkTensor (set_nth (size t) d e)
                 (fun p => get t (set_nth p d (Z.to_nat (get index [nth d p 0])))))
      else Err IndexOutOfBounds
  | _ => Err ShapeMismatch
  end.

(** [t.squeeze(-1)]: the last axis is dropped when its extent is 1. *)
Definition squeeze_last (t : Tensor A) : Tensor A :=
  match rev (size t) with
  | 1 :: _ => mkTensor (removelast (size t)) (fun p => get t (p ++ [0]))
  | _ => t
  end.

(** *** [MPNNLayer] (source lines 194-278) *)

Record MPNNLayer : Type := mkMPNNLayer {
  emb_dim : nat;
  aggr : string;
  mlp_msg : MLP;
  mlp_upd : MLP
}.

(** The attribute [node_dim] of the base class: [MPNNLayer.__init__] passes
    only [aggr] on, so every layer has the default, -2. *)
Definition node_dim (self : MPNNLayer) : Z := (-2)%Z.

(** [__init__]: the base-class constructor receives [aggr]; the two MLPs are
    created. *)
Definition MPNNLayer_init (emb edge_dim : nat) (aggr : string) : result MPNNLayer :=
  _ <- MessagePassing_init aggr ;;
  Ok (mkMPNNLayer emb aggr
        (mkMLP (Linear_init (2 * emb + edge_dim) emb) (Linear_init emb emb))
        (mkMLP (Linear_init (2 * emb) emb) (Linear_init emb emb))).

Definition message (self : MPNNLayer) (h_i h_j edge_attr : Tensor A)
  : result (Tensor A) :=
  edge_attr <-
    (if tdim h_i =? 3
     then repeat_ edge_attr [nth 0 (size h_i) 0; 1; 1]
     else if tdim h_i =? 4
     then e <- repeat_ edge_attr [nth 1 (size h_i) 0; 1; 1] ;;
          repeat_ e [nth 0 (size h_i) 0; 1; 1; 1]
     else Ok edge_attr) ;;
  msg <- cat [h_i; h_j; edge_attr] ;;
  mlp (mlp_msg self) msg.

Definition aggregate (self : MPNNLayer) (inputs : Tensor A) (index : Tensor Z)
  : result (Tensor A) :=
  scatter dt torch_scatter_mul torch_scatter_min torch_scatter_max
    inputs index (node_dim self) None None (aggr self).

Definition update (self : MPNNLayer) (aggr_out h : Tensor A) : result (Tensor A) :=
  upd_out <- cat [h; aggr_out] ;;
  mlp (mlp_upd self) upd_out.

(** The base-class method [propagate] of torch_geometric is not part of the
    repository.  It is modelled after its documented behaviour for a dense
    edge index of shape 2 x E and the default flow, which section 4.3 of
    the specification restates: the features of the two endpoints of every
    edge are gathered along [node_dim] ([_i] from row 1, [_j] from row 0 of
    the edge index), then [message], [aggregate] keyed by row 1, and
    [update] are called in this order. *)
Definition propagate (self : MPNNLayer) (edge_index : Tensor Z)
  (h edge_attr : Tensor A) : result (Tensor A) :=
  _ <- (match size edge_index with
        | [2; _] => Ok tt
        | _ => Err BaseClassError
        end) ;;
  row0 <- select_row edge_index 0 ;;
  row1 <- select_row edge_index 1 ;;
  h_i <- index_select h (node_dim self) row1 ;;
  h_j <- index_select h (node_dim self) row0 ;;
  msg <- message self h_i h_j edge_attr ;;
  aggr_out <- aggregate self msg row1 ;;
  update self aggr_out h.

Definition MPNNLayer_forward (self : MPNNLayer) (h : Tensor A)
  (edge_index : Tensor Z) (edge_attr : Tensor A) : result (Tensor A) :=
  propagate self edge_index h edge_attr.

(** *** [MPNNModel] (source lines 280-327) *)

Record MPNNModel : Type := mkMPNNModel {
  edge_index : Tensor Z;
  edge_attr : Tensor A;
  edge_dim : nat;
  lin_in1 : Linear;
  lin_in2 : Linear;
  convs : list MPNNLayer;
  lin_pred1 : Linear;
  lin_pred2 : Linear
}.

(** [for layer in range(num_layers): convs.append(MPNNLayer(...))] *)
Fixpoint make_convs (num_layers emb edge_dim : nat) : result (list MPNNLayer) :=
  match num_layers with
  | O => Ok []
  | S k =>
      conv <- MPNNLayer_init emb edge_dim "add" ;;
      rest <- make_convs k emb edge_dim ;;
      Ok (conv :: rest)
  end.

(** [__init__]; [edge_attr.shape[1]] is a tuple subscript. *)
Definition MPNNModel_init (edge_index : Tensor Z) (edge_attr : Tensor A)
  (in_dim num_layers emb out_dim : nat) : result MPNNModel :=
  k <- py_index (tdim edge_attr) 1 ;;
  let edge_dim := nth k (size edge_attr) 0 in
  let lin_in1 := Linear_init in_dim emb in
  let lin_in2 := Linear_init emb emb in
  convs <- make_convs num_layers emb edge_dim ;;
  let lin_pred1 := Linear_init emb emb in
  let lin_pred2 := Linear_init emb out_dim in
  Ok (mkMPNNModel edge_index edge_attr edge_dim lin_in1 lin_in2 convs
        lin_pred1 lin_pred2).

(** [for conv in self.convs: h = conv(h, self.edge_index, self.edge_attr)] *)
Definition run_convs (convs : list MPNNLayer) (edge_index : Tensor Z)
  (edge_attr h : Tensor A) : result (Tensor A) :=
  fold_left
    (fun acc conv => h <- acc ;; MPNNLayer_forward conv h edge_index edge_attr)
    convs (Ok h).

Definition MPNNModel_forward (self : MPNNModel) (x : Tensor A) : result (Tensor A) :=
  h <- linear (lin_in1 self) x ;;
  let h := relu_ h in
  h <- linear (lin_in2 self) h ;;
  let h := relu_ h in
  h <- run_convs (convs self) (edge_index self) (edge_attr self) h ;;
  h <- linear (lin_pred1 self) h ;;
  let h := relu_ h in
  out <- linear (lin_pred2 self) h ;;
  Ok (squeeze_last out).

(** Source lines 353-356. *)
Definition predict_fn (input_object : Tensor A) (model : MPNNModel)
  : result (Tensor A) :=
  MPNNModel_forward model input_object.

End Network.

(** ** Concrete buffers, for evaluation *)

(** A vector and a matrix from Python lists. *)
Definition vec {A : Type} (d : A) (l : list A) : Tensor A :=
  mkTensor [length l] (fun p => nth (nth 0 p 0) l d).

Definition mat {A : Type} (d : A) (cols : nat) (l : list (list A)) : Tensor A :=
  mkTensor [length l; cols]
    (fun p => nth (nth 1 p 0) (nth (nth 0 p 0) l []) d).

(** What a result evaluates to: its shape and elements, or the exception. *)
Definition observe {A : Type} (r : result (Tensor A)) : result (list nat * list A) :=
  t <- r ;; Ok (size t, elements t).

Definition no_kernel {A B : Type}
  (_ : Tensor A) (_ : Tensor Z) (_ : Z) (_ : option (Tensor A)) (_ : option Z)
  : result B := Err KernelError.

Definition scatter64 := scatter int64 no_kernel no_kernel no_kernel.

(** ** The alignment of [broadcast], in closed form *)

(** The axis [broadcast] works with: a negative [dim] counts from the end
    of [other]. *)
Definition broadcast_dim {B : Type} (other : Tensor B) (dim : Z) : Z :=
  if (dim <? 0)%Z then (Z.of_nat (tdim other) + dim)%Z else dim.

(** The number of singleton axes put in front of [src]. *)
Definition front_axes {A B : Type} (src : Tensor A) (other : Tensor B) (dim : Z) : nat :=
  if tdim src =? 1 then Z.to_nat (broadcast_dim other dim) else 0.

(** The shape of [src] after the two [unsqueeze] loops. *)
Definition aligned_size {A B : Type} (src : Tensor A) (other : Tensor B) (dim : Z)
  : list nat :=
  let f := front_axes src other dim in
  repeat 1 f ++ size src ++ repeat 1 (tdim other - (f + tdim src)).

(** ** The reduction, as the specification words it *)

Section Groups.

Context {A : Type} (dt : DType A).

(** The rows [i] along axis [d] that contribute to the output slot [q]: those
    whose group id, read at [q] with coordinate [d] set to [i], is the
    coordinate [d] of [q]. *)
Definition group_rows (ib : Tensor Z) (d n : nat) (q : list nat) : list nat :=
  filter (fun i => (get ib (set_nth q d i) =? Z.of_nat (nth d q 0%nat))%Z) (seq 0 n).

(** The sum of the contributing rows at the slot [q]. *)
Definition group_sum (src : Tensor A) (ib : Tensor Z) (d : nat) (q : list nat) : A :=
  sum_list dt (map (fun i => get src (set_nth q d i))
                (group_rows ib d (nth d (size src) 0) q)).

(** The extent of the output along [dim] that [scatter_sum] chooses when
    [out] is omitted, from the index as broadcast. *)
Definition out_extent (ib : Tensor Z) (dim_size : option Z) : result Z :=
  match dim_size with
  | Some ds => Ok ds
  | None => if numel ib =? 0 then Ok 0%Z
            else m <- tensor_max ib ;; Ok (m + 1)%Z
  end.

End Groups.

(** The rows of group [g] under a 1-D index with one entry per row. *)
Definition rows_of_group (index : Tensor Z) (n g : nat) : list nat :=
  filter (fun i => (get index [i] =? Z.of_nat g)%Z) (seq 0 n).

(** The buffer a call returned, for stating facts about concrete calls. *)
Definition returned {X : Type} (d : X) (r : result X) : X :=
  match r with
  | Ok x => x
  | Err _ => d
  end.

(** Every element of [ib] within the shape [sz] is a group id in [0, z). *)
Definition ids_in_range (ib : Tensor Z) (sz : list nat) (z : Z) : bool :=
  forallb (fun p => ((0 <=? get ib p) && (get ib p <? z))%Z) (indices sz).

(** Three rows of two values, their groups, and a buffer of one row without
    columns. *)
Definition src32 : Tensor Z := mat 0%Z 2 [[1; 2]; [3; 4]; [5; 6]]%Z.
Definition idx010 : Tensor Z := vec 0%Z [0; 1; 0]%Z.
Definition src10 : Tensor Z := mat 0%Z 0 [[]].
Definition idx5 : Tensor Z := vec 0%Z [5]%Z.

(** The reduce kinds [scatter] dispatches on. *)
Definition recognized (reduce : string) : bool :=
  ((reduce =? "sum") || (reduce =? "add") || (reduce =? "mul") ||
   (reduce =? "mean") || (reduce =? "min") || (reduce =? "max"))%string.

(** A base class that accepts every aggregation name, parameters that are
    all one, and the graph of [model_fn]: two nodes, an edge each way, two
    features per edge. *)
Definition accept_all (_ : string) : result unit := Ok tt.
Definition unit_param (_ : list nat) : Z := 1%Z.
Definition graph_edges : Tensor Z := mat 0%Z 2 [[0; 1]; [1; 0]]%Z.
Definition graph_attr : Tensor Z := mat 0%Z 2 [[0; 1]; [0; 1]]%Z.
Definition three_attr_rows : Tensor Z := mat 0%Z 2 [[0; 1]; [0; 1]; [0; 1]]%Z.
Definition two_nodes : Tensor Z := mat 0%Z 1 [[1]; [2]]%Z.

(** The errors that come from the tensor operations, as opposed to the
    [ValueError] of [scatter] and to failures of external code. *)
Definition tensor_error (e : Exc) : bool :=
  match e with
  | ShapeMismatch | IndexOutOfBounds | DimOutOfRange | NegativeDimension => true
  | _ => false
  end.

(** [t] with its rows along the axis [d] reordered: row [i] of the result is
    row [perm[i]] of [t], as for [t.index_select(d, perm)]. *)
Definition permute_rows {X : Type} (t : Tensor X) (d : nat) (perm : list nat)
  : Tensor X :=
  mkTensor (size t) (fun p => get t (set_nth p d (nth (nth d p 0) perm 0))).

(** ** The model that is served (source lines 333-341)

    [t.to_sparse().indices()] of a dense integer matrix: the positions of
    its non-zero entries in row-major order, one column per entry. *)
Definition to_sparse_indices (t : Tensor Z) : Tensor Z :=
  let nz := filter (fun p => negb (get t p =? 0)%Z) (indices (size t)) in
  mkTensor [tdim t; length nz]
    (fun p => Z.of_nat (nth (nth 0 p 0) (nth (nth 1 p 0) nz []) 0)).

Section Serving.

Context {A : Type} (dt : DType A).

Variable MessagePassing_init : string -> result unit.
Variable init_param : list nat -> A.

(** [torch.tensor([[0, 1], [1, 0]]).to_sparse().indices()] *)
Definition model_fn_edge_index : Tensor Z :=
  to_sparse_indices (mat 0%Z 2 [[0; 1]; [1; 0]]%Z).

(** [torch.tensor([[0, 1], [0, 1]])]; its entries are taken in the dtype of
    the node features they are concatenated with. *)
Definition model_fn_edge_attr : Tensor A :=
  mat (zero dt) 2 [[zero dt; one dt]; [zero dt; one dt]].

(** The model [model_fn] constructs.  Reading the state dict from the model
    directory, which replaces the values of the parameters, and the move to
    the device are outside the model. *)
Definition model_fn_model : result (MPNNModel (A := A)) :=
  MPNNModel_init MessagePassing_init init_param
    model_fn_edge_index model_fn_edge_attr 2 2 4 1.

End Serving.

(** [torch.stack([a, b])] for two buffers of one shape, and a batch of two
    node-feature matrices. *)
Definition stack2 {A : Type} (a b : Tensor A) : Tensor A :=
  mkTensor (2 :: size a)
    (fun p => match p with
              | 0 :: q => get a q
              | _ :: q => get b q
              | [] => get a []
              end).

Definition two_batches : Tensor Z :=
  stack2 two_nodes (mat 0%Z 1 [[3]; [4]]%Z).

(** ** A layer, node by node

    The message-passing equation the layer computes, written for one node
    and one feature at a time, to compare the batched code with. *)

Section NodeWise.

Context {A : Type} (dt : DType A).

(** Output [o] of [nn.Linear] on the feature vector [xs]. *)
Definition linear_at (l : Linear (A := A)) (xs : nat -> A) (o : nat) : A :=
  add dt
    (sum_list dt (map (fun i => mul dt (xs i) (get (weight l) [o; i]))
                      (seq 0 (in_features l))))
    (get (bias l) [o]).

(** Output [o] of [Sequential(Linear, ReLU, Linear, ReLU)] on [xs]. *)
Definition mlp_at (m : MLP (A := A)) (xs : nat -> A) (o : nat) : A :=
  relu dt (linear_at (fc2 m) (fun i => relu dt (linear_at (fc1 m) xs i)) o).

(** Feature [k] of what [message] concatenates for the edge [e]: the
    features of the destination, of the source, and of the edge. *)
Definition edge_input (h ea : Tensor A) (ei : Tensor Z) (e k : nat) : A :=
  let F := nth 1 (size h) 0 in
  if k <? F + F then
    if k <? F then get h [Z.to_nat (get ei [1; e]); k]
    else get h [Z.to_nat (get ei [0; e]); k - F]
  else get ea [e; k - (F + F)].

Definition edge_message (l : MPNNLayer (A := A)) (h ea : Tensor A)
  (ei : Tensor Z) (e j : nat) : A :=
  mlp_at (mlp_msg l) (edge_input h ea ei e) j.

(** The edges into the node [v], in the order of the edge index. *)
Definition incoming (ei : Tensor Z) (v : nat) : list nat :=
  filter (fun e => (get ei [1; e]%nat =? Z.of_nat v)%Z) (seq 0 (nth 1 (size ei) 0)).

Definition node_sum (l : MPNNLayer (A := A)) (h ea : Tensor A)
  (ei : Tensor Z) (v j : nat) : A :=
  sum_list dt (map (fun e => edge_message l h ea ei e j) (incoming ei v)).

(** Feature [j] of the node [v] after the layer. *)
Definition node_update (l : MPNNLayer (A := A)) (h ea : Tensor A)
  (ei : Tensor Z) (v j : nat) : A :=
  let F := nth 1 (size h) 0 in
  mlp_at (mlp_upd l)
    (fun k => if k <? F then get h [v; k] else node_sum l h ea ei v (k - F)) j.

End NodeWise.

(** ** The extension's operators for the minimum and the maximum *)

Section Kernels.

Context {A : Type} (dt : DType A).

(** [t[q] = v] *)
Definition set_at {X : Type} (t : Tensor X) (q : list nat) (v : X) : Tensor X :=
  mkTensor (size t) (fun p => if idx_eqb p q then v else get t p).

(** Modelled from the spec: one element of the reduction of the operators
    [torch.ops.torch_scatter.scatter_min] and [scatter_max], which are not
    part of the repository.  The value [src[p]] is combined into the slot
    its group id addresses.  A slot that has seen no value takes the
    value; one that has seen a value keeps the better of the two.  The
    companion buffer records the position along [dim] of the element whose
    value the slot holds. *)
Definition extremum_step (better : A -> A -> bool) (d : nat)
  (index : Tensor Z) (src : Tensor A)
  (acc : result (Tensor A * Tensor Z * Tensor bool)) (p : list nat)
  : result (Tensor A * Tensor Z * Tensor bool) :=
  st <- acc ;;
  let '(o, arg, seen) := st in
  let g := get index p in
  if ((0 <=? g) && (g <? Z.of_nat (nth d (size o) 0%nat)))%Z
  then
    let q := set_nth p d (Z.to_nat g) in
    if negb (get seen q) || better (get src p) (get o q)
    then Ok (set_at o q (get src p),
             set_at arg q (Z.of_nat (nth d p 0)),
             set_at seen q true)
    else Ok (o, arg, seen)
  else Err IndexOutOfBounds.

(** Modelled from the spec: the operators [torch.ops.torch_scatter.scatter_min]
    and [scatter_max], which belong to the torch_scatter extension and are
    not part of the repository.  After section 4.2 of the specification:
    the index is broadcast against the values along [dim]; the output has
    the shape of the values with the extent [dim_size] at [dim], or one more
    than the largest index when it is omitted, or 0 for an index without
    element; every slot starts at the identity of the kind, as a slot that
    has seen no value; every element of the values is combined into the
    slot addressed by its group id, which has to lie within the extent; a
    companion integer buffer of the shape of the output gives, for every
    slot, the source index that produced the extremum.  [better v w] says
    that the value [v] replaces [w].  The specification says neither what
    the companion holds for a slot that has seen no value (here the extent
    of the values along [dim], which is no source index) nor what a supplied
    [out] does (here, as for the sum, it is the buffer the values are
    combined into, every slot counting as seen). *)
Definition torch_scatter_extremum (better : A -> A -> bool) (identity : A)
  (src : Tensor A) (index : Tensor Z) (dim : Z)
  (out : option (Tensor A)) (dim_size : option Z)
  : result (Tensor A * Tensor Z) :=
  ib <- broadcast index src dim ;;
  d <- py_index (tdim src) dim ;;
  let n := Z.of_nat (nth d (size src) 0) in
  st0 <- match out with
         | Some o =>
             if idx_eqb (size o) (set_nth (size src) d (nth d (size o) 0))
             then Ok (o, full (size o) n, full (size o) true)
             else Err ShapeMismatch
         | None =>
             z <- out_extent index dim_size ;;
             if (z <? 0)%Z then Err NegativeDimension
             else
               let sz := set_nth (size src) d (Z.to_nat z) in
               Ok (full sz identity, full sz n, full sz false)
         end ;;
  st <- fold_left (extremum_step better d ib src) (indices (size src)) (Ok st0) ;;
  Ok (fst (fst st), snd (fst st)).

(** What holds of the three buffers after the elements of [done] have been
    combined: a slot has seen a value when an element went into it, and then
    it holds the value of such an element, recorded in the companion, which
    none of the others betters. *)
Definition extremum_inv (better : A -> A -> bool) (d : nat)
  (ib : Tensor Z) (src : Tensor A) (done : list (list nat))
  (st : Tensor A * Tensor Z * Tensor bool) : Prop :=
  forall q,
    (get (snd st) q = true <->
     filter (fun p => idx_eqb q (set_nth p d (Z.to_nat (get ib p)))) done <> []) /\
    (filter (fun p => idx_eqb q (set_nth p d (Z.to_nat (get ib p)))) done <> [] ->
     exists p,
       In p (filter (fun p => idx_eqb q (set_nth p d (Z.to_nat (get ib p)))) done) /\
       get (fst (fst st)) q = get src p /\
       get (snd (fst st)) q = Z.of_nat (nth d p 0) /\
       forall p',
         In p' (filter (fun p => idx_eqb q (set_nth p d (Z.to_nat (get ib p)))) done) ->
         better (get src p') (get (fst (fst st)) q) = false).

(** Modelled from the spec: the operator
    [torch.ops.torch_scatter.scatter_min], which is not part of the
    repository.  The minimum replaces a value by a smaller one; the identity
    [inf] is plus infinity in the dtype. *)
Definition torch_scatter_min_op (inf : A) :=
  torch_scatter_extremum (fun v w => lt dt v w) inf.

(** Modelled from the spec: the operator
    [torch.ops.torch_scatter.scatter_max], which is not part of the
    repository.  The maximum replaces a value by a larger one; the identity
    [ninf] is minus infinity in the dtype. *)
Definition torch_scatter_max_op (ninf : A) :=
  torch_scatter_extremum (fun v w => lt dt w v) ninf.

End Kernels.

(** The identities of the two kinds in [torch.int64]. *)
Definition int64_max : Z := (2 ^ 63 - 1)%Z.
Definition int64_min : Z := (- 2 ^ 63)%Z.

(** * Properties *)

Unset Implicit Arguments.

(** ** Multi-indices *)

Lemma idx_eqb_eq (p q : list nat) : idx_eqb p q = true <-> p = q.
Proof.
  revert q; induction p as [|i p IH]; intros [|j q]; simpl; split; intro H;
    try reflexivity; try discriminate.
  - apply andb_true_iff in H as [Hi Hp].
    apply Nat.eqb_eq in Hi. apply IH in Hp. congruence.
  - inversion H; subst. rewrite Nat.eqb_refl. simpl. apply IH. reflexivity.
Qed.

Lemma idx_eqb_refl (p : list nat) : idx_eqb p p = true.
Proof. apply idx_eqb_eq. reflexivity. Qed.

Lemma in_bounds_length (sz p : list nat) :
  in_bounds sz p = true -> length p = length sz.
Proof.
  revert p; induction sz as [|n sz IH]; intros [|i p]; simpl; intro H;
    try reflexivity; try discriminate.
  apply andb_true_iff in H as [_ H]. f_equal. apply IH, H.
Qed.

Lemma in_indices (sz p : list nat) :
  In p (indices sz) <-> in_bounds sz p = true.
Proof.
  revert p; induction sz as [|n sz IH]; intros p; simpl.
  - destruct p; split; intro H; try discriminate; auto.
    destruct H as [H|[]]; discriminate.
  - rewrite in_flat_map. split.
    + intros [i [Hi Hp]]. apply in_map_iff in Hp as [q [<- Hq]].
      apply in_seq in Hi. simpl. apply andb_true_iff. split.
      * apply Nat.ltb_lt. lia.
      * apply IH, Hq.
    + destruct p as [|i q]; [discriminate|]. intro H.
      apply andb_true_iff in H as [Hi Hq]. apply Nat.ltb_lt in Hi.
      exists i. split.
      * apply in_seq. lia.
      * apply in_map. apply IH, Hq.
Qed.

Lemma in_bounds_nth (sz p : list nat) (k : nat) :
  in_bounds sz p = true -> k < length sz -> nth k p 0 < nth k sz 0.
Proof.
  revert p k; induction sz as [|n sz IH]; intros [|i p] k H Hk; simpl in *;
    try discriminate; try lia.
  apply andb_true_iff in H as [Hi Hp]. apply Nat.ltb_lt in Hi.
  destruct k; [exact Hi|]. apply IH; [exact Hp|lia].
Qed.

Lemma set_nth_length {X : Type} (l : list X) (k : nat) (x : X) :
  length (set_nth l k x) = length l.
Proof.
  revert k; induction l as [|y l IH]; intros [|k]; simpl; auto.
Qed.

Lemma nth_set_nth_eq {X : Type} (l : list X) (k : nat) (x d : X) :
  k < length l -> nth k (set_nth l k x) d = x.
Proof.
  revert k; induction l as [|y l IH]; intros [|k] H; simpl in *; try lia; auto.
  apply IH. lia.
Qed.

Lemma nth_set_nth_neq {X : Type} (l : list X) (k j : nat) (x d : X) :
  j <> k -> nth j (set_nth l k x) d = nth j l d.
Proof.
  revert k j; induction l as [|y l IH]; intros [|k] [|j] H; simpl; auto.
  - contradiction.
Qed.

Lemma set_nth_set_nth {X : Type} (l : list X) (k : nat) (x y : X) :
  set_nth (set_nth l k x) k y = set_nth l k y.
Proof.
  revert k; induction l as [|z l IH]; intros [|k]; simpl; auto.
  f_equal. apply IH.
Qed.

Lemma set_nth_same {X : Type} (l : list X) (k : nat) (d : X) :
  set_nth l k (nth k l d) = l.
Proof.
  revert k; induction l as [|z l IH]; intros [|k]; simpl; auto.
  f_equal. apply IH.
Qed.

Lemma in_bounds_set_nth (sz p : list nat) (k n i : nat) :
  in_bounds sz p = true -> i < n ->
  in_bounds (set_nth sz k n) (set_nth p k i) = true.
Proof.
  revert p k; induction sz as [|m sz IH]; intros [|j p] k H Hi; simpl in *;
    try discriminate; auto.
  apply andb_true_iff in H as [Hj Hp].
  destruct k; simpl; apply andb_true_iff; split; auto.
  apply Nat.ltb_lt. exact Hi.
Qed.

(** ** Enumerating a line of a shape *)

Lemma filter_flat_map {X Y : Type} (P : Y -> bool) (f : X -> list Y) (l : list X) :
  filter P (flat_map f l) = flat_map (fun x => filter P (f x)) l.
Proof.
  induction l as [|x l IH]; simpl; [reflexivity|].
  rewrite filter_app, IH. reflexivity.
Qed.

Lemma filter_map_comm {X Y : Type} (P : Y -> bool) (f : X -> Y) (l : list X) :
  filter P (map f l) = map f (filter (fun x => P (f x)) l).
Proof.
  induction l as [|x l IH]; simpl; [reflexivity|].
  destruct (P (f x)); simpl; rewrite IH; reflexivity.
Qed.

Lemma flat_map_single {Y : Type} (j a n : nat) (ys : list Y) :
  flat_map (fun i => if i =? j then ys else []) (seq a n) =
  if (a <=? j) && (j <? a + n) then ys else [].
Proof.
  revert a; induction n as [|n IH]; intro a; cbn [seq flat_map].
  - destruct (Nat.leb_spec a j), (Nat.ltb_spec j (a + 0)); simpl;
      try reflexivity; lia.
  - rewrite IH.
    destruct (Nat.eqb_spec a j), (Nat.leb_spec a j), (Nat.leb_spec (S a) j),
      (Nat.ltb_spec j (S a + n)), (Nat.ltb_spec j (a + S n)); simpl;
      try rewrite app_nil_r; try reflexivity; lia.
Qed.

Lemma filter_none {X : Type} (l : list X) : filter (fun _ => false) l = [].
Proof. induction l; simpl; auto. Qed.

Lemma filter_point (sz q : list nat) :
  in_bounds sz q = true -> filter (fun p => idx_eqb p q) (indices sz) = [q].
Proof.
  revert q; induction sz as [|m sz IH]; intros q Hq.
  - destruct q; [reflexivity|discriminate].
  - destruct q as [|k q]; [discriminate|]. simpl in Hq.
    apply andb_true_iff in Hq as [Hk Hq]. apply Nat.ltb_lt in Hk.
    cbn [indices]. rewrite filter_flat_map.
    rewrite (flat_map_ext _ (fun a => if a =? k then [k :: q] else [])).
    + rewrite flat_map_single.
      destruct (Nat.leb_spec 0 k), (Nat.ltb_spec k (0 + m)); simpl;
        try reflexivity; lia.
    + intro a. rewrite filter_map_comm. cbn [idx_eqb].
      destruct (Nat.eqb_spec a k); simpl.
      * subst. rewrite (IH q Hq). reflexivity.
      * rewrite filter_none. reflexivity.
Qed.

(** The multi-indices of [sz] that agree with [q] on every axis but [d]
    are [q] with its coordinate [d] running over the extent of [sz]. *)
Lemma filter_line (sz q : list nat) (d ds : nat) :
  in_bounds (set_nth sz d ds) q = true -> d < length sz ->
  filter (fun p => idx_eqb (set_nth p d 0) (set_nth q d 0)) (indices sz) =
  map (set_nth q d) (seq 0 (nth d sz 0)).
Proof.
  revert q d; induction sz as [|n sz IH]; intros q d Hq Hd; simpl in Hd; [lia|].
  destruct q as [|j q]; [destruct d; discriminate|].
  cbn [indices]. rewrite filter_flat_map.
  destruct d as [|d]; simpl in Hq; apply andb_true_iff in Hq as [Hj Hq].
  - cbn [nth].
    rewrite (flat_map_ext _ (fun i => [i :: q])).
    + change (set_nth (j :: q) 0) with (fun i => i :: q).
      clear. induction (seq 0 n) as [|a l IHl]; simpl; [reflexivity|].
      rewrite IHl. reflexivity.
    + intro i. rewrite filter_map_comm. cbn [set_nth idx_eqb].
      rewrite Nat.eqb_refl. cbn [andb].
      rewrite (filter_point _ _ Hq). reflexivity.
  - cbn [nth]. apply Nat.ltb_lt in Hj.
    rewrite (flat_map_ext _ (fun a => if a =? j
       then map (cons j) (map (set_nth q d) (seq 0 (nth d sz 0))) else [])).
    + rewrite flat_map_single.
      destruct (Nat.leb_spec 0 j), (Nat.ltb_spec j (0 + n)); simpl;
        try lia. rewrite map_map. reflexivity.
    + intro a. rewrite filter_map_comm. cbn [set_nth idx_eqb].
      destruct (Nat.eqb_spec a j); simpl.
      * subst. rewrite (IH q d Hq) by lia. reflexivity.
      * rewrite filter_none. reflexivity.
Qed.

(** ** The scatter loop *)

Section ScatterLoop.

Context {A : Type} (dt : DType A).

Lemma scatter_fold_err (d : nat) (index : Tensor Z) (src : Tensor A)
  (L : list (list nat)) (e : Exc) :
  fold_left (scatter_step dt d index src) L (Err e) = Err e.
Proof. induction L; simpl; auto. Qed.

Lemma scatter_fold_ok (d : nat) (index : Tensor Z) (src : Tensor A)
  (L : list (list nat)) (o : Tensor A) :
  (forall p, In p L ->
     (0 <= get index p < Z.of_nat (nth d (nonempty_size (size o)) 0%nat))%Z) ->
  exists o',
    fold_left (scatter_step dt d index src) L (Ok o) = Ok o' /\
    size o' = size o /\
    forall q, get o' q =
      fold_left (add dt)
        (map (get src)
           (filter (fun p => idx_eqb q (set_nth p d (Z.to_nat (get index p)))) L))
        (get o q).
Proof.
  revert o; induction L as [|p L IH]; intros o H.
  - exists o. simpl. auto.
  - cbn [fold_left]. unfold scatter_step at 2. cbn [bind].
    assert (Hp := H p (or_introl eq_refl)).
    replace ((0 <=? get index p)%Z &&
             (get index p <? Z.of_nat (nth d (nonempty_size (size o)) 0%nat))%Z)
      with true by (symmetry; apply andb_true_iff; split;
                    [apply Z.leb_le|apply Z.ltb_lt]; lia).
    destruct (IH (add_at dt o (set_nth p d (Z.to_nat (get index p))) (get src p)))
      as [o' [E [Hs Hg]]].
    { intros p' Hin. simpl. apply H. right. exact Hin. }
    exists o'. split; [exact E|]. split; [exact Hs|].
    intro q. rewrite Hg. cbn [filter add_at get].
    destruct (idx_eqb q (set_nth p d (Z.to_nat (get index p)))); reflexivity.
Qed.

Lemma scatter_fold_oob (d : nat) (index : Tensor Z) (src : Tensor A)
  (L : list (list nat)) (o : Tensor A) (p : list nat) :
  In p L ->
  ~ (0 <= get index p < Z.of_nat (nth d (nonempty_size (size o)) 0%nat))%Z ->
  fold_left (scatter_step dt d index src) L (Ok o) = Err IndexOutOfBounds.
Proof.
  revert o; induction L as [|a L IH]; intros o Hin Hp; [destruct Hin|].
  cbn [fold_left]. unfold scatter_step at 2. cbn [bind].
  destruct ((0 <=? get index a)%Z &&
            (get index a <? Z.of_nat (nth d (nonempty_size (size o)) 0%nat))%Z) eqn:E.
  - destruct Hin as [->|Hin].
    + apply andb_true_iff in E as [E1 E2].
      apply Z.leb_le in E1. apply Z.ltb_lt in E2. lia.
    + apply IH; [exact Hin|exact Hp].
  - apply scatter_fold_err.
Qed.

End ScatterLoop.

(** ** Shapes *)

Lemma bind_ok {X Y : Type} (r : result X) (f : X -> result Y) (y : Y) :
  bind r f = Ok y -> exists x, r = Ok x /\ f x = Ok y.
Proof. destruct r; simpl; intro H; [eauto|discriminate]. Qed.

Lemma py_index_ok (len : nat) (i : Z) (k : nat) :
  py_index len i = Ok k -> k < len.
Proof.
  unfold py_index. destruct (_ && _)%bool eqn:E; [|discriminate].
  intro H. inversion H; subst; clear H.
  apply andb_true_iff in E as [E1 E2].
  apply Z.leb_le in E1. apply Z.ltb_lt in E2.
  destruct (Z.ltb_spec i 0); lia.
Qed.

Lemma expand_size {A : Type} (t r : Tensor A) (target : list nat) :
  expand t target = Ok r -> size r = target.
Proof.
  unfold expand. destruct (_ <? _); [discriminate|].
  destruct (expandable _ _); [|discriminate].
  intro H. inversion H. reflexivity.
Qed.

Lemma broadcast_size {A B : Type} (src r : Tensor A) (other : Tensor B) (dim : Z) :
  broadcast src other dim = Ok r -> size r = size other.
Proof.
  unfold broadcast. intro H.
  apply bind_ok in H as [s1 [_ H]]. apply bind_ok in H as [s2 [_ H]].
  apply expand_size in H. exact H.
Qed.

Lemma to_shape_of_nat (sz : list nat) : to_shape (map Z.of_nat sz) = Ok sz.
Proof.
  induction sz as [|n sz IH]; simpl; [reflexivity|].
  destruct (Z.ltb_spec (Z.of_nat n) 0); [lia|].
  rewrite IH. simpl. rewrite Nat2Z.id. reflexivity.
Qed.

Lemma to_shape_set_nth (sz : list nat) (d : nat) (z : Z) :
  (0 <= z)%Z ->
  to_shape (set_nth (map Z.of_nat sz) d z) = Ok (set_nth sz d (Z.to_nat z)).
Proof.
  intro Hz. revert d; induction sz as [|n sz IH]; intros [|d]; simpl;
    try reflexivity.
  - destruct (Z.ltb_spec z 0); [lia|]. rewrite to_shape_of_nat. reflexivity.
  - destruct (Z.ltb_spec (Z.of_nat n) 0); [lia|].
    rewrite IH. simpl. rewrite Nat2Z.id. reflexivity.
Qed.

Lemma to_shape_set_nth_neg (sz : list nat) (d : nat) (z : Z) :
  (z < 0)%Z -> d < length sz ->
  to_shape (set_nth (map Z.of_nat sz) d z) = Err NegativeDimension.
Proof.
  intro Hz. revert d; induction sz as [|n sz IH]; intros [|d] Hd; simpl in *;
    try lia.
  - destruct (Z.ltb_spec z 0); [reflexivity|lia].
  - destruct (Z.ltb_spec (Z.of_nat n) 0); [lia|].
    rewrite IH by lia. reflexivity.
Qed.

Lemma indices_nil_iff (sz : list nat) :
  fold_right Nat.mul 1 sz = 0 <-> indices sz = [].
Proof.
  induction sz as [|n sz IH]; simpl.
  - split; [lia|discriminate].
  - split; intro H.
    + apply Nat.eq_mul_0 in H as [->|H]; [reflexivity|].
      apply IH in H. rewrite H. clear. induction (seq 0 n); simpl; auto.
    + destruct n; [reflexivity|]. apply Nat.eq_mul_0. right. apply IH.
      simpl in H. apply app_eq_nil in H as [H _].
      destruct (indices sz); [reflexivity|discriminate].
Qed.

Lemma scatter_shape_check_ok (sz : list nat) (d n : nat) :
  sz <> [] -> scatter_shape_check d (set_nth sz d n) sz sz = true.
Proof.
  intro Hsz. unfold scatter_shape_check.
  assert (E : nonempty_size sz = sz) by (destruct sz; [contradiction|reflexivity]).
  assert (E' : nonempty_size (set_nth sz d n) = set_nth sz d n).
  { destruct sz; [contradiction|]. destruct d; reflexivity. }
  rewrite E, E', set_nth_length, !Nat.eqb_refl. simpl.
  apply forallb_forall. intros k _.
  rewrite Nat.leb_refl. simpl.
  destruct (Nat.eqb_spec k d); [reflexivity|]. simpl.
  rewrite nth_set_nth_neq by assumption. apply Nat.leb_refl.
Qed.

(** A slot [q] is the target of the element [p] exactly when [p] lies on the
    line of [q] along [d] and its group id is the coordinate [d] of [q]. *)
Lemma target_split (p q : list nat) (d g : nat) :
  length p = length q -> d < length p ->
  idx_eqb q (set_nth p d g) =
  idx_eqb (set_nth p d 0) (set_nth q d 0) && (g =? nth d q 0).
Proof.
  revert q d; induction p as [|i p IH]; intros [|j q] d Hl Hd; simpl in *;
    try lia.
  destruct d as [|d]; simpl.
  - rewrite (Nat.eqb_sym j g).
    assert (E : idx_eqb q p = idx_eqb p q).
    { destruct (idx_eqb q p) eqn:E1, (idx_eqb p q) eqn:E2; auto.
      - apply idx_eqb_eq in E1. subst. rewrite idx_eqb_refl in E2. discriminate.
      - apply idx_eqb_eq in E2. subst. rewrite idx_eqb_refl in E1. discriminate. }
    rewrite E. apply andb_comm.
  - rewrite (IH q d) by lia. rewrite (Nat.eqb_sym j i).
    apply andb_assoc.
Qed.

Lemma filter_andb {X : Type} (f g : X -> bool) (l : list X) :
  filter (fun x => f x && g x) l = filter g (filter f l).
Proof.
  induction l as [|x l IH]; simpl; [reflexivity|].
  destruct (f x); simpl; [destruct (g x)|]; rewrite IH; reflexivity.
Qed.

(** ** [scatter_sum] with [out] omitted *)

Section ScatterSum.

Context {A : Type} (dt : DType A).

Lemma scatter_targets (src : Tensor A) (ib : Tensor Z) (d n' : nat) (q : list nat) :
  d < tdim src ->
  (forall p, in_bounds (size src) p = true -> (0 <= get ib p)%Z) ->
  in_bounds (set_nth (size src) d n') q = true ->
  filter (fun p => idx_eqb q (set_nth p d (Z.to_nat (get ib p))))
         (indices (size src))
  = map (set_nth q d) (group_rows ib d (nth d (size src) 0) q).
Proof.
  intros Hd Hpos Hq. unfold tdim in Hd.
  assert (Lq : length q = length (size src)).
  { apply in_bounds_length in Hq. rewrite set_nth_length in Hq. exact Hq. }
  rewrite (filter_ext_in _
    (fun p => idx_eqb (set_nth p d 0) (set_nth q d 0) &&
              (Z.to_nat (get ib p) =? nth d q 0))).
  2:{ intros p Hp. apply in_indices, in_bounds_length in Hp.
      apply target_split; lia. }
  rewrite filter_andb, (filter_line _ _ _ _ Hq Hd), filter_map_comm.
  f_equal. unfold group_rows. apply filter_ext_in.
  intros i Hi. apply in_seq in Hi.
  assert (Hb : in_bounds (size src) (set_nth q d i) = true).
  { pose proof (in_bounds_set_nth _ _ d (nth d (size src) 0) i Hq) as H.
    rewrite set_nth_set_nth, set_nth_same in H. apply H. lia. }
  specialize (Hpos _ Hb).
  destruct (Nat.eqb_spec (Z.to_nat (get ib (set_nth q d i))) (nth d q 0)),
           (Z.eqb_spec (get ib (set_nth q d i)) (Z.of_nat (nth d q 0)));
    try reflexivity; lia.
Qed.

Lemma scatter_add_loop (out0 src : Tensor A) (ib : Tensor Z) (dim : Z) (d n' : nat) :
  py_index (tdim src) dim = Ok d ->
  size ib = size src ->
  size out0 = set_nth (size src) d n' ->
  scatter_add_ dt out0 dim ib src =
  fold_left (scatter_step dt d ib src) (indices (size src)) (Ok out0).
Proof.
  intros Hd Hib Ho. pose proof (py_index_ok _ _ _ Hd) as Hlt.
  unfold scatter_add_, maybe_wrap_dim, tdim. rewrite Ho, set_nth_length.
  replace (Nat.max (length (size src)) 1) with (tdim src)
    by (unfold tdim in *; lia).
  rewrite Hd. cbn [bind]. unfold numel. rewrite Hib.
  destruct (Nat.eqb_spec (fold_right Nat.mul 1 (size src)) 0) as [E|E].
  - apply indices_nil_iff in E. rewrite E. reflexivity.
  - rewrite scatter_shape_check_ok; [reflexivity|].
    unfold tdim in Hlt. destruct (size src); [simpl in Hlt; lia|discriminate].
Qed.

Lemma out_extent_setitem (src : Tensor A) (ib : Tensor Z) (dim : Z)
  (ds : option Z) (z : Z) :
  out_extent ib ds = Ok z ->
  match ds with
  | Some ds => py_setitem (map Z.of_nat (size src)) dim ds
  | None =>
      if numel ib =? 0 then py_setitem (map Z.of_nat (size src)) dim 0%Z
      else m <- tensor_max ib ;; py_setitem (map Z.of_nat (size src)) dim (m + 1)%Z
  end = py_setitem (map Z.of_nat (size src)) dim z.
Proof.
  unfold out_extent. destruct ds as [ds|].
  - intro H. inversion H. reflexivity.
  - destruct (numel ib =? 0).
    + intro H. inversion H. reflexivity.
    + destruct (tensor_max ib); simpl; intro H; inversion H. reflexivity.
Qed.

Lemma scatter_sum_spec (src : Tensor A) (index ib : Tensor Z) (dim : Z)
  (ds : option Z) (d : nat) (z : Z) :
  broadcast index src dim = Ok ib ->
  py_index (tdim src) dim = Ok d ->
  out_extent ib ds = Ok z ->
  (0 <= z)%Z ->
  (forall p, in_bounds (size src) p = true -> (0 <= get ib p < z)%Z) ->
  exists out,
    scatter_sum dt src index dim None ds = Ok out /\
    size out = set_nth (size src) d (Z.to_nat z) /\
    forall q, in_bounds (size out) q = true ->
              get out q = group_sum dt src ib d q.
Proof.
  intros Hb Hd He Hz Hr.
  pose proof (broadcast_size _ _ _ _ Hb) as Hib.
  pose proof (py_index_ok _ _ _ Hd) as Hlt.
  unfold scatter_sum. rewrite Hb. cbn [bind].
  rewrite (out_extent_setitem src _ dim _ _ He).
  unfold py_setitem. rewrite length_map. fold (tdim src). rewrite Hd. cbn [bind].
  unfold zeros. rewrite to_shape_set_nth by exact Hz. cbn [bind].
  set (out0 := full (set_nth (size src) d (Z.to_nat z)) (zero dt)).
  rewrite (scatter_add_loop out0 src ib dim d (Z.to_nat z) Hd Hib eq_refl).
  destruct (scatter_fold_ok dt d ib src (indices (size src)) out0)
    as [o' [E [Hs Hg]]].
  { intros p Hp. apply in_indices in Hp. simpl.
    assert (N : nonempty_size (set_nth (size src) d (Z.to_nat z)) =
                set_nth (size src) d (Z.to_nat z)).
    { unfold tdim in Hlt. destruct (size src); [simpl in Hlt; lia|].
      destruct d; reflexivity. }
    rewrite N, nth_set_nth_eq by exact Hlt.
    specialize (Hr p Hp). lia. }
  exists o'. split; [exact E|]. split; [rewrite Hs; reflexivity|].
  intros q Hq. rewrite Hs in Hq. simpl in Hq.
  rewrite Hg, (scatter_targets src ib d (Z.to_nat z) q Hlt); [|intros p Hp; apply Hr, Hp|exact Hq].
  rewrite map_map. reflexivity.
Qed.

(** An out-of-range group id of some element stops the reduction. *)
Lemma scatter_sum_oob (src : Tensor A) (index ib : Tensor Z) (dim : Z)
  (ds : option Z) (d : nat) (z : Z) (p : list nat) :
  broadcast index src dim = Ok ib ->
  py_index (tdim src) dim = Ok d ->
  out_extent ib ds = Ok z ->
  (0 <= z)%Z ->
  in_bounds (size src) p = true ->
  ~ (0 <= get ib p < z)%Z ->
  scatter_sum dt src index dim None ds = Err IndexOutOfBounds.
Proof.
  intros Hb Hd He Hz Hp Hr.
  pose proof (broadcast_size _ _ _ _ Hb) as Hib.
  pose proof (py_index_ok _ _ _ Hd) as Hlt.
  unfold scatter_sum. rewrite Hb. cbn [bind].
  rewrite (out_extent_setitem src _ dim _ _ He).
  unfold py_setitem. rewrite length_map. fold (tdim src). rewrite Hd. cbn [bind].
  unfold zeros. rewrite to_shape_set_nth by exact Hz. cbn [bind].
  set (out0 := full (set_nth (size src) d (Z.to_nat z)) (zero dt)).
  rewrite (scatter_add_loop out0 src ib dim d (Z.to_nat z) Hd Hib eq_refl).
  apply scatter_fold_oob with (p := p); [apply in_indices, Hp|].
  simpl.
  assert (N : nonempty_size (set_nth (size src) d (Z.to_nat z)) =
              set_nth (size src) d (Z.to_nat z)).
  { unfold tdim in Hlt. destruct (size src); [simpl in Hlt; lia|].
    destruct d; reflexivity. }
  rewrite N, nth_set_nth_eq by exact Hlt. lia.
Qed.

End ScatterSum.

(** ** [unsqueeze], [expand] and [broadcast] *)

Lemma remove_nth_skipn {X : Type} (n : nat) (p : list X) :
  remove_nth (skipn n p) 0 = skipn (S n) p.
Proof.
  revert p; induction n as [|n IH]; intros [|x p]; simpl; auto.
Qed.

Lemma remove_nth_firstn {X : Type} (k : nat) (p : list X) :
  remove_nth (firstn (S k) p) k = firstn k p.
Proof.
  revert p; induction k as [|k IH]; intros [|x p]; simpl; auto.
  f_equal. apply IH.
Qed.

Lemma insert_nth_end {X : Type} (l : list X) (x : X) :
  insert_nth l (length l) x = l ++ [x].
Proof. induction l as [|y l IH]; simpl; [reflexivity|]. f_equal. exact IH. Qed.

Lemma unsqueeze_front {A : Type} (t : Tensor A) :
  unsqueeze t 0 =
  Ok (mkTensor (1 :: size t) (fun p => get t (remove_nth p 0))).
Proof.
  unfold unsqueeze, py_index.
  destruct (Z.leb_spec (- Z.of_nat (S (tdim t))) 0); [|lia].
  destruct (Z.ltb_spec 0 (Z.of_nat (S (tdim t)))); [|lia].
  cbn [andb bind]. change (0 <? 0)%Z with false. cbn [Z.to_nat insert_nth].
  reflexivity.
Qed.

Lemma unsqueeze_back {A : Type} (t : Tensor A) :
  unsqueeze t (-1) =
  Ok (mkTensor (size t ++ [1]) (fun p => get t (remove_nth p (tdim t)))).
Proof.
  unfold unsqueeze, py_index.
  destruct (Z.leb_spec (- Z.of_nat (S (tdim t))) (-1)); [|lia].
  destruct (Z.ltb_spec (-1) (Z.of_nat (S (tdim t)))); [|lia].
  cbn [andb bind]. destruct (Z.ltb_spec (-1) 0); [|lia].
  replace (Z.to_nat (-1 + Z.of_nat (S (tdim t)))) with (tdim t) by lia.
  unfold tdim. rewrite insert_nth_end. reflexivity.
Qed.

Lemma repeat_snoc {X : Type} (x : X) (n : nat) (l : list X) :
  repeat x n ++ x :: l = x :: repeat x n ++ l.
Proof. induction n as [|n IH]; simpl; [reflexivity|]. rewrite IH. reflexivity. Qed.

Lemma unsqueeze_front_loop {A : Type} (n : nat) (t : Tensor A) :
  exists t',
    repeatM n (fun s => unsqueeze s 0) t = Ok t' /\
    size t' = repeat 1 n ++ size t /\
    forall p, get t' p = get t (skipn n p).
Proof.
  revert t; induction n as [|n IH]; intro t.
  - exists t. simpl. auto.
  - cbn [repeatM]. rewrite unsqueeze_front. cbn [bind].
    destruct (IH (mkTensor (1 :: size t) (fun p => get t (remove_nth p 0))))
      as [t' [E [Hs Hg]]].
    exists t'. split; [exact E|]. split.
    + rewrite Hs. cbn [size]. rewrite repeat_snoc. reflexivity.
    + intro p. rewrite Hg. cbn [get]. rewrite remove_nth_skipn. reflexivity.
Qed.

Lemma unsqueeze_back_loop {A : Type} (n : nat) (t : Tensor A) :
  exists t',
    repeatM n (fun s => unsqueeze s (-1)) t = Ok t' /\
    size t' = size t ++ repeat 1 n /\
    forall p, length p <= tdim t + n -> get t' p = get t (firstn (tdim t) p).
Proof.
  revert t; induction n as [|n IH]; intro t.
  - exists t. simpl. rewrite app_nil_r. split; [reflexivity|]. split; [reflexivity|].
    intros p Hp. rewrite firstn_all2 by lia. reflexivity.
  - cbn [repeatM]. rewrite unsqueeze_back. cbn [bind].
    destruct (IH (mkTensor (size t ++ [1]) (fun p => get t (remove_nth p (tdim t)))))
      as [t' [E [Hs Hg]]].
    exists t'. split; [exact E|]. split.
    + rewrite Hs. cbn [size]. rewrite <- app_assoc. reflexivity.
    + intros p Hp. rewrite Hg.
      2:{ unfold tdim in *. cbn [size]. rewrite length_app. cbn [length]. lia. }
      cbn [get]. unfold tdim. cbn [size]. rewrite length_app. cbn [length].
      rewrite Nat.add_1_r, remove_nth_firstn. reflexivity.
Qed.

Lemma expandable_length (sz target : list nat) :
  expandable sz target = true -> length sz = length target.
Proof.
  revert target; induction sz as [|s sz IH]; intros [|g target] H; simpl in *;
    try discriminate; auto.
  apply andb_true_iff in H as [_ H]. f_equal. apply IH, H.
Qed.

Lemma expandable_nth (sz target : list nat) (k e : nat) :
  expandable sz target = true -> nth_error sz k = Some e ->
  e = 1 \/ nth_error target k = Some e.
Proof.
  revert target k; induction sz as [|s sz IH]; intros [|g target] k H Hk;
    simpl in *; try discriminate.
  - destruct k; discriminate.
  - apply andb_true_iff in H as [H1 H2]. destruct k as [|k]; simpl in *.
    + inversion Hk; subst. apply orb_true_iff in H1 as [H1|H1];
        apply Nat.eqb_eq in H1; subst; auto.
    + apply IH; assumption.
Qed.

Lemma expand_index_length (sz p : list nat) :
  length (expand_index sz p) <= length sz.
Proof.
  revert p; induction sz as [|s sz IH]; intros [|i p]; simpl; try lia.
  specialize (IH p). lia.
Qed.

Lemma expand_aligned {A : Type} (t : Tensor A) (target : list nat) :
  length target <= tdim t ->
  expand t target =
  if expandable (size t) target
  then Ok (mkTensor target (fun p => get t (expand_index (size t) p)))
  else Err ShapeMismatch.
Proof.
  intro H. unfold expand.
  destruct (Nat.ltb_spec (length target) (tdim t)) as [L|L].
  - destruct (expandable (size t) target) eqn:E; [|reflexivity].
    apply expandable_length in E. unfold tdim in L. lia.
  - replace (length target - tdim t) with 0 by lia. reflexivity.
Qed.

(** [broadcast] is [expand] applied to [src] reshaped to [aligned_size]. *)
Lemma broadcast_aligned {A B : Type} (src : Tensor A) (other : Tensor B) (dim : Z) :
  exists a,
    size a = aligned_size src other dim /\
    (forall p, length p <= length (aligned_size src other dim) ->
       get a p = get src (firstn (tdim src) (skipn (front_axes src other dim) p))) /\
    broadcast src other dim =
    if expandable (size a) (size other)
    then Ok (mkTensor (size other) (fun p => get a (expand_index (size a) p)))
    else Err ShapeMismatch.
Proof.
  unfold broadcast, aligned_size, front_axes.
  fold (broadcast_dim other dim). set (d := broadcast_dim other dim).
  assert (H1 : exists t1,
    (if tdim src =? 1 then repeatM (Z.to_nat d) (fun s => unsqueeze s 0) src
     else Ok src) = Ok t1 /\
    size t1 = repeat 1 (if tdim src =? 1 then Z.to_nat d else 0) ++ size src /\
    forall p, get t1 p =
      get src (skipn (if tdim src =? 1 then Z.to_nat d else 0) p)).
  { destruct (tdim src =? 1).
    - apply unsqueeze_front_loop.
    - exists src. simpl. auto. }
  destruct H1 as [t1 [E1 [S1 G1]]]. rewrite E1. cbn [bind].
  set (f := if tdim src =? 1 then Z.to_nat d else 0) in *.
  assert (T1 : tdim t1 = f + tdim src).
  { unfold tdim. rewrite S1, length_app, repeat_length. reflexivity. }
  destruct (unsqueeze_back_loop (tdim other - tdim t1) t1) as [a [E2 [S2 G2]]].
  rewrite E2. cbn [bind].
  assert (Sa : size a = repeat 1 f ++ size src ++ repeat 1 (tdim other - (f + tdim src))).
  { rewrite S2, S1, T1, <- app_assoc. reflexivity. }
  exists a. split; [exact Sa|]. split.
  - intros p Hp. rewrite G2, G1.
    + rewrite T1. f_equal.
      rewrite skipn_firstn_comm. replace (f + tdim src - f) with (tdim src) by lia.
      reflexivity.
    + rewrite <- Sa, S2, length_app, repeat_length in Hp. exact Hp.
  - apply expand_aligned. unfold tdim. rewrite S2, length_app, repeat_length.
    fold (tdim t1) (tdim other). lia.
Qed.

(** The result of [broadcast], read off the aligned shape. *)
Lemma broadcast_result {A B : Type} (src : Tensor A) (other : Tensor B) (dim : Z) :
  (forall r, broadcast src other dim = Ok r ->
     size r = size other /\
     forall p, in_bounds (size other) p = true ->
       get r p = get src (firstn (tdim src)
                   (skipn (front_axes src other dim)
                      (expand_index (aligned_size src other dim) p)))) /\
  (expandable (aligned_size src other dim) (size other) = true ->
     exists r, broadcast src other dim = Ok r).
Proof.
  destruct (broadcast_aligned src other dim) as [a [Sa [Ga E]]].
  rewrite Sa in E. split.
  - intros r Hr. rewrite E in Hr.
    destruct (expandable _ (size other)); [|discriminate].
    inversion Hr; subst; clear Hr. cbn [size get]. split; [reflexivity|].
    intros p _. apply Ga. apply expand_index_length.
  - intro H. rewrite E, H. eauto.
Qed.

(** The extent of [src] that ends up on the axis [dim]: the only extent of a
    1-D [src], the extent at [dim] of any other [src]. *)
Lemma aligned_extent_at_dim {A B : Type} (src : Tensor A) (other : Tensor B)
  (dim : Z) (e : nat) :
  nth_error (size src)
    (if tdim src =? 1 then 0 else Z.to_nat (broadcast_dim other dim)) = Some e ->
  nth_error (aligned_size src other dim) (Z.to_nat (broadcast_dim other dim))
  = Some e.
Proof.
  unfold aligned_size, front_axes. intro H.
  destruct (tdim src =? 1).
  - rewrite nth_error_app2 by (rewrite repeat_length; lia).
    rewrite repeat_length, Nat.sub_diag.
    rewrite nth_error_app1 by (apply nth_error_Some; rewrite H; discriminate).
    exact H.
  - cbn [repeat app].
    rewrite nth_error_app1 by (apply nth_error_Some; rewrite H; discriminate).
    exact H.
Qed.

(** C4.  [broadcast(src, other, dim)], with a negative [dim] resolved against
    the rank of [other]: whenever it returns, the result has exactly the shape
    of [other], and its element at [p] is the element of [src] found by
    dropping the singleton axes inserted in front (as many as [dim], when
    [src] is 1-D) and at the end, reading position 0 on every axis of extent
    1; it returns whenever every extent of the aligned shape is 1 or the
    extent of [other]; and it fails with the shape error when on some axis
    the aligned extent is neither 1 nor the extent of [other], in particular
    when the extent of [src] placed at [dim] is neither 1 nor the extent of
    [other] at [dim]. *)
Theorem broadcast_correct {A B : Type} (src : Tensor A) (other : Tensor B) (dim : Z) :
  let f := front_axes src other dim in
  let asz := aligned_size src other dim in
  let d := Z.to_nat (broadcast_dim other dim) in
  (forall r, broadcast src other dim = Ok r ->
     size r = size other /\
     forall p, in_bounds (size other) p = true ->
       get r p = get src (firstn (tdim src) (skipn f (expand_index asz p)))) /\
  (expandable asz (size other) = true ->
     exists r, broadcast src other dim = Ok r) /\
  (forall k e, nth_error asz k = Some e -> e <> 1 ->
     nth_error (size other) k <> Some e ->
     broadcast src other dim = Err ShapeMismatch) /\
  (forall e,
     nth_error (size src) (if tdim src =? 1 then 0 else d) = Some e ->
     e <> 1 ->
     nth_error (size other) d <> Some e ->
     broadcast src other dim = Err ShapeMismatch).
Proof.
  intros f asz d.
  destruct (broadcast_aligned src other dim) as [a [Sa [Ga E]]].
  fold asz in Sa, Ga. fold f in Ga. rewrite Sa in E.
  assert (F : forall k e, nth_error asz k = Some e -> e <> 1 ->
     nth_error (size other) k <> Some e ->
     broadcast src other dim = Err ShapeMismatch).
  { intros k e Hk He Ho. rewrite E.
    destruct (expandable asz (size other)) eqn:Hx; [|reflexivity].
    destruct (expandable_nth _ _ _ _ Hx Hk); contradiction. }
  split; [|split; [|split]].
  - intros r Hr. rewrite E in Hr.
    destruct (expandable asz (size other)); [|discriminate].
    inversion Hr; subst; clear Hr. cbn [size get]. split; [reflexivity|].
    intros p _. apply Ga. apply expand_index_length.
  - intro H. rewrite E, H. eauto.
  - exact F.
  - intros e He. apply (F d e).
    apply aligned_extent_at_dim. exact He.
Qed.

(** A 1-D index [0,1,0] against a 3x2 buffer along axis 0, and a 1-D buffer
    of the wrong length. *)
Example broadcast_rows :
  observe (broadcast (vec 0%Z [0; 1; 0]%Z) (mat 0%Z 2 [[1; 2]; [3; 4]; [5; 6]]%Z) 0)
  = Ok ([3; 2], [0; 0; 1; 1; 0; 0]%Z).
Proof. reflexivity. Qed.

Example broadcast_columns :
  observe (broadcast (vec 0%Z [7; 8]%Z) (mat 0%Z 2 [[1; 2]; [3; 4]; [5; 6]]%Z) (-1))
  = Ok ([3; 2], [7; 8; 7; 8; 7; 8]%Z).
Proof. reflexivity. Qed.

Example broadcast_wrong_length :
  observe (broadcast (vec 0%Z [0; 1]%Z) (mat 0%Z 2 [[1; 2]; [3; 4]; [5; 6]]%Z) 0)
  = Err ShapeMismatch.
Proof. reflexivity. Qed.

(** ** The values of a broadcast buffer *)

Lemma expand_index_in_bounds (sz osz p : list nat) :
  expandable sz osz = true -> in_bounds osz p = true ->
  in_bounds sz (expand_index sz p) = true.
Proof.
  revert osz p; induction sz as [|s sz IH]; intros [|g osz] [|i p] He Hp;
    simpl in *; try discriminate; auto.
  apply andb_true_iff in He as [H1 H2]. apply andb_true_iff in Hp as [Hi Hp].
  apply Nat.ltb_lt in Hi. rewrite (IH _ _ H2 Hp), andb_true_r.
  destruct (s =? 1) eqn:E1.
  - apply Nat.eqb_eq in E1. subst. reflexivity.
  - rewrite orb_false_r in H1. apply Nat.eqb_eq in H1. subst g.
    apply Nat.ltb_lt. exact Hi.
Qed.

Lemma in_bounds_app (l1 l2 p : list nat) :
  in_bounds (l1 ++ l2) p =
  in_bounds l1 (firstn (length l1) p) && in_bounds l2 (skipn (length l1) p).
Proof.
  revert p; induction l1 as [|n l1 IH]; intros p; simpl.
  - reflexivity.
  - destruct p as [|i p]; simpl; [reflexivity|].
    rewrite IH, andb_assoc. reflexivity.
Qed.

Lemma in_bounds_middle (l1 l2 l3 p : list nat) :
  in_bounds (l1 ++ l2 ++ l3) p = true ->
  in_bounds l2 (firstn (length l2) (skipn (length l1) p)) = true.
Proof.
  rewrite !in_bounds_app. intro H.
  apply andb_true_iff in H as [_ H]. apply andb_true_iff in H as [H _].
  exact H.
Qed.

Lemma in_bounds_ones (k : nat) : in_bounds (repeat 1 k) (repeat 0 k) = true.
Proof. induction k; simpl; auto. Qed.

Lemma in_bounds_padded (sz q : list nat) (f k : nat) :
  in_bounds sz q = true ->
  in_bounds (repeat 1 f ++ sz ++ repeat 1 k) (repeat 0 f ++ q ++ repeat 0 k) = true.
Proof.
  intro H. pose proof (in_bounds_length _ _ H) as L.
  rewrite !in_bounds_app, !repeat_length.
  rewrite firstn_app, repeat_length, Nat.sub_diag, firstn_O, app_nil_r.
  rewrite firstn_all2 by (rewrite repeat_length; lia).
  rewrite skipn_app, repeat_length, Nat.sub_diag, skipn_O.
  rewrite skipn_all2 by (rewrite repeat_length; lia). cbn [app].
  rewrite firstn_app, <- L, Nat.sub_diag, firstn_O, app_nil_r, firstn_all.
  rewrite skipn_app, Nat.sub_diag, skipn_O, skipn_all. cbn [app].
  rewrite !in_bounds_ones, H. reflexivity.
Qed.

Lemma in_bounds_expanded (sz osz p : list nat) :
  expandable sz osz = true -> fold_right Nat.mul 1 osz <> 0 ->
  in_bounds sz p = true -> in_bounds osz p = true.
Proof.
  revert osz p; induction sz as [|s sz IH]; intros [|g osz] [|i p] He Hn Hp;
    simpl in *; try discriminate; auto.
  apply andb_true_iff in He as [H1 H2]. apply andb_true_iff in Hp as [Hi Hp].
  apply Nat.ltb_lt in Hi.
  assert (g <> 0 /\ fold_right Nat.mul 1 osz <> 0) as [Hg Hn'] by nia.
  rewrite (IH _ _ H2 Hn' Hp), andb_true_r. apply Nat.ltb_lt.
  apply orb_true_iff in H1 as [H1|H1]; apply Nat.eqb_eq in H1; lia.
Qed.

Lemma expand_index_id (sz p : list nat) :
  in_bounds sz p = true -> expand_index sz p = p.
Proof.
  revert p; induction sz as [|s sz IH]; intros [|i p] Hp; simpl in *;
    try discriminate; auto.
  apply andb_true_iff in Hp as [Hi Hp]. apply Nat.ltb_lt in Hi.
  rewrite (IH _ Hp). destruct (Nat.eqb_spec s 1); [f_equal; lia|reflexivity].
Qed.

Lemma middle_of_padded (q : list nat) (f k : nat) :
  firstn (length q) (skipn f (repeat 0 f ++ q ++ repeat 0 k)) = q.
Proof.
  rewrite skipn_app, repeat_length, Nat.sub_diag, skipn_O.
  rewrite skipn_all2 by (rewrite repeat_length; lia). cbn [app].
  rewrite firstn_app, Nat.sub_diag, firstn_O, app_nil_r. apply firstn_all.
Qed.

(** Every element of a broadcast buffer is an element of the buffer it was
    made from, and every element of that buffer occurs in it as soon as it
    has an element at all. *)
Lemma broadcast_values {X B : Type} (index ib : Tensor X) (other : Tensor B) (dim : Z) :
  broadcast index other dim = Ok ib ->
  (forall p, in_bounds (size other) p = true ->
     exists q, in_bounds (size index) q = true /\ get ib p = get index q) /\
  (numel other <> 0 ->
   forall q, in_bounds (size index) q = true ->
     exists p, in_bounds (size other) p = true /\ get ib p = get index q).
Proof.
  intro Hb.
  destruct (broadcast_aligned index other dim) as [a [Sa [Ga E]]].
  rewrite Hb, Sa in E.
  destruct (expandable (aligned_size index other dim) (size other)) eqn:Hx;
    [|discriminate].
  inversion E; subst ib; clear E. cbn [get].
  set (f := front_axes index other dim) in *.
  set (k := tdim other - (f + tdim index)) in *.
  assert (Sz : aligned_size index other dim =
               repeat 1 f ++ size index ++ repeat 1 k) by reflexivity.
  split.
  - intros p Hp.
    pose proof (expand_index_in_bounds _ _ _ Hx Hp) as Hq.
    exists (firstn (tdim index) (skipn f (expand_index (aligned_size index other dim) p))).
    split.
    + rewrite Sz in Hq at 1. apply in_bounds_middle in Hq.
      rewrite repeat_length in Hq. exact Hq.
    + apply Ga. apply expand_index_length.
  - intros Hn q Hq.
    pose proof (in_bounds_padded _ _ f k Hq) as Hp'. rewrite <- Sz in Hp'.
    exists (repeat 0 f ++ q ++ repeat 0 k). split.
    + apply (in_bounds_expanded _ _ _ Hx Hn Hp').
    + rewrite (expand_index_id _ _ Hp'), Ga.
      * unfold tdim. rewrite <- (in_bounds_length _ _ Hq), middle_of_padded.
        reflexivity.
      * rewrite (in_bounds_length _ _ Hp'). lia.
Qed.

Lemma fold_max_spec (l : list Z) (x : Z) :
  In (fold_left Z.max l x) (x :: l) /\
  forall y, In y (x :: l) -> (y <= fold_left Z.max l x)%Z.
Proof.
  revert x; induction l as [|a l IH]; intro x; cbn [fold_left].
  - split; [left; reflexivity|]. intros y [<-|[]]. lia.
  - destruct (IH (Z.max x a)) as [H1 H2]. split.
    + destruct H1 as [H1|H1]; [|right; right; exact H1].
      rewrite <- H1. destruct (Z.max_spec x a) as [[_ ->]|[_ ->]];
        [right; left|left]; reflexivity.
    + intros y [<-|[<-|Hy]].
      * specialize (H2 (Z.max x a) (or_introl eq_refl)). lia.
      * specialize (H2 (Z.max x a) (or_introl eq_refl)). lia.
      * apply H2. right. exact Hy.
Qed.

Lemma tensor_max_spec (t : Tensor Z) (m : Z) :
  tensor_max t = Ok m ->
  (exists p, in_bounds (size t) p = true /\ get t p = m) /\
  forall p, in_bounds (size t) p = true -> (get t p <= m)%Z.
Proof.
  unfold tensor_max, elements. intro H.
  destruct (map (get t) (indices (size t))) as [|x l] eqn:E; [discriminate|].
  inversion H; subst m; clear H.
  destruct (fold_max_spec l x) as [H1 H2]. rewrite <- E in H1, H2. split.
  - apply in_map_iff in H1 as [p [Hp Hin]]. exists p. split; [|exact Hp].
    apply in_indices, Hin.
  - intros p Hp. apply H2. apply in_map, in_indices, Hp.
Qed.

Lemma tensor_max_ok (t : Tensor Z) (p : list nat) :
  in_bounds (size t) p = true -> exists m, tensor_max t = Ok m.
Proof.
  intro Hp. apply in_indices in Hp. unfold tensor_max, elements.
  destruct (indices (size t)) as [|q l]; [destruct Hp|]. simpl. eauto.
Qed.

Lemma numel_in_bounds (sz : list nat) :
  fold_right Nat.mul 1 sz <> 0 -> exists p, in_bounds sz p = true.
Proof.
  intro H. destruct (indices sz) as [|p l] eqn:E.
  - apply indices_nil_iff in E. contradiction.
  - exists p. apply in_indices. rewrite E. left. reflexivity.
Qed.

(** The maximum of a broadcast index that has an element is the maximum of
    the index buffer. *)
Lemma tensor_max_broadcast {B : Type} (index ib : Tensor Z) (other : Tensor B)
  (dim : Z) :
  broadcast index other dim = Ok ib -> numel other <> 0 ->
  exists m, tensor_max index = Ok m /\ tensor_max ib = Ok m.
Proof.
  intros Hb Hn. destruct (broadcast_values _ _ _ _ Hb) as [V1 V2].
  specialize (V2 Hn). pose proof (broadcast_size _ _ _ _ Hb) as Hs.
  destruct (numel_in_bounds _ Hn) as [p0 Hp0].
  destruct (V1 p0 Hp0) as [q0 [Hq0 _]].
  destruct (tensor_max_ok index q0 Hq0) as [m1 E1].
  assert (Hp0' : in_bounds (size ib) p0 = true) by (rewrite Hs; exact Hp0).
  destruct (tensor_max_ok ib p0 Hp0') as [m2 E2].
  destruct (tensor_max_spec _ _ E1) as [[q1 [Hq1 G1]] U1].
  destruct (tensor_max_spec _ _ E2) as [[p2 [Hp2 G2]] U2].
  rewrite Hs in Hp2.
  destruct (V1 p2 Hp2) as [q2 [Hq2 W2]].
  destruct (V2 q1 Hq1) as [p1 [Hp1 W1]].
  assert (Hp1' : in_bounds (size ib) p1 = true) by (rewrite Hs; exact Hp1).
  pose proof (U1 q2 Hq2). pose proof (U2 p1 Hp1').
  exists m1. split; [exact E1|]. rewrite E2. f_equal. lia.
Qed.

(** ** The alias [scatter_add] *)

Lemma ids_in_range_spec (ib : Tensor Z) (sz : list nat) (z : Z) :
  ids_in_range ib sz z = true ->
  forall p, in_bounds sz p = true -> (0 <= get ib p < z)%Z.
Proof.
  unfold ids_in_range. intros H p Hp.
  rewrite forallb_forall in H. apply in_indices in Hp.
  specialize (H p Hp). apply andb_true_iff in H as [H1 H2].
  apply Z.leb_le in H1. apply Z.ltb_lt in H2. lia.
Qed.

Section ScatterClaims.

Context {A : Type} (dt : DType A).

Variable torch_scatter_mul :
  Tensor A -> Tensor Z -> Z -> option (Tensor A) -> option Z -> result (Tensor A).
Variable torch_scatter_min :
  Tensor A -> Tensor Z -> Z -> option (Tensor A) -> option Z ->
  result (Tensor A * Tensor Z).
Variable torch_scatter_max :
  Tensor A -> Tensor Z -> Z -> option (Tensor A) -> option Z ->
  result (Tensor A * Tensor Z).

Local Abbreviation scatter' :=
  (scatter dt torch_scatter_mul torch_scatter_min torch_scatter_max).

(** C10.  [scatter_add] and the reduce kind "add" are [scatter_sum] and the
    reduce kind "sum" under another name: the results are the same for every
    value buffer, index, axis, [out] and [dim_size]. *)
Theorem scatter_add_is_scatter_sum (src : Tensor A) (index : Tensor Z) (dim : Z)
  (out : option (Tensor A)) (dim_size : option Z) :
  scatter_add dt src index dim out dim_size =
  scatter_sum dt src index dim out dim_size /\
  scatter' src index dim out dim_size "add" =
  scatter' src index dim out dim_size "sum" /\
  scatter' src index dim out dim_size "add" =
  scatter_add dt src index dim out dim_size.
Proof. repeat split; reflexivity. Qed.

End ScatterClaims.

(** ** The shape of the output *)

Section ScatterShape.

Context {A : Type} (dt : DType A).

Lemma scatter_fold_size (d : nat) (index : Tensor Z) (src : Tensor A)
  (L : list (list nat)) (o o' : Tensor A) :
  fold_left (scatter_step dt d index src) L (Ok o) = Ok o' -> size o' = size o.
Proof.
  revert o; induction L as [|p L IH]; intros o H.
  - inversion H. reflexivity.
  - cbn [fold_left] in H. unfold scatter_step at 2 in H. cbn [bind] in H.
    destruct (_ && _)%bool in H.
    + apply IH in H. exact H.
    + rewrite scatter_fold_err in H. discriminate.
Qed.

Lemma scatter_add_size (self src r : Tensor A) (dim : Z) (index : Tensor Z) :
  scatter_add_ dt self dim index src = Ok r -> size r = size self.
Proof.
  unfold scatter_add_. intro H. apply bind_ok in H as [d [_ H]].
  destruct (numel index =? 0).
  - inversion H. reflexivity.
  - destruct (scatter_shape_check _ _ _ _); [|discriminate].
    apply scatter_fold_size in H. exact H.
Qed.

Lemma to_shape_set_nth_ok (sz : list nat) (d : nat) (z : Z) (s : list nat) :
  d < length sz ->
  to_shape (set_nth (map Z.of_nat sz) d z) = Ok s ->
  (0 <= z)%Z /\ s = set_nth sz d (Z.to_nat z).
Proof.
  intros Hd H. destruct (Z.ltb_spec z 0) as [L|L].
  - rewrite to_shape_set_nth_neg in H by assumption. discriminate.
  - rewrite to_shape_set_nth in H by assumption. inversion H. auto.
Qed.

(** What a call of [scatter_sum] without [out] went through when it
    returned. *)
Lemma scatter_sum_inv (src out : Tensor A) (index : Tensor Z) (dim : Z)
  (ds : option Z) :
  scatter_sum dt src index dim None ds = Ok out ->
  exists ib d z,
    broadcast index src dim = Ok ib /\
    py_index (tdim src) dim = Ok d /\
    out_extent ib ds = Ok z /\
    (0 <= z)%Z /\
    size out = set_nth (size src) d (Z.to_nat z).
Proof.
  unfold scatter_sum. intro H.
  apply bind_ok in H as [ib [Hb H]].
  apply bind_ok in H as [size1 [H1 H]].
  apply bind_ok in H as [out0 [H0 H]].
  apply scatter_add_size in H.
  assert (Hz : exists z, out_extent ib ds = Ok z /\
                         py_setitem (map Z.of_nat (size src)) dim z = Ok size1).
  { unfold out_extent. destruct ds as [z|]; [eauto|].
    destruct (numel ib =? 0); [eauto|].
    apply bind_ok in H1 as [m [Hm H1]]. rewrite Hm. simpl. eauto. }
  destruct Hz as [z [Hz Hset]].
  unfold py_setitem in Hset. rewrite length_map in Hset.
  apply bind_ok in Hset as [d [Hd Hset]]. inversion Hset; subst size1; clear Hset.
  unfold zeros in H0. apply bind_ok in H0 as [s [Hs H0]].
  inversion H0; subst out0; clear H0. cbn [size full] in H.
  apply to_shape_set_nth_ok in Hs as [Hpos ->]; [|apply (py_index_ok _ _ _ Hd)].
  exists ib, d, z. auto.
Qed.

(** A call that returned met no group id out of range, and holds the sums
    of the groups. *)
Lemma scatter_sum_returned (src out : Tensor A) (index : Tensor Z) (dim : Z)
  (ds : option Z) :
  scatter_sum dt src index dim None ds = Ok out ->
  exists ib d z,
    broadcast index src dim = Ok ib /\
    py_index (tdim src) dim = Ok d /\
    out_extent ib ds = Ok z /\
    (0 <= z)%Z /\
    (forall p, in_bounds (size src) p = true -> (0 <= get ib p < z)%Z) /\
    size out = set_nth (size src) d (Z.to_nat z) /\
    forall q, in_bounds (size out) q = true ->
              get out q = group_sum dt src ib d q.
Proof.
  intro H. pose proof H as H'.
  apply scatter_sum_inv in H' as [ib [d [z [Hb [Hd [He [Hz Hs]]]]]]].
  assert (Hr : forall p, in_bounds (size src) p = true -> (0 <= get ib p < z)%Z).
  { intros p Hp.
    destruct (Z.leb_spec 0 (get ib p)), (Z.ltb_spec (get ib p) z); try lia;
      exfalso;
      rewrite (scatter_sum_oob dt src index ib dim ds d z p Hb Hd He Hz Hp) in H
        by lia; discriminate. }
  destruct (scatter_sum_spec dt src index ib dim ds d z Hb Hd He Hz Hr)
    as [out' [E [_ Hg]]].
  rewrite H in E. inversion E; subst out'.
  exists ib, d, z. auto 10.
Qed.

(** C2 (as amended).  Whenever [scatter_sum] without [out] returns, the
    output has the rank of the value buffer, its extent along [dim] is
    [dim_size] when supplied, else 0 when the value buffer has no element,
    else the maximum of the index buffer plus one, and every other extent is
    the value buffer's.  An empty index buffer that broadcasts is a case of
    a value buffer without element.  The call returns whenever the index
    broadcasts against the value buffer, [dim] is one of its axes and every
    group id lies within the extent chosen. *)
Theorem scatter_sum_shape (src : Tensor A) (index : Tensor Z) (dim : Z)
  (dim_size : option Z) :
  (forall out, scatter_sum dt src index dim None dim_size = Ok out ->
   exists d z,
     py_index (tdim src) dim = Ok d /\
     match dim_size with
     | Some ds => z = ds
     | None => if numel src =? 0 then z = 0%Z
               else exists m, tensor_max index = Ok m /\ z = (m + 1)%Z
     end /\
     tdim out = tdim src /\
     nth d (size out) 0 = Z.to_nat z /\
     (0 <= z)%Z /\
     forall k, k <> d -> nth k (size out) 0 = nth k (size src) 0) /\
  (forall ib, broadcast index src dim = Ok ib ->
     numel index = 0 -> numel src = 0) /\
  (forall ib d z,
     broadcast index src dim = Ok ib ->
     py_index (tdim src) dim = Ok d ->
     out_extent ib dim_size = Ok z ->
     (0 <= z)%Z ->
     (forall p, in_bounds (size src) p = true -> (0 <= get ib p < z)%Z) ->
     exists out, scatter_sum dt src index dim None dim_size = Ok out /\
                 size out = set_nth (size src) d (Z.to_nat z)).
Proof.
  split; [|split].
  - intros out H.
    apply scatter_sum_inv in H as [ib [d [z [Hb [Hd [He [Hz Hs]]]]]]].
    exists d, z. split; [exact Hd|].
    split; [|split; [|split; [|split]]].
    + unfold out_extent in He. destruct dim_size as [ds|].
      * inversion He. reflexivity.
      * assert (N : numel ib = numel src)
          by (unfold numel; rewrite (broadcast_size _ _ _ _ Hb); reflexivity).
        rewrite N in He. destruct (Nat.eqb_spec (numel src) 0) as [E|E].
        -- inversion He. reflexivity.
        -- apply bind_ok in He as [m [Hm He]]. inversion He; subst z.
           destruct (tensor_max_broadcast _ _ _ _ Hb E) as [m' [M1 M2]].
           rewrite Hm in M2. inversion M2; subst m'. eauto.
    + unfold tdim. rewrite Hs, set_nth_length. reflexivity.
    + rewrite Hs. apply nth_set_nth_eq. apply (py_index_ok _ _ _ Hd).
    + exact Hz.
    + intros k Hk. rewrite Hs. apply nth_set_nth_neq. exact Hk.
  - intros ib Hb Hi. destruct (Nat.eq_dec (numel src) 0) as [E|E]; [exact E|].
    exfalso. destruct (broadcast_values _ _ _ _ Hb) as [V1 _].
    destruct (numel_in_bounds _ E) as [p0 Hp0].
    destruct (V1 p0 Hp0) as [q0 [Hq0 _]].
    apply in_indices in Hq0. apply indices_nil_iff in Hi.
    rewrite Hi in Hq0. destruct Hq0.
  - intros ib d z Hb Hd He Hz Hr.
    destruct (scatter_sum_spec dt src index ib dim dim_size d z Hb Hd He Hz Hr)
      as [out [E [Hs _]]].
    eauto.
Qed.

End ScatterShape.

Lemma scatter_sum_shape_witness :
  exists d z,
    py_index (tdim src32) 0 = Ok d /\
    (if numel src32 =? 0 then z = 0%Z
     else exists m, tensor_max idx010 = Ok m /\ z = (m + 1)%Z) /\
    tdim (returned src32 (scatter_sum int64 src32 idx010 0 None None)) = tdim src32 /\
    nth d (size (returned src32 (scatter_sum int64 src32 idx010 0 None None))) 0
    = Z.to_nat z /\
    (0 <= z)%Z /\
    forall k, k <> d ->
      nth k (size (returned src32 (scatter_sum int64 src32 idx010 0 None None))) 0
      = nth k (size src32) 0.
Proof.
  apply (proj1 (scatter_sum_shape int64 src32 idx010 0 None)
           (returned src32 (scatter_sum int64 src32 idx010 0 None None))).
  reflexivity.
Defined.

(** The claim C2 as worded fails on a value buffer of one row and no
    column, of shape 1 x 0, with the index [5] and [dim] 0.  The index buffer
    is not empty and its maximum plus one is 6.  In [scatter_sum] the index
    is first broadcast: [unsqueeze(-1)] gives it the shape 1 x 1 and
    [expand] the shape 1 x 0, the axis of extent 1 being repeated zero
    times.  This broadcast index has no element, so the branch
    [index.numel() == 0] sets the extent to 0; the output has the shape
    0 x 0. *)
Lemma scatter_sum_shape_counterexample :
  numel idx5 = 1 /\
  tensor_max idx5 = Ok 5%Z /\
  fmap (@size Z) (broadcast idx5 src10 0) = Ok [1; 0] /\
  fmap (@size Z) (scatter_sum int64 src10 idx5 0 None None) = Ok [0; 0] /\
  fmap (fun out => nth 0 (size out) 0) (scatter_sum int64 src10 idx5 0 None None)
  <> Ok 6.
Proof. repeat split; try reflexivity. discriminate. Qed.

(** ** Out-of-range group ids *)

Section ScatterBounds.

Context {A : Type} (dt : DType A).

Variable torch_scatter_mul :
  Tensor A -> Tensor Z -> Z -> option (Tensor A) -> option Z -> result (Tensor A).
Variable torch_scatter_min :
  Tensor A -> Tensor Z -> Z -> option (Tensor A) -> option Z ->
  result (Tensor A * Tensor Z).
Variable torch_scatter_max :
  Tensor A -> Tensor Z -> Z -> option (Tensor A) -> option Z ->
  result (Tensor A * Tensor Z).

Local Abbreviation scatter' :=
  (scatter dt torch_scatter_mul torch_scatter_min torch_scatter_max).

(** C8 (as amended).  For a value buffer that has at least one element, an
    index buffer that broadcasts against it, a valid axis and an explicit
    non-negative [dim_size]: if some group id of the index buffer is
    negative or at least [dim_size], the sum and the mean reductions fail
    with the index error and return no output. *)
Theorem scatter_out_of_bounds (src : Tensor A) (index ib : Tensor Z) (dim ds : Z)
  (d : nat) (q : list nat) :
  broadcast index src dim = Ok ib ->
  py_index (tdim src) dim = Ok d ->
  (0 <= ds)%Z ->
  numel src <> 0 ->
  in_bounds (size index) q = true ->
  ~ (0 <= get index q < ds)%Z ->
  scatter' src index dim None (Some ds) "sum" = Err IndexOutOfBounds /\
  scatter' src index dim None (Some ds) "mean" = Err IndexOutOfBounds.
Proof.
  intros Hb Hd Hz Hn Hq Hr.
  destruct (broadcast_values _ _ _ _ Hb) as [_ V].
  destruct (V Hn q Hq) as [p [Hp Hg]]. rewrite <- Hg in Hr.
  pose proof (scatter_sum_oob dt src index ib dim (Some ds) d ds p
                Hb Hd eq_refl Hz Hp Hr) as E.
  split; [exact E|].
  change (scatter_mean dt src index dim None (Some ds) = Err IndexOutOfBounds).
  unfold scatter_mean. rewrite E. reflexivity.
Qed.

End ScatterBounds.

Lemma scatter_out_of_bounds_witness :
  scatter64 src32 (vec 0%Z [0; 5; 0]%Z) 0 None (Some 3%Z) "sum"
  = Err IndexOutOfBounds /\
  scatter64 src32 (vec 0%Z [0; 5; 0]%Z) 0 None (Some 3%Z) "mean"
  = Err IndexOutOfBounds.
Proof.
  apply (scatter_out_of_bounds int64 no_kernel no_kernel no_kernel
           src32 (vec 0%Z [0; 5; 0]%Z)
           (returned idx010 (broadcast (vec 0%Z [0; 5; 0]%Z) src32 0))
           0 3 0 [1]).
  - reflexivity.
  - reflexivity.
  - lia.
  - discriminate.
  - reflexivity.
  - vm_compute. intros [_ H]. discriminate.
Defined.

(** The claim C8 as worded fails on a value buffer of one row and no
    column, of shape 1 x 0, with the index [5], [dim] 0 and the [dim_size]
    2.  The group id 5 is not below 2.  The index is broadcast to the shape
    1 x 0 and has no element left; the output is created with the shape
    2 x 0, and [scatter_add_] visits no element, so no group id is compared
    with the extent: the reduction returns the output. *)
Lemma scatter_out_of_bounds_counterexample :
  get idx5 [0] = 5%Z /\
  fmap (@size Z) (broadcast idx5 src10 0) = Ok [1; 0] /\
  observe (scatter64 src10 idx5 0 None (Some 2%Z) "sum") = Ok ([2; 0], []) /\
  scatter64 src10 idx5 0 None (Some 2%Z) "sum" <> Err IndexOutOfBounds.
Proof. repeat split; try reflexivity. discriminate. Qed.

(** ** A 1-D buffer with one entry per row *)

Lemma py_index_broadcast_dim {B : Type} (other : Tensor B) (dim : Z) (d : nat) :
  py_index (tdim other) dim = Ok d -> Z.to_nat (broadcast_dim other dim) = d.
Proof.
  unfold py_index, broadcast_dim.
  destruct (_ && _)%bool; [|discriminate].
  intro H. inversion H. destruct (dim <? 0)%Z; f_equal; lia.
Qed.

Lemma expandable_ones (sz : list nat) :
  expandable (repeat 1 (length sz)) sz = true.
Proof.
  induction sz as [|n sz IH]; simpl; [reflexivity|].
  rewrite IH. rewrite orb_true_r. reflexivity.
Qed.

Lemma expandable_line (sz : list nat) (d : nat) :
  d < length sz ->
  expandable (repeat 1 d ++ [nth d sz 0] ++ repeat 1 (length sz - (d + 1))) sz
  = true.
Proof.
  revert d; induction sz as [|n sz IH]; intros d Hd; simpl in Hd; [lia|].
  destruct d as [|d]; simpl.
  - rewrite Nat.eqb_refl, Nat.sub_0_r. apply expandable_ones.
  - rewrite orb_true_r. apply IH. lia.
Qed.

Lemma expand_index_line (sz p : list nat) (d : nat) :
  in_bounds sz p = true -> d < length sz ->
  firstn 1 (skipn d (expand_index
    (repeat 1 d ++ [nth d sz 0] ++ repeat 1 (length sz - (d + 1))) p))
  = [nth d p 0].
Proof.
  revert p d; induction sz as [|n sz IH]; intros [|i p] d Hp Hd; simpl in *;
    try discriminate; try lia.
  apply andb_true_iff in Hp as [Hi Hp]. apply Nat.ltb_lt in Hi.
  destruct d as [|d]; simpl.
  - destruct (Nat.eqb_spec n 1); [f_equal; lia|reflexivity].
  - apply IH; [exact Hp|lia].
Qed.

Lemma broadcast_1d {X B : Type} (index : Tensor X) (other : Tensor B) (dim : Z)
  (d n : nat) :
  size index = [n] ->
  py_index (tdim other) dim = Ok d ->
  nth d (size other) 0 = n ->
  exists ib,
    broadcast index other dim = Ok ib /\
    size ib = size other /\
    forall p, in_bounds (size other) p = true -> get ib p = get index [nth d p 0].
Proof.
  intros Hi Hd Hn.
  pose proof (py_index_ok _ _ _ Hd) as Hlt.
  destruct (broadcast_result index other dim) as [H1 H2].
  assert (F : front_axes index other dim = d).
  { unfold front_axes, tdim. rewrite Hi. simpl.
    apply py_index_broadcast_dim, Hd. }
  assert (S : aligned_size index other dim =
              repeat 1 d ++ [nth d (size other) 0] ++
              repeat 1 (length (size other) - (d + 1))).
  { unfold aligned_size. rewrite F, Hi, Hn. unfold tdim at 2. rewrite Hi.
    reflexivity. }
  rewrite F, S in H1. rewrite S in H2.
  destruct (H2 (expandable_line _ _ Hlt)) as [ib E].
  exists ib. split; [exact E|].
  destruct (H1 ib E) as [Hs Hg]. split; [exact Hs|].
  intros p Hp. rewrite (Hg p Hp). unfold tdim. rewrite Hi. cbn [length].
  rewrite (expand_index_line _ _ _ Hp Hlt). reflexivity.
Qed.

(** ** [scatter_mean] *)

Section ScatterMean.

Context {A : Type} (dt : DType A).

Lemma index_dim_1d (src : Tensor A) (index : Tensor Z) (dim : Z) (d : nat) :
  tdim index = 1 ->
  py_index (tdim src) dim = Ok d ->
  (if (Z.of_nat (tdim index) <=?
       (if (dim <? 0)%Z then (dim + Z.of_nat (tdim src))%Z else dim))%Z
   then (Z.of_nat (tdim index) - 1)%Z
   else if (dim <? 0)%Z then (dim + Z.of_nat (tdim src))%Z else dim) = 0%Z.
Proof.
  intros Hi Hd. unfold py_index in Hd.
  destruct (_ && _)%bool eqn:E in Hd; [|discriminate].
  apply andb_true_iff in E as [E1 E2].
  apply Z.leb_le in E1. apply Z.ltb_lt in E2.
  rewrite Hi.
  destruct (Z.ltb_spec dim 0);
    match goal with |- context [(?a <=? ?b)%Z] => destruct (Z.leb_spec a b) end;
    lia.
Qed.

Lemma group_rows_1d (src : Tensor A) (index ib : Tensor Z) (d n' : nat) (q : list nat) :
  d < tdim src ->
  (forall p, in_bounds (size src) p = true -> get ib p = get index [nth d p 0]) ->
  in_bounds (set_nth (size src) d n') q = true ->
  group_rows ib d (nth d (size src) 0) q =
  rows_of_group index (nth d (size src) 0) (nth d q 0).
Proof.
  intros Hd Hib Hq. unfold group_rows, rows_of_group.
  apply filter_ext_in. intros i Hi. apply in_seq in Hi.
  assert (Hb : in_bounds (size src) (set_nth q d i) = true).
  { pose proof (in_bounds_set_nth _ _ d (nth d (size src) 0) i Hq) as H.
    rewrite set_nth_set_nth, set_nth_same in H. apply H. lia. }
  rewrite (Hib _ Hb), nth_set_nth_eq; [reflexivity|].
  apply in_bounds_length in Hq. rewrite set_nth_length in Hq.
  unfold tdim in Hd. lia.
Qed.

Lemma scatter_mean_spec (src : Tensor A) (index ib : Tensor Z) (dim : Z)
  (ds : option Z) (d n : nat) (z : Z) :
  size index = [n] ->
  py_index (tdim src) dim = Ok d ->
  nth d (size src) 0 = n ->
  broadcast index src dim = Ok ib ->
  out_extent ib ds = Ok z ->
  (0 <= z)%Z ->
  (forall i, i < n -> (0 <= get index [i] < z)%Z) ->
  exists out,
    scatter_mean dt src index dim None ds = Ok out /\
    size out = set_nth (size src) d (Z.to_nat z) /\
    forall q, in_bounds (size out) q = true ->
      get out q =
      (if is_floating_point dt then true_divide dt else floor_divide dt)
        (sum_list dt (map (fun i => get src (set_nth q d i))
                          (rows_of_group index n (nth d q 0))))
        (clamp_count dt
           (sum_list dt (map (fun _ => one dt)
                             (rows_of_group index n (nth d q 0))))).
Proof.
  intros Hi Hd Hn Hb He Hz Hr.
  pose proof (py_index_ok _ _ _ Hd) as Hlt.
  (* the index as broadcast against the values *)
  destruct (broadcast_1d index src dim d n Hi Hd Hn) as [ib' [Hb' [Sib Gib]]].
  rewrite Hb in Hb'. inversion Hb'; subst ib'; clear Hb'.
  assert (Hr' : forall p, in_bounds (size src) p = true -> (0 <= get ib p < z)%Z).
  { intros p Hp. rewrite (Gib p Hp). apply Hr. rewrite <- Hn.
    apply in_bounds_nth; assumption. }
  (* the sums *)
  destruct (scatter_sum_spec dt src index ib dim ds d z Hb Hd He Hz Hr')
    as [out1 [E1 [S1 G1]]].
  unfold scatter_mean. rewrite E1. cbn [bind].
  assert (T1 : tdim out1 = tdim src).
  { unfold tdim. rewrite S1, set_nth_length. reflexivity. }
  assert (N1 : nth d (size out1) 0 = Z.to_nat z).
  { rewrite S1. apply nth_set_nth_eq. exact Hlt. }
  unfold size_at. rewrite T1, Hd. cbn [bind]. rewrite N1.
  assert (Ti : tdim index = 1) by (unfold tdim; rewrite Hi; reflexivity).
  cbv zeta. rewrite (index_dim_1d src index dim d Ti Hd).
  rewrite Z2Nat.id by exact Hz.
  (* the counts *)
  assert (So : size (ones dt (size index)) = [n]) by (cbn; exact Hi).
  assert (Hd0 : py_index (tdim (ones dt (size index))) 0 = Ok 0).
  { unfold tdim. rewrite So. reflexivity. }
  destruct (broadcast_1d index (ones dt (size index)) 0 0 n Hi Hd0)
    as [ibc [Hbc [Sibc Gibc]]].
  { rewrite So. reflexivity. }
  destruct (scatter_sum_spec dt (ones dt (size index)) index ibc 0 (Some z) 0 z
              Hbc Hd0 eq_refl Hz) as [cnt [Ec [Sc Gc]]].
  { intros p Hp. rewrite (Gibc p Hp). apply Hr.
    rewrite So in Hp. destruct p as [|i [|j p']]; simpl in Hp; try discriminate.
    - rewrite andb_true_r in Hp. apply Nat.ltb_lt in Hp. exact Hp.
    - rewrite andb_false_r in Hp. discriminate. }
  rewrite Ec. cbn [bind].
  rewrite So in Sc. cbn [set_nth] in Sc.
  (* the counts broadcast against the sums *)
  assert (Sm : size (tmap (clamp_count dt) cnt) = [Z.to_nat z]) by (cbn; exact Sc).
  assert (Hd1 : py_index (tdim out1) dim = Ok d) by (rewrite T1; exact Hd).
  destruct (broadcast_1d (tmap (clamp_count dt) cnt) out1 dim d (Z.to_nat z)
              Sm Hd1 N1) as [cb [Hcb [Scb Gcb]]].
  rewrite Hcb. cbn [bind].
  assert (Q : idx_eqb (size out1) (size cb) = true)
    by (apply idx_eqb_eq; symmetry; exact Scb).
  assert (R : forall f, div_ f out1 cb =
     Ok (mkTensor (size out1) (fun p => f (get out1 p) (get cb p)))).
  { intro f. unfold div_. rewrite Q. reflexivity. }
  exists (mkTensor (size out1)
            (fun p => (if is_floating_point dt then true_divide dt
                       else floor_divide dt) (get out1 p) (get cb p))).
  split; [destruct (is_floating_point dt); apply R|].
  split; [exact S1|].
  cbn [size get]. intros q Hq.
  assert (Hq' : in_bounds (set_nth (size src) d (Z.to_nat z)) q = true)
    by (rewrite <- S1; exact Hq).
  assert (Hg : nth d q 0 < Z.to_nat z).
  { rewrite <- N1. apply in_bounds_nth; [exact Hq|]. fold (tdim out1). lia. }
  rewrite (G1 q Hq), (Gcb q Hq). cbn [tmap get].
  unfold group_sum.
  rewrite (group_rows_1d src index ib d (Z.to_nat z) q Hlt Gib Hq'), Hn.
  f_equal. f_equal.
  assert (Hc : in_bounds (size cnt) [nth d q 0] = true).
  { rewrite Sc. simpl. rewrite andb_true_r. apply Nat.ltb_lt. exact Hg. }
  rewrite (Gc _ Hc). unfold group_sum. cbn [size ones full nth].
  rewrite Hi. cbn [nth].
  assert (Hg1 : group_rows ibc 0 n [nth d q 0] = rows_of_group index n (nth d q 0)).
  { assert (L0 : 0 < tdim (ones dt (size index))).
    { unfold tdim. rewrite So. simpl. lia. }
    pose proof (group_rows_1d (ones dt (size index)) index ibc 0 (Z.to_nat z)
                  [nth d q 0] L0 Gibc) as H.
    rewrite So in H. cbn [nth set_nth] in H. apply H.
    simpl. rewrite andb_true_r. apply Nat.ltb_lt. exact Hg. }
  rewrite Hg1. reflexivity.
Qed.

(** A mean that returned met every entry of the index within the extent of
    the output. *)
Lemma scatter_mean_returned (src out : Tensor A) (index : Tensor Z) (dim : Z)
  (ds : option Z) (d n : nat) :
  size index = [n] ->
  py_index (tdim src) dim = Ok d ->
  nth d (size src) 0 = n ->
  scatter_mean dt src index dim None ds = Ok out ->
  exists ib z,
    broadcast index src dim = Ok ib /\
    out_extent ib ds = Ok z /\
    (0 <= z)%Z /\
    forall i, i < n -> (0 <= get index [i] < z)%Z.
Proof.
  intros Hi Hd Hn H. unfold scatter_mean in H.
  apply bind_ok in H as [out1 [H1 H]]. apply bind_ok in H as [dsz [Hsz H]].
  cbv zeta in H. apply bind_ok in H as [cnt [Hc _]].
  apply scatter_sum_inv in H1 as [ib [d' [z [Hb [Hd' [He [Hz Hs]]]]]]].
  rewrite Hd in Hd'. inversion Hd'; subst d'; clear Hd'.
  pose proof (py_index_ok _ _ _ Hd) as Hlt.
  unfold size_at in Hsz.
  replace (tdim out1) with (tdim src) in Hsz
    by (unfold tdim; rewrite Hs, set_nth_length; reflexivity).
  rewrite Hd in Hsz. cbn [bind] in Hsz. inversion Hsz as [Hdsz]; clear Hsz.
  rewrite Hs, nth_set_nth_eq in Hdsz by exact Hlt. subst dsz.
  assert (Ti : tdim index = 1) by (unfold tdim; rewrite Hi; reflexivity).
  rewrite (index_dim_1d src index dim d Ti Hd), Z2Nat.id in Hc by exact Hz.
  apply scatter_sum_returned in Hc
    as [ibc [d0 [z0 [Hbc [_ [Hec [_ [Hr _]]]]]]]].
  inversion Hec; subst z0; clear Hec.
  assert (So : size (ones dt (size index)) = [n]) by (cbn; exact Hi).
  assert (Hd0 : py_index (tdim (ones dt (size index))) 0 = Ok 0).
  { unfold tdim. rewrite So. reflexivity. }
  destruct (broadcast_1d index (ones dt (size index)) 0 0 n Hi Hd0)
    as [ibc' [Hbc' [_ Gibc]]].
  { rewrite So. reflexivity. }
  rewrite Hbc in Hbc'. inversion Hbc'; subst ibc'; clear Hbc'.
  exists ib, z. split; [exact Hb|]. split; [exact He|]. split; [exact Hz|].
  intros i Hlti.
  assert (Hp : in_bounds (size (ones dt (size index))) [i] = true).
  { rewrite So. simpl. rewrite andb_true_r. apply Nat.ltb_lt. exact Hlti. }
  specialize (Hr [i] Hp). rewrite (Gibc [i] Hp) in Hr. exact Hr.
Qed.

End ScatterMean.

(** ** The sums of the groups *)

Section SumClaim.

Context {A : Type} (dt : DType A).

Variable torch_scatter_mul :
  Tensor A -> Tensor Z -> Z -> option (Tensor A) -> option Z -> result (Tensor A).
Variable torch_scatter_min :
  Tensor A -> Tensor Z -> Z -> option (Tensor A) -> option Z ->
  result (Tensor A * Tensor Z).
Variable torch_scatter_max :
  Tensor A -> Tensor Z -> Z -> option (Tensor A) -> option Z ->
  result (Tensor A * Tensor Z).

Local Abbreviation scatter' :=
  (scatter dt torch_scatter_mul torch_scatter_min torch_scatter_max).

(** C1.  Sum correctness.  For every value buffer [src], index buffer, axis
    [dim] and explicit [dim_size]: whenever the sum reduction returns, the
    index broadcast against [src] to some [ib], and the element of the
    output at every slot [q] is the sum, taken in row order from zero, of
    the rows of [src] along [dim] whose index entry equals the group of
    [q]; it is zero when no row contributes.  The reduction does return when
    the index broadcasts against [src], [dim] is one of its axes and every
    group id lies in [0, dim_size).  For an index buffer with one entry per
    row, the contributing rows are the rows [i] with [index[i]] equal to the
    group. *)
Theorem scatter_sum_correct (src : Tensor A) (index : Tensor Z) (dim ds : Z) :
  (forall out, scatter' src index dim None (Some ds) "sum" = Ok out ->
   exists ib d,
     broadcast index src dim = Ok ib /\
     py_index (tdim src) dim = Ok d /\
     size out = set_nth (size src) d (Z.to_nat ds) /\
     forall q, in_bounds (size out) q = true ->
       get out q = group_sum dt src ib d q /\
       (group_rows ib d (nth d (size src) 0) q = [] -> get out q = zero dt)) /\
  (forall ib d,
     broadcast index src dim = Ok ib ->
     py_index (tdim src) dim = Ok d ->
     (0 <= ds)%Z ->
     (forall p, in_bounds (size src) p = true -> (0 <= get ib p < ds)%Z) ->
     exists out, scatter' src index dim None (Some ds) "sum" = Ok out) /\
  (forall ib d n q,
     broadcast index src dim = Ok ib ->
     py_index (tdim src) dim = Ok d ->
     size index = [n] -> nth d (size src) 0 = n ->
     in_bounds (set_nth (size src) d (Z.to_nat ds)) q = true ->
     group_rows ib d n q = rows_of_group index n (nth d q 0)).
Proof.
  split; [|split].
  - intros out H.
    change (scatter_sum dt src index dim None (Some ds) = Ok out) in H.
    apply scatter_sum_returned in H
      as [ib [d [z [Hb [Hd [He [Hz [_ [Hs Hg]]]]]]]]].
    inversion He; subst z; clear He.
    exists ib, d. split; [exact Hb|]. split; [exact Hd|]. split; [exact Hs|].
    intros q Hq. split; [apply Hg, Hq|].
    intro Hn. rewrite (Hg q Hq). unfold group_sum. rewrite Hn. reflexivity.
  - intros ib d Hb Hd Hz Hr.
    destruct (scatter_sum_spec dt src index ib dim (Some ds) d ds
                Hb Hd eq_refl Hz Hr) as [out [E _]].
    exists out. exact E.
  - intros ib d n q Hb Hd Hi Hn Hq.
    destruct (broadcast_1d index src dim d n Hi Hd Hn) as [ib' [Hb' [_ G]]].
    rewrite Hb in Hb'. inversion Hb'; subst ib'. rewrite <- Hn.
    apply (group_rows_1d src index ib d (Z.to_nat ds) q
             (py_index_ok _ _ _ Hd) G Hq).
Qed.

End SumClaim.

Lemma scatter_sum_correct_witness :
  exists out, scatter64 src32 idx010 0 None (Some 3%Z) "sum" = Ok out.
Proof.
  apply (proj1 (proj2 (scatter_sum_correct int64 no_kernel no_kernel no_kernel
                         src32 idx010 0 3))
           (returned idx010 (broadcast idx010 src32 0)) 0).
  - reflexivity.
  - reflexivity.
  - lia.
  - apply ids_in_range_spec. reflexivity.
Defined.

Example scatter_sum_rows :
  observe (scatter64 src32 idx010 0 None (Some 3%Z) "sum")
  = Ok ([3; 2], [6; 8; 3; 4; 0; 0]%Z).
Proof. reflexivity. Qed.

(** ** The mean of the groups *)

Lemma expandable_refl (sz : list nat) : expandable sz sz = true.
Proof.
  induction sz as [|s sz IH]; simpl; [reflexivity|].
  rewrite Nat.eqb_refl, IH. reflexivity.
Qed.

Section ScatterMeanSame.

Context {A : Type} (dt : DType A).

(** An index of the shape of the value buffer is left as it is, for value
    buffers of another rank than one. *)
Lemma broadcast_identity {X B : Type} (index : Tensor X) (other : Tensor B) (dim : Z) :
  size index = size other ->
  tdim other <> 1 ->
  exists ib,
    broadcast index other dim = Ok ib /\
    size ib = size other /\
    forall p, in_bounds (size other) p = true -> get ib p = get index p.
Proof.
  intros Hs Hr.
  assert (Ti : tdim index = tdim other) by (unfold tdim; rewrite Hs; reflexivity).
  assert (F : front_axes index other dim = 0).
  { unfold front_axes. destruct (Nat.eqb_spec (tdim index) 1); [lia|reflexivity]. }
  assert (Sz : aligned_size index other dim = size index).
  { unfold aligned_size. rewrite F. cbn [repeat app Nat.add].
    rewrite Ti, Nat.sub_diag. apply app_nil_r. }
  destruct (broadcast_result index other dim) as [H1 H2].
  rewrite Sz, F in H1. rewrite Sz in H2.
  destruct H2 as [r Hb]; [rewrite Hs; apply expandable_refl|].
  exists r. split; [exact Hb|]. destruct (H1 r Hb) as [S1 G]. split; [exact S1|].
  intros p Hp. rewrite (G p Hp). rewrite <- Hs in Hp.
  rewrite (expand_index_id _ _ Hp). cbn [skipn].
  unfold tdim. rewrite <- (in_bounds_length _ _ Hp), firstn_all. reflexivity.
Qed.

Lemma py_index_resolved (r : nat) (dim : Z) (d : nat) :
  py_index r dim = Ok d ->
  (if (dim <? 0)%Z then (dim + Z.of_nat r)%Z else dim) = Z.of_nat d.
Proof.
  unfold py_index. cbv zeta.
  destruct ((- Z.of_nat r <=? dim) && (dim <? Z.of_nat r))%Z eqn:R; [|discriminate].
  apply andb_true_iff in R as [R1 R2]. apply Z.leb_le in R1. apply Z.ltb_lt in R2.
  intro H. injection H as <-. destruct (Z.ltb_spec dim 0); lia.
Qed.

Lemma group_rows_ext (sz : list nat) (ib ib' : Tensor Z) (d n' : nat) (q : list nat) :
  d < length sz ->
  (forall p, in_bounds sz p = true -> get ib p = get ib' p) ->
  in_bounds (set_nth sz d n') q = true ->
  group_rows ib d (nth d sz 0) q = group_rows ib' d (nth d sz 0) q.
Proof.
  intros Hd Hib Hq. unfold group_rows. apply filter_ext_in.
  intros i Hi. apply in_seq in Hi.
  assert (Hb : in_bounds sz (set_nth q d i) = true).
  { pose proof (in_bounds_set_nth _ _ d (nth d sz 0) i Hq) as H.
    rewrite set_nth_set_nth, set_nth_same in H. apply H. lia. }
  rewrite (Hib _ Hb). reflexivity.
Qed.

Lemma py_index_of_nat (r d : nat) : d < r -> py_index r (Z.of_nat d) = Ok d.
Proof.
  intro H. unfold py_index. cbv zeta.
  destruct (Z.leb_spec (- Z.of_nat r) (Z.of_nat d)); [|lia].
  destruct (Z.ltb_spec (Z.of_nat d) (Z.of_nat r)); [|lia]. cbn [andb].
  destruct (Z.ltb_spec (Z.of_nat d) 0); [lia|]. rewrite Nat2Z.id. reflexivity.
Qed.

(** What a mean that returned tells about the index as broadcast. *)
Lemma scatter_mean_inv (src out : Tensor A) (index : Tensor Z) (dim : Z)
  (ds : option Z) :
  scatter_mean dt src index dim None ds = Ok out ->
  exists ib d z,
    broadcast index src dim = Ok ib /\
    py_index (tdim src) dim = Ok d /\
    out_extent ib ds = Ok z /\
    (0 <= z)%Z /\
    forall p, in_bounds (size src) p = true -> (0 <= get ib p < z)%Z.
Proof.
  intro H. unfold scatter_mean in H. apply bind_ok in H as [out1 [H1 _]].
  apply scatter_sum_returned in H1
    as [ib [d [z [Hb [Hd [He [Hz [Hr _]]]]]]]].
  exists ib, d, z. auto.
Qed.

End ScatterMeanSame.

(** *** An index with an axis of its own along [dim] *)

Lemma set_nth_app {X : Type} (a b : list X) (d : nat) (x : X) :
  d < length a -> set_nth (a ++ b) d x = set_nth a d x ++ b.
Proof.
  revert d; induction a as [|y a IH]; intros [|d] H; simpl in *; try lia;
    [reflexivity|]. f_equal. apply IH. lia.
Qed.

Lemma firstn_set_nth {X : Type} (l : list X) (k d : nat) (x : X) :
  d < k -> firstn k (set_nth l d x) = set_nth (firstn k l) d x.
Proof.
  revert k d; induction l as [|y l IH]; intros [|k] [|d] H; simpl; try lia;
    try reflexivity.
  f_equal. apply IH. lia.
Qed.

Lemma nth_firstn_lt {X : Type} (l : list X) (k d : nat) (x : X) :
  d < k -> nth d (firstn k l) x = nth d l x.
Proof.
  revert k d; induction l as [|y l IH]; intros [|k] [|d] H; simpl; try lia;
    try reflexivity.
  apply IH. lia.
Qed.

Lemma expandable_set_nth (a b : list nat) (d v : nat) :
  expandable a b = true -> expandable (set_nth a d v) (set_nth b d v) = true.
Proof.
  revert b d; induction a as [|s a IH]; intros [|g b] [|d] H; simpl in *;
    try discriminate; auto.
  - apply andb_true_iff in H as [_ H]. rewrite Nat.eqb_refl, H. reflexivity.
  - apply andb_true_iff in H as [H1 H]. rewrite H1. apply IH, H.
Qed.

(** Moving along an axis whose extent is not 1, or within it, commutes with
    reading position 0 on the singleton axes. *)
Lemma expand_index_set_nth (sz q : list nat) (d i v : nat) :
  length q = length sz -> i < nth d sz 0 ->
  expand_index sz (set_nth q d i) = set_nth (expand_index (set_nth sz d v) q) d i.
Proof.
  revert q d; induction sz as [|s sz IH]; intros [|j q] [|d] L Hi;
    simpl in *; try discriminate; try lia.
  - destruct (Nat.eqb_spec s 1); [f_equal; lia|reflexivity].
  - f_equal. apply IH; [lia|exact Hi].
Qed.

Lemma nth_expand_index (sz q : list nat) (d : nat) :
  length q = length sz -> nth d q 0 < nth d sz 0 ->
  nth d (expand_index sz q) 0 = nth d q 0.
Proof.
  revert q d; induction sz as [|s sz IH]; intros [|j q] [|d] L H;
    simpl in *; try discriminate; try lia.
  - destruct (Nat.eqb_spec s 1); lia.
  - apply IH; [lia|exact H].
Qed.

Section ScatterMeanAligned.

Context {A : Type} (dt : DType A).

(** The resolved axis of the count when the index has the axis [dim]. *)
Lemma index_dim_own (src : Tensor A) (index : Tensor Z) (dim : Z) (d : nat) :
  d < tdim index ->
  py_index (tdim src) dim = Ok d ->
  (if (Z.of_nat (tdim index) <=?
       (if (dim <? 0)%Z then (dim + Z.of_nat (tdim src))%Z else dim))%Z
   then (Z.of_nat (tdim index) - 1)%Z
   else if (dim <? 0)%Z then (dim + Z.of_nat (tdim src))%Z else dim) = Z.of_nat d.
Proof.
  intros Hk Hd. rewrite (py_index_resolved _ _ _ Hd).
  destruct (Z.leb_spec (Z.of_nat (tdim index)) (Z.of_nat d)); [lia|reflexivity].
Qed.

(** An index of another rank than one is aligned by singleton axes at the
    end only. *)
Lemma broadcast_trailing {X B : Type} (index ib : Tensor X) (other : Tensor B)
  (dim : Z) :
  tdim index <> 1 ->
  broadcast index other dim = Ok ib ->
  let asz := size index ++ repeat 1 (tdim other - tdim index) in
  expandable asz (size other) = true /\
  tdim index <= tdim other /\
  size ib = size other /\
  forall p, in_bounds (size other) p = true ->
    in_bounds (size index) (firstn (tdim index) (expand_index asz p)) = true /\
    get ib p = get index (firstn (tdim index) (expand_index asz p)).
Proof.
  intros Hk Hb asz.
  assert (F : front_axes index other dim = 0).
  { unfold front_axes. destruct (Nat.eqb_spec (tdim index) 1); [lia|reflexivity]. }
  assert (Sz : aligned_size index other dim = asz).
  { unfold aligned_size. rewrite F. reflexivity. }
  destruct (broadcast_aligned index other dim) as [a [Sa [_ E]]].
  rewrite Hb, Sa, Sz in E.
  destruct (expandable asz (size other)) eqn:Hx; [|discriminate]. clear E.
  pose proof (expandable_length _ _ Hx) as L.
  unfold asz in L. rewrite length_app, repeat_length in L.
  fold (tdim index) (tdim other) in L.
  destruct (broadcast_result index other dim) as [H1 _].
  destruct (H1 ib Hb) as [S1 G]. rewrite Sz, F in G.
  split; [reflexivity|]. split; [lia|]. split; [exact S1|].
  intros p Hp. split; [|apply G, Hp].
  pose proof (expand_index_in_bounds _ _ _ Hx Hp) as Hq.
  unfold asz in Hq at 1.
  apply (in_bounds_middle [] (size index)) in Hq. exact Hq.
Qed.

(** The mean for an index of another rank than one that has the axis [dim],
    with the extent of the value buffer. *)
Lemma scatter_mean_aligned_spec (src : Tensor A) (index ib : Tensor Z) (dim : Z)
  (ds : option Z) (d : nat) (z : Z) :
  tdim index <> 1 ->
  d < tdim index ->
  nth d (size index) 0 = nth d (size src) 0 ->
  py_index (tdim src) dim = Ok d ->
  broadcast index src dim = Ok ib ->
  out_extent ib ds = Ok z ->
  (0 <= z)%Z ->
  (forall p, in_bounds (size index) p = true -> (0 <= get index p < z)%Z) ->
  exists out,
    scatter_mean dt src index dim None ds = Ok out /\
    size out = set_nth (size src) d (Z.to_nat z) /\
    forall q, in_bounds (size out) q = true ->
      get out q =
      (if is_floating_point dt then true_divide dt else floor_divide dt)
        (sum_list dt (map (fun i => get src (set_nth q d i))
                          (group_rows ib d (nth d (size src) 0) q)))
        (clamp_count dt
           (sum_list dt (map (fun _ => one dt)
                             (group_rows ib d (nth d (size src) 0) q)))).
Proof.
  intros Hk1 Hk Hn Hd Hb He Hz Hr.
  pose proof (py_index_ok _ _ _ Hd) as Hlt.
  destruct (broadcast_trailing index ib src dim Hk1 Hb) as [Hx [Hkr [Sib Gib]]].
  set (pad := repeat 1 (tdim src - tdim index)) in *.
  set (k := tdim index) in *.
  assert (Hrib : forall p, in_bounds (size src) p = true -> (0 <= get ib p < z)%Z).
  { intros p Hp. destruct (Gib p Hp) as [B G]. rewrite G. apply Hr, B. }
  destruct (scatter_sum_spec dt src index ib dim ds d z Hb Hd He Hz Hrib)
    as [out1 [E1 [S1 G1]]].
  unfold scatter_mean. rewrite E1. cbn [bind].
  assert (T1 : tdim out1 = tdim src).
  { unfold tdim. rewrite S1, set_nth_length. reflexivity. }
  assert (N1 : nth d (size out1) 0 = Z.to_nat z).
  { rewrite S1. apply nth_set_nth_eq. exact Hlt. }
  unfold size_at. rewrite T1, Hd. cbn [bind]. rewrite N1.
  cbv zeta. rewrite (index_dim_own src index dim d Hk Hd).
  rewrite Z2Nat.id by exact Hz.
  (* the counts *)
  set (o1 := ones dt (size index)).
  assert (So : size o1 = size index) by reflexivity.
  assert (To : tdim o1 = k) by reflexivity.
  assert (Hd0 : py_index (tdim o1) (Z.of_nat d) = Ok d)
    by (rewrite To; apply py_index_of_nat; exact Hk).
  destruct (broadcast_identity index o1 (Z.of_nat d)) as [ibc [Hbc [Sibc Gibc]]].
  { reflexivity. }
  { rewrite To. exact Hk1. }
  destruct (scatter_sum_spec dt o1 index ibc (Z.of_nat d) (Some z) d z
              Hbc Hd0 eq_refl Hz) as [cnt [Ec [Sc Gc]]].
  { intros p Hp. rewrite (Gibc p Hp). apply Hr. exact Hp. }
  rewrite Ec. cbn [bind]. rewrite So in Sc.
  (* the counts against the sums *)
  set (cnt' := tmap (clamp_count dt) cnt).
  assert (Tc : tdim cnt' = k).
  { unfold tdim, cnt'. cbn [tmap size]. rewrite Sc, set_nth_length. reflexivity. }
  assert (Sz' : size cnt' ++ repeat 1 (tdim out1 - tdim cnt') =
                set_nth (size index ++ pad) d (Z.to_nat z)).
  { rewrite T1, Tc. unfold cnt'. cbn [tmap size]. rewrite Sc.
    symmetry. apply set_nth_app. exact Hk. }
  assert (Hcb : exists cb, broadcast cnt' out1 dim = Ok cb).
  { apply (proj2 (broadcast_result cnt' out1 dim)).
    unfold aligned_size, front_axes. rewrite Tc.
    destruct (Nat.eqb_spec k 1) as [K|_]; [contradiction|].
    cbn [repeat app Nat.add]. rewrite <- Tc.
    rewrite Sz', S1. apply expandable_set_nth. exact Hx. }
  destruct Hcb as [cb Hcb].
  assert (Tc1 : tdim cnt' <> 1) by (rewrite Tc; exact Hk1).
  destruct (broadcast_trailing cnt' cb out1 dim Tc1 Hcb) as [_ [_ [Scb Gcb]]].
  rewrite Sz', Tc in Gcb.
  rewrite Hcb. cbn [bind].
  assert (Q : idx_eqb (size out1) (size cb) = true)
    by (apply idx_eqb_eq; symmetry; exact Scb).
  assert (R : forall f, div_ f out1 cb =
     Ok (mkTensor (size out1) (fun p => f (get out1 p) (get cb p)))).
  { intro f. unfold div_. rewrite Q. reflexivity. }
  exists (mkTensor (size out1)
            (fun p => (if is_floating_point dt then true_divide dt
                       else floor_divide dt) (get out1 p) (get cb p))).
  split; [destruct (is_floating_point dt); apply R|].
  split; [exact S1|].
  cbn [size get]. intros q Hq.
  assert (Hq' : in_bounds (set_nth (size src) d (Z.to_nat z)) q = true)
    by (rewrite <- S1; exact Hq).
  destruct (Gcb q Hq) as [Bq Gq].
  rewrite (G1 q Hq), Gq. unfold cnt' at 1. cbn [tmap get].
  unfold group_sum at 1. f_equal. f_equal.
  set (q' := firstn k (expand_index (set_nth (size index ++ pad) d (Z.to_nat z)) q)) in *.
  assert (Hc : in_bounds (size cnt) q' = true).
  { unfold cnt' in Bq. cbn [tmap size] in Bq. exact Bq. }
  rewrite (Gc q' Hc). unfold group_sum. rewrite So. unfold o1. cbn [ones full get].
  rewrite Hn. f_equal. f_equal.
  (* the rows of the count are the rows of the sum *)
  assert (Lq : length q = length (size index ++ pad)).
  { pose proof (in_bounds_length _ _ Hq') as L. rewrite set_nth_length in L.
    rewrite L. symmetry. apply (expandable_length _ _ Hx). }
  assert (Nq : nth d q 0 < Z.to_nat z).
  { pose proof (in_bounds_nth _ _ d Hq') as H.
    rewrite set_nth_length, nth_set_nth_eq in H by exact Hlt. apply H, Hlt. }
  assert (Dq : nth d q' 0 = nth d q 0).
  { unfold q'. rewrite nth_firstn_lt by exact Hk.
    apply nth_expand_index.
    - rewrite set_nth_length. exact Lq.
    - rewrite nth_set_nth_eq; [exact Nq|].
      rewrite length_app. fold (tdim index). fold k. lia. }
  unfold group_rows. rewrite Dq. apply filter_ext_in.
  intros i Hi. apply in_seq in Hi. f_equal.
  assert (Hb' : in_bounds (size src) (set_nth q d i) = true).
  { pose proof (in_bounds_set_nth _ _ d (nth d (size src) 0) i Hq') as H.
    rewrite set_nth_set_nth, set_nth_same in H. apply H. lia. }
  destruct (Gib _ Hb') as [Bi Gi]. rewrite Gi.
  assert (Ei : firstn k (expand_index (size index ++ pad) (set_nth q d i)) =
               set_nth q' d i).
  { unfold q'. rewrite <- firstn_set_nth by exact Hk. f_equal.
    apply expand_index_set_nth; [exact Lq|].
    rewrite app_nth1 by exact Hk. rewrite Hn. lia. }
  rewrite Ei in Bi |- *. apply Gibc. rewrite So. exact Bi.
Qed.

(** What a mean that returned tells about the index as given. *)
Lemma scatter_mean_index_range (src out : Tensor A) (index : Tensor Z) (dim : Z)
  (ds : option Z) (d : nat) (z : Z) (ib : Tensor Z) :
  tdim index <> 1 ->
  d < tdim index ->
  py_index (tdim src) dim = Ok d ->
  broadcast index src dim = Ok ib ->
  out_extent ib ds = Ok z ->
  scatter_mean dt src index dim None ds = Ok out ->
  forall p, in_bounds (size index) p = true -> (0 <= get index p < z)%Z.
Proof.
  intros Hk1 Hk Hd Hb He H. unfold scatter_mean in H.
  apply bind_ok in H as [out1 [H1 H]]. apply bind_ok in H as [dsz [Hsz H]].
  cbv zeta in H. apply bind_ok in H as [cnt [Hc _]].
  rewrite (index_dim_own src index dim d Hk Hd) in Hc.
  pose proof H1 as H1'.
  apply scatter_sum_returned in H1'
    as [ib' [d' [z' [Hb' [Hd' [He' [Hz' [_ [S1 _]]]]]]]]].
  rewrite Hb in Hb'. inversion Hb'; subst ib'. rewrite Hd in Hd'.
  inversion Hd'; subst d'. rewrite He in He'. inversion He'; subst z'.
  unfold size_at in Hsz. apply bind_ok in Hsz as [k' [Hk' Hsz]].
  assert (T1 : tdim out1 = tdim src).
  { unfold tdim. rewrite S1, set_nth_length. reflexivity. }
  rewrite T1, Hd in Hk'. inversion Hk'; subst k'. inversion Hsz; subst dsz.
  rewrite S1, nth_set_nth_eq in Hc by (apply (py_index_ok _ _ _ Hd)).
  rewrite Z2Nat.id in Hc by exact Hz'.
  apply scatter_sum_returned in Hc
    as [ibc [dc [zc [Hbc [_ [Hec [_ [Hrc _]]]]]]]].
  inversion Hec; subst zc.
  destruct (broadcast_identity index (ones dt (size index)) (Z.of_nat d))
    as [ibc' [Hbc' [_ Gibc]]]; [reflexivity|exact Hk1|].
  rewrite Hbc in Hbc'. inversion Hbc'; subst ibc'.
  intros p Hp. rewrite <- (Gibc p Hp). apply Hrc. exact Hp.
Qed.

End ScatterMeanAligned.

Section MeanClaim.

Context {A : Type} (dt : DType A).

Variable torch_scatter_mul :
  Tensor A -> Tensor Z -> Z -> option (Tensor A) -> option Z -> result (Tensor A).
Variable torch_scatter_min :
  Tensor A -> Tensor Z -> Z -> option (Tensor A) -> option Z ->
  result (Tensor A * Tensor Z).
Variable torch_scatter_max :
  Tensor A -> Tensor Z -> Z -> option (Tensor A) -> option Z ->
  result (Tensor A * Tensor Z).

Local Abbreviation scatter' :=
  (scatter dt torch_scatter_mul torch_scatter_min torch_scatter_max).

(** The two ways an index has the extent of the value buffer along [dim]. *)
Lemma mean_index_cases (src : Tensor A) (index : Tensor Z) (d n : nat) :
  size index = [n] \/ (d < tdim index /\ nth d (size index) 0 = n) ->
  size index = [n] \/
  (tdim index <> 1 /\ d < tdim index /\ nth d (size index) 0 = n).
Proof.
  intros [H|[Hk Hn]]; [left; exact H|].
  destruct (Nat.eq_dec (tdim index) 1) as [T|T]; [left|right; auto].
  unfold tdim in T, Hk.
  destruct (size index) as [|m [|? ?]] eqn:S; try discriminate.
  assert (d = 0) by (simpl in Hk; lia). subst d. simpl in Hn. subst m.
  reflexivity.
Qed.

Lemma in_bounds_1d (n : nat) (p : list nat) :
  in_bounds [n] p = true -> exists i, p = [i] /\ i < n.
Proof.
  destruct p as [|i [|? ?]]; simpl; try discriminate.
  - rewrite andb_true_r. intro H. apply Nat.ltb_lt in H. eauto.
  - rewrite andb_false_r. discriminate.
Qed.

(** C3 (as amended).  Mean correctness, for a value buffer and an index
    buffer whose extent along [dim] is that of the value buffer: a 1-D
    index with one entry per row of the value buffer along [dim], or an
    index that has the axis [dim] with the extent of the value buffer
    there, as an index of the shape of the value buffer has.  Whenever the
    mean reduction returns, at every slot [q] its element is the sum of the
    rows that contribute to the slot, those whose group id as broadcast is
    the group of the slot, divided by their count, the count being replaced
    by one when it is below one; the division is the true division for a
    floating-point dtype and the floor division otherwise.  So the element
    is sum / count when the count is at least one, and it is zero when no
    row belongs to the group, since then zero is divided by one.  The
    reduction does return when every group id of the index lies within the
    extent of the output.  For a 1-D index with one entry per row the
    contributing rows are those whose entry is the group; for an index of
    the shape of the value buffer, those whose entry in the line of the slot
    is the group. *)
Theorem scatter_mean_correct (src : Tensor A) (index : Tensor Z) (dim : Z)
  (dim_size : option Z) (d n : nat) :
  py_index (tdim src) dim = Ok d ->
  nth d (size src) 0 = n ->
  size index = [n] \/ (d < tdim index /\ nth d (size index) 0 = n) ->
  (forall out, scatter' src index dim None dim_size "mean" = Ok out ->
   exists ib,
     broadcast index src dim = Ok ib /\
     forall q, in_bounds (size out) q = true ->
       let rows := group_rows ib d n q in
       let total := sum_list dt (map (fun i => get src (set_nth q d i)) rows) in
       let count := sum_list dt (map (fun _ => one dt) rows) in
       let divide :=
         if is_floating_point dt then true_divide dt else floor_divide dt in
       get out q = divide total (clamp_count dt count) /\
       (lt dt count (one dt) = false -> get out q = divide total count) /\
       (rows = [] ->
        lt dt (zero dt) (one dt) = true ->
        divide (zero dt) (one dt) = zero dt ->
        get out q = zero dt)) /\
  (forall ib z,
     broadcast index src dim = Ok ib ->
     out_extent ib dim_size = Ok z ->
     (0 <= z)%Z ->
     (forall p, in_bounds (size index) p = true -> (0 <= get index p < z)%Z) ->
     exists out,
       scatter' src index dim None dim_size "mean" = Ok out /\
       size out = set_nth (size src) d (Z.to_nat z)) /\
  (forall ib n' q,
     broadcast index src dim = Ok ib ->
     in_bounds (set_nth (size src) d n') q = true ->
     (size index = [n] ->
      group_rows ib d n q = rows_of_group index n (nth d q 0)) /\
     (size index = size src ->
      group_rows ib d n q = group_rows index d n q)).
Proof.
  intros Hd Hn Hshape.
  pose proof (py_index_ok _ _ _ Hd) as Hlt.
  pose proof (mean_index_cases src index d n Hshape) as Hcase.
  assert (Formula : forall ib z,
    broadcast index src dim = Ok ib ->
    out_extent ib dim_size = Ok z -> (0 <= z)%Z ->
    (forall p, in_bounds (size index) p = true -> (0 <= get index p < z)%Z) ->
    exists out',
      scatter_mean dt src index dim None dim_size = Ok out' /\
      size out' = set_nth (size src) d (Z.to_nat z) /\
      forall q, in_bounds (size out') q = true ->
        get out' q =
        (if is_floating_point dt then true_divide dt else floor_divide dt)
          (sum_list dt (map (fun i => get src (set_nth q d i))
                            (group_rows ib d n q)))
          (clamp_count dt
             (sum_list dt (map (fun _ => one dt) (group_rows ib d n q))))).
  { intros ib z Hb He Hz Hr. destruct Hcase as [Hi|[Hk1 [Hk Hni]]].
    - destruct (scatter_mean_spec dt src index ib dim dim_size d n z
                  Hi Hd Hn Hb He Hz) as [out' [E [S G]]].
      { intros i Hlti. apply Hr. rewrite Hi. simpl. rewrite andb_true_r.
        apply Nat.ltb_lt. exact Hlti. }
      exists out'. split; [exact E|]. split; [exact S|]. intros q Hq.
      destruct (broadcast_1d index src dim d n Hi Hd Hn) as [ib' [Hb' [_ Gib]]].
      rewrite Hb in Hb'. inversion Hb'; subst ib'; clear Hb'.
      rewrite (G q Hq). rewrite S in Hq.
      pose proof (group_rows_1d src index ib d (Z.to_nat z) q Hlt Gib Hq) as R.
      rewrite Hn in R. rewrite R. reflexivity.
    - assert (Hn' : nth d (size index) 0 = nth d (size src) 0)
        by (rewrite Hni, Hn; reflexivity).
      destruct (scatter_mean_aligned_spec dt src index ib dim dim_size d z
                  Hk1 Hk Hn' Hd Hb He Hz Hr) as [out' [E [S G]]].
      exists out'. split; [exact E|]. split; [exact S|]. intros q Hq.
      rewrite (G q Hq), Hn. reflexivity. }
  split; [|split].
  - intros out H.
    change (scatter_mean dt src index dim None dim_size = Ok out) in H.
    destruct (scatter_mean_inv dt src out index dim dim_size H)
      as [ib [d' [z [Hb [Hd' [He [Hz _]]]]]]].
    rewrite Hd in Hd'. inversion Hd'; subst d'; clear Hd'.
    destruct (Formula ib z Hb He Hz) as [out' [E [_ G]]].
    { destruct Hcase as [Hi|[Hk1 [Hk _]]].
      - destruct (scatter_mean_returned dt src out index dim dim_size d n
                    Hi Hd Hn H) as [ib' [z' [Hb' [He' [_ Hr']]]]].
        rewrite Hb in Hb'. inversion Hb'; subst ib'. rewrite He in He'.
        inversion He'; subst z'. intros p Hp. rewrite Hi in Hp.
        apply in_bounds_1d in Hp as [i [-> Hlti]]. apply Hr'. exact Hlti.
      - exact (scatter_mean_index_range dt src out index dim dim_size d z ib
                 Hk1 Hk Hd Hb He H). }
    rewrite H in E. inversion E; subst out'; clear E.
    exists ib. split; [exact Hb|].
    intros q Hq rows total count divide.
    pose proof (G q Hq) as Gq. fold rows in Gq. fold total count divide in Gq.
    split; [exact Gq|]. split.
    + intro Hc. rewrite Gq. unfold clamp_count. rewrite Hc. reflexivity.
    + intros Hrows H01 Hdiv. rewrite Gq. subst total count.
      rewrite Hrows. cbn [map]. unfold sum_list. cbn [fold_left].
      unfold clamp_count. rewrite H01. exact Hdiv.
  - intros ib z Hb He Hz Hr.
    destruct (Formula ib z Hb He Hz Hr) as [out [E [S _]]].
    exists out. split; [exact E|exact S].
  - intros ib n' q Hb Hq. split.
    + intro Hi.
      destruct (broadcast_1d index src dim d n Hi Hd Hn) as [ib' [Hb' [_ Gib]]].
      rewrite Hb in Hb'. inversion Hb'; subst ib'; clear Hb'.
      rewrite <- Hn. apply (group_rows_1d src index ib d n' q Hlt Gib Hq).
    + intro Hs. rewrite <- Hn.
      apply (group_rows_ext (size src) ib index d n' q Hlt); [|exact Hq].
      intros p Hp. destruct Hcase as [Hi|[Hk1 _]].
      * destruct (broadcast_1d index src dim d n Hi Hd Hn) as [ib' [Hb' [_ Gib]]].
        rewrite Hb in Hb'. inversion Hb'; subst ib'; clear Hb'.
        rewrite (Gib p Hp). rewrite <- Hs, Hi in Hp.
        apply in_bounds_1d in Hp as [i [-> _]].
        assert (d = 0).
        { unfold tdim in Hlt. rewrite <- Hs, Hi in Hlt. simpl in Hlt. lia. }
        subst d. reflexivity.
      * assert (Hrank : tdim src <> 1)
          by (unfold tdim in *; rewrite <- Hs; exact Hk1).
        destruct (broadcast_identity index src dim Hs Hrank) as [ib' [Hb' [_ Gib]]].
        rewrite Hb in Hb'. inversion Hb'; subst ib'; clear Hb'.
        apply Gib. exact Hp.
Qed.

End MeanClaim.

Lemma scatter_mean_correct_witness :
  (forall out, scatter64 src32 idx010 0 None None "mean" = Ok out ->
   exists ib,
     broadcast idx010 src32 0 = Ok ib /\
     forall q, in_bounds (size out) q = true ->
       let rows := group_rows ib 0 3 q in
       let total := sum_list int64 (map (fun i => get src32 (set_nth q 0 i)) rows) in
       let count := sum_list int64 (map (fun _ => 1%Z) rows) in
       get out q = wrap64 (total / clamp_count int64 count) /\
       ((count <? 1)%Z = false -> get out q = wrap64 (total / count)) /\
       (rows = [] -> (0 <? 1)%Z = true -> wrap64 (0 / 1) = 0%Z -> get out q = 0%Z)) /\
  exists out,
    scatter64 src32 idx010 0 None None "mean" = Ok out /\ size out = [2; 2].
Proof.
  destruct (scatter_mean_correct int64 no_kernel no_kernel no_kernel
              src32 idx010 0 None 0 3 eq_refl eq_refl (or_introl eq_refl))
    as [H1 [H2 _]].
  split; [exact H1|].
  apply (H2 (returned idx010 (broadcast idx010 src32 0)) 2%Z).
  - reflexivity.
  - reflexivity.
  - lia.
  - intros p Hp. destruct p as [|[|[|[|i]]] [|? ?]]; simpl in Hp;
      try discriminate; cbn; lia.
Defined.

(** The claim C3 as worded fails for an index that is broadcast along [dim]
    itself.  An index of the single entry 0 is broadcast over the three rows
    of the value buffer, so the three rows contribute to the slots of group
    0, with the sums 9 and 12; the count is taken over the entries of the
    index, which is one, and the mean returns 9 and 12, not 9 / 3 and
    12 / 3. *)
Lemma scatter_mean_counterexample :
  exists ib out,
    broadcast (vec 0%Z [0]%Z) src32 0 = Ok ib /\
    scatter64 src32 (vec 0%Z [0]%Z) 0 None None "mean" = Ok out /\
    size out = [1; 2] /\
    group_rows ib 0 3 [0; 0] = [0; 1; 2] /\
    sum_list int64 (map (fun i => get src32 [i; 0]) [0; 1; 2]) = 9%Z /\
    sum_list int64 (map (fun _ => one int64) [0; 1; 2]) = 3%Z /\
    get out [0; 0] = 9%Z /\
    floor_divide int64 9%Z 3%Z = 3%Z.
Proof. do 2 eexists. repeat split; vm_compute; reflexivity. Qed.

(** An index of the shape of the value buffer: every column has its own
    groups. *)
Example scatter_mean_same_shape :
  observe (scatter64 src32 (mat 0%Z 2 [[0; 1]; [0; 1]; [1; 1]]%Z) 0 None None "mean")
  = Ok ([2; 2], [2; 0; 5; 4]%Z).
Proof. reflexivity. Qed.

(** An index of one column beside two columns of values: the groups of a
    row are those of its entry. *)
Example scatter_mean_column :
  observe (scatter64 src32 (mat 0%Z 1 [[0]; [1]; [0]]%Z) 0 None None "mean")
  = Ok ([2; 2], [3; 4; 3; 4]%Z).
Proof. reflexivity. Qed.

Example scatter_mean_rows :
  observe (scatter64 src32 idx010 0 None (Some 3%Z) "mean")
  = Ok ([3; 2], [3; 4; 3; 4; 0; 0]%Z).
Proof. reflexivity. Qed.

(** ** The reduce kind *)

Section ReduceKind.

Context {A : Type} (dt : DType A).

Variable torch_scatter_mul :
  Tensor A -> Tensor Z -> Z -> option (Tensor A) -> option Z -> result (Tensor A).
Variable torch_scatter_min :
  Tensor A -> Tensor Z -> Z -> option (Tensor A) -> option Z ->
  result (Tensor A * Tensor Z).
Variable torch_scatter_max :
  Tensor A -> Tensor Z -> Z -> option (Tensor A) -> option Z ->
  result (Tensor A * Tensor Z).
Variable MessagePassing_init : string -> result unit.
Variable init_param : list nat -> A.

Local Abbreviation scatter' :=
  (scatter dt torch_scatter_mul torch_scatter_min torch_scatter_max).
Local Abbreviation aggregate' :=
  (aggregate dt torch_scatter_mul torch_scatter_min torch_scatter_max).
Local Abbreviation Layer_init' := (MPNNLayer_init MessagePassing_init init_param).
Local Abbreviation Model_init' := (MPNNModel_init MessagePassing_init init_param).
Local Abbreviation Layer_forward' :=
  (MPNNLayer_forward dt torch_scatter_mul torch_scatter_min torch_scatter_max).

Lemma scatter_unrecognized (src : Tensor A) (index : Tensor Z) (dim : Z)
  (out : option (Tensor A)) (dim_size : option Z) (k : string) :
  recognized k = false ->
  scatter' src index dim out dim_size k = Err ValueError.
Proof.
  unfold recognized, scatter. intro H.
  repeat (apply orb_false_iff in H; destruct H as [H ?]).
  repeat match goal with E : (_ =? _)%string = false |- _ => rewrite E; clear E end.
  reflexivity.
Qed.

Lemma make_convs_add (n emb ed : nat) (cs : list (MPNNLayer (A := A))) :
  make_convs MessagePassing_init init_param n emb ed = Ok cs ->
  length cs = n /\ Forall (fun l => aggr l = "add"%string) cs.
Proof.
  revert cs; induction n as [|n IH]; intros cs H; simpl in H.
  - inversion H. split; [reflexivity|constructor].
  - apply bind_ok in H as [c [Hc H]]. apply bind_ok in H as [rest [Hr H]].
    inversion H; subst; clear H. destruct (IH rest Hr) as [L F].
    unfold MPNNLayer_init in Hc. apply bind_ok in Hc as [u [_ Hc]].
    inversion Hc; subst; clear Hc.
    split; [simpl; f_equal; exact L|]. constructor; [reflexivity|exact F].
Qed.

(** C5 (as amended).  An unrecognized reduce kind is rejected by [scatter]
    with a ValueError when the reduction is called, hence in the aggregate
    step of a forward pass, whatever the buffers; a layer holding such a
    kind never completes a forward pass.  The constructor of [MPNNLayer] has
    no check of its own: it fails exactly when the constructor of the base
    class does, and otherwise stores the kind as given.  [MPNNModel] builds
    every layer with the kind "add", which [scatter] recognizes. *)
Theorem reduce_kind_rejected_at_call (k : string) :
  recognized k = false ->
  (forall src index dim out dim_size,
     scatter' src index dim out dim_size k = Err ValueError) /\
  (forall l inputs index, aggr l = k -> aggregate' l inputs index = Err ValueError) /\
  (forall l h ei ea y, aggr l = k -> Layer_forward' l h ei ea <> Ok y) /\
  (forall emb ed,
     (forall e, MessagePassing_init k = Err e -> Layer_init' emb ed k = Err e) /\
     (forall u, MessagePassing_init k = Ok u ->
        exists l, Layer_init' emb ed k = Ok l /\ aggr l = k)) /\
  (forall ei ea in_dim n emb out_dim m,
     Model_init' ei ea in_dim n emb out_dim = Ok m ->
     Forall (fun l => aggr l = "add"%string /\ recognized (aggr l) = true) (convs m)).
Proof.
  intro H. split; [|split; [|split; [|split]]].
  - intros. apply scatter_unrecognized, H.
  - intros l inputs index <-. unfold aggregate. apply scatter_unrecognized, H.
  - intros l h ei ea y <- Hf. unfold MPNNLayer_forward, propagate in Hf.
    do 6 (apply bind_ok in Hf; destruct Hf as [? [_ Hf]]).
    apply bind_ok in Hf as [aggr_out [Ha _]].
    unfold aggregate in Ha. rewrite scatter_unrecognized in Ha by exact H.
    discriminate.
  - intros emb ed. split.
    + intros e He. unfold MPNNLayer_init. rewrite He. reflexivity.
    + intros u Hu. unfold MPNNLayer_init. rewrite Hu. cbn [bind]. eauto.
  - intros ei ea in_dim n emb out_dim m Hm. unfold MPNNModel_init in Hm.
    apply bind_ok in Hm as [k0 [_ Hm]]. apply bind_ok in Hm as [cs [Hcs Hm]].
    inversion Hm; subst; clear Hm. cbn [convs].
    apply make_convs_add in Hcs as [_ F].
    eapply Forall_impl; [|exact F]. cbn beta. intros l Hl. rewrite Hl. auto.
Qed.

End ReduceKind.

Lemma reduce_kind_rejected_at_call_witness :
  recognized "median" = false /\
  scatter64 src32 idx010 0 None None "median" = Err ValueError.
Proof.
  split; [reflexivity|].
  apply (proj1 (reduce_kind_rejected_at_call int64 no_kernel no_kernel no_kernel
                  accept_all unit_param "median" eq_refl)).
Defined.

(** The claim C5 as worded fails.  [MPNNLayer.__init__] hands the kind to
    the constructor of the base class and checks nothing itself; with a
    base class that accepts the name "median" the layer is constructed, and
    the ValueError is raised in its forward pass, when [aggregate] calls
    [scatter].  A direct call of [scatter] raises it as well. *)
Lemma reduce_kind_counterexample :
  (exists l,
     MPNNLayer_init accept_all unit_param 1 2 "median" = Ok l /\
     MPNNLayer_forward int64 no_kernel no_kernel no_kernel
       l two_nodes graph_edges graph_attr = Err ValueError) /\
  scatter64 src32 idx010 0 None None "median" = Err ValueError.
Proof.
  split; [|reflexivity].
  eexists. split; [reflexivity|]. vm_compute. reflexivity.
Qed.

(** ** The minimum and the maximum *)

Section ExtremumFold.

Context {A : Type} (dt : DType A).

Variable better : A -> A -> bool.
Hypothesis better_irrefl : forall x, better x x = false.
Hypothesis better_trans :
  forall x y z, better x y = true -> better y z = true -> better x z = true.

Variable d : nat.
Variable ib : Tensor Z.
Variable src : Tensor A.

(** The elements of [L] that are combined into the slot [q]. *)
Local Abbreviation into q L :=
  (filter (fun p => idx_eqb q (set_nth p d (Z.to_nat (get ib p)))) L).

Local Abbreviation extremum_inv' := (extremum_inv better d ib src).

Lemma extremum_fold_err (L : list (list nat)) (e : Exc) :
  fold_left (extremum_step better d ib src) L (Err e) = Err e.
Proof. induction L as [|p L IH]; [reflexivity|exact IH]. Qed.

Lemma into_snoc (q p : list nat) (done : list (list nat)) :
  into q (done ++ [p]) =
  into q done ++
  (if idx_eqb q (set_nth p d (Z.to_nat (get ib p))) then [p] else []).
Proof. rewrite filter_app. reflexivity. Qed.

Lemma extremum_step_inv (done : list (list nat)) (p : list nat)
  (o : Tensor A) (arg : Tensor Z) (seen : Tensor bool) :
  extremum_inv' done (o, arg, seen) ->
  (0 <= get ib p < Z.of_nat (nth d (size o) 0%nat))%Z ->
  exists o' arg' seen',
    extremum_step better d ib src (Ok (o, arg, seen)) p = Ok (o', arg', seen') /\
    size o' = size o /\ size arg' = size arg /\
    extremum_inv' (done ++ [p]) (o', arg', seen').
Proof.
  intros Inv Hr. unfold extremum_step. cbn [bind].
  assert (R : ((0 <=? get ib p) &&
               (get ib p <? Z.of_nat (nth d (size o) 0%nat)))%Z = true).
  { apply andb_true_iff. split; [apply Z.leb_le|apply Z.ltb_lt]; lia. }
  rewrite R. set (qp := set_nth p d (Z.to_nat (get ib p))).
  destruct (negb (get seen qp) || better (get src p) (get o qp)) eqn:U.
  - do 3 eexists. split; [reflexivity|]. split; [reflexivity|].
    split; [reflexivity|].
    intro q. rewrite into_snoc. fold qp. cbn [fst snd set_at get].
    destruct (Inv q) as [I1 I2]. cbn [fst snd] in I1, I2.
    destruct (idx_eqb q qp) eqn:Q.
    + apply idx_eqb_eq in Q. subst q. split.
      * split; [intros _|reflexivity]. intro H.
        apply app_eq_nil in H as [_ H]. discriminate.
      * intros _. exists p. split; [apply in_or_app; right; left; reflexivity|].
        split; [reflexivity|]. split; [reflexivity|].
        intros p' Hp'. apply in_app_or in Hp' as [Hp'|[<-|[]]];
          [|apply better_irrefl].
        assert (Hne : into qp done <> []) by (intro E; rewrite E in Hp'; exact Hp').
        destruct (I2 Hne) as [p0 [_ [_ [_ Hb]]]].
        apply I1 in Hne. rewrite Hne in U. cbn [negb orb] in U.
        destruct (better (get src p') (get src p)) eqn:B; [|reflexivity].
        specialize (Hb p' Hp'). rewrite (better_trans _ _ _ B U) in Hb.
        discriminate.
    + rewrite app_nil_r. split; [exact I1|exact I2].
  - apply orb_false_iff in U as [U1 U2]. apply negb_false_iff in U1.
    do 3 eexists. split; [reflexivity|]. split; [reflexivity|].
    split; [reflexivity|].
    intro q. rewrite into_snoc. fold qp. cbn [fst snd].
    destruct (Inv q) as [I1 I2]. cbn [fst snd] in I1, I2.
    destruct (idx_eqb q qp) eqn:Q.
    + apply idx_eqb_eq in Q. subst q. apply I1 in U1.
      destruct (I2 U1) as [p0 [Hp0 [Ho [Ha Hb]]]]. split.
      * split; [intros _|intros _; apply I1; exact U1]. intro H.
        apply app_eq_nil in H as [_ H]. discriminate.
      * intros _. exists p0. split; [apply in_or_app; left; exact Hp0|].
        split; [exact Ho|]. split; [exact Ha|].
        intros p' Hp'. apply in_app_or in Hp' as [Hp'|[<-|[]]];
          [apply Hb; exact Hp'|exact U2].
    + rewrite app_nil_r. split; [exact I1|exact I2].
Qed.

Lemma extremum_fold (L done : list (list nat))
  (o : Tensor A) (arg : Tensor Z) (seen : Tensor bool) :
  extremum_inv' done (o, arg, seen) ->
  match fold_left (extremum_step better d ib src) L (Ok (o, arg, seen)) with
  | Ok st =>
      extremum_inv' (done ++ L) st /\
      size (fst (fst st)) = size o /\ size (snd (fst st)) = size arg /\
      forall p, In p L ->
        (0 <= get ib p < Z.of_nat (nth d (size o) 0%nat))%Z
  | Err e =>
      e = IndexOutOfBounds /\
      exists p, In p L /\
        ~ (0 <= get ib p < Z.of_nat (nth d (size o) 0%nat))%Z
  end.
Proof.
  revert done o arg seen. induction L as [|p L IH]; intros done o arg seen Inv.
  - cbn [fold_left]. rewrite app_nil_r. cbn [fst snd].
    split; [exact Inv|]. split; [reflexivity|]. split; [reflexivity|].
    intros q [].
  - cbn [fold_left].
    destruct (Z_le_dec 0 (get ib p)) as [H0|H0];
      [destruct (Z_lt_dec (get ib p) (Z.of_nat (nth d (size o) 0%nat))) as [H1|H1]|].
    + destruct (extremum_step_inv done p o arg seen Inv (conj H0 H1))
        as [o' [arg' [seen' [E [So [Sa Inv']]]]]].
      rewrite E. specialize (IH (done ++ [p]) o' arg' seen' Inv').
      rewrite <- app_assoc in IH. cbn [app] in IH.
      destruct (fold_left _ L _) as [st|e].
      * destruct IH as [I [S1 [S2 R]]]. rewrite So in S1, R. rewrite Sa in S2.
        split; [exact I|]. split; [exact S1|]. split; [exact S2|].
        intros q [<-|Hq]; [lia|]. apply R. exact Hq.
      * destruct IH as [-> [q [Hq Hn]]]. rewrite So in Hn.
        split; [reflexivity|]. exists q. split; [right; exact Hq|exact Hn].
    + assert (E : extremum_step better d ib src (Ok (o, arg, seen)) p
                  = Err IndexOutOfBounds).
      { unfold extremum_step. cbn [bind].
        destruct (Z.ltb_spec (get ib p) (Z.of_nat (nth d (size o) 0%nat)));
          [lia|]. rewrite andb_false_r. reflexivity. }
      rewrite E, extremum_fold_err. split; [reflexivity|].
      exists p. split; [left; reflexivity|lia].
    + assert (E : extremum_step better d ib src (Ok (o, arg, seen)) p
                  = Err IndexOutOfBounds).
      { unfold extremum_step. cbn [bind].
        destruct (Z.leb_spec 0 (get ib p)); [lia|]. reflexivity. }
      rewrite E, extremum_fold_err. split; [reflexivity|].
      exists p. split; [left; reflexivity|lia].
Qed.

End ExtremumFold.

Section ExtremumKernel.

Context {A : Type} (dt : DType A).

Variable better : A -> A -> bool.
Hypothesis better_irrefl : forall x, better x x = false.
Hypothesis better_trans :
  forall x y z, better x y = true -> better y z = true -> better x z = true.

Variable identity : A.

(** What the operator returns when [out] is omitted: in every slot that a
    row contributes to, the value of a contributing row that no contributing
    row betters, and in the companion the number of that row. *)
Lemma extremum_returned (src v : Tensor A) (index arg : Tensor Z) (dim : Z)
  (ds : option Z) :
  torch_scatter_extremum better identity src index dim None ds = Ok (v, arg) ->
  exists ib d z,
    broadcast index src dim = Ok ib /\
    py_index (tdim src) dim = Ok d /\
    out_extent index ds = Ok z /\
    (0 <= z)%Z /\
    size v = set_nth (size src) d (Z.to_nat z) /\
    size arg = size v /\
    (forall p, in_bounds (size src) p = true -> (0 <= get ib p < z)%Z) /\
    forall q, in_bounds (size v) q = true ->
      let rows := group_rows ib d (nth d (size src) 0) q in
      rows <> [] ->
      (exists r, In r rows /\ get arg q = Z.of_nat r /\
                 get v q = get src (set_nth q d r)) /\
      (forall i, In i rows -> better (get src (set_nth q d i)) (get v q) = false).
Proof.
  unfold torch_scatter_extremum. intro H.
  apply bind_ok in H as [ib [Hb H]]. apply bind_ok in H as [d [Hd H]].
  apply bind_ok in H as [st0 [H0 H]]. apply bind_ok in H as [st [Hf H]].
  apply bind_ok in H0 as [z [Hz H0]].
  destruct (Z.ltb_spec z 0) as [|Hpos]; [discriminate|].
  injection H0 as <-. injection H as <- <-.
  pose proof (py_index_ok _ _ _ Hd) as Hlt. unfold tdim in Hlt.
  set (sz := set_nth (size src) d (Z.to_nat z)) in *.
  assert (Nz : nth d sz 0 = Z.to_nat z) by (apply nth_set_nth_eq; exact Hlt).
  pose proof (extremum_fold better better_irrefl better_trans d ib src
                (indices (size src)) []
                (full sz identity)
                (full sz (Z.of_nat (nth d (size src) 0)))
                (full sz false)) as F.
  rewrite Hf in F. cbn [app size full] in F. rewrite Nz, Z2Nat.id in F by exact Hpos.
  destruct F as [Inv [Sv [Sa R]]].
  { intro q. cbn. split; [split; [discriminate|intro E; contradiction]|].
    intro E. contradiction. }
  exists ib, d, z. repeat split; try assumption.
  - rewrite Sa, Sv. reflexivity.
  - apply R, in_indices, H.
  - apply R, in_indices, H.
  - rewrite Sv in H.
    pose proof (scatter_targets src ib d (Z.to_nat z) q Hlt
                  (fun p Hp => proj1 (R p (proj2 (in_indices _ _) Hp))) H) as T.
    destruct (Inv q) as [_ I2]. rewrite T in I2.
    destruct I2 as [p [Hp [Ho [Ha _]]]].
    { intro E. apply map_eq_nil in E. contradiction. }
    apply in_map_iff in Hp as [r [<- Hr]]. exists r.
    split; [exact Hr|]. split; [|exact Ho].
    rewrite Ha, nth_set_nth_eq; [reflexivity|].
    apply in_bounds_length in H. unfold sz in H. rewrite set_nth_length in H. lia.
  - intros i Hi. rewrite Sv in H.
    pose proof (scatter_targets src ib d (Z.to_nat z) q Hlt
                  (fun p Hp => proj1 (R p (proj2 (in_indices _ _) Hp))) H) as T.
    destruct (Inv q) as [_ I2]. rewrite T in I2.
    destruct I2 as [p [_ [_ [_ Hb']]]].
    { intro E. apply map_eq_nil in E. contradiction. }
    apply Hb'. apply in_map. exact Hi.
Qed.

(** It returns when the index broadcasts, [dim] is an axis and every group
    id lies within the extent. *)
Lemma extremum_returns (src : Tensor A) (index ib : Tensor Z) (dim : Z)
  (ds : option Z) (d : nat) (z : Z) :
  broadcast index src dim = Ok ib ->
  py_index (tdim src) dim = Ok d ->
  out_extent index ds = Ok z ->
  (0 <= z)%Z ->
  (forall p, in_bounds (size src) p = true -> (0 <= get ib p < z)%Z) ->
  exists v arg,
    torch_scatter_extremum better identity src index dim None ds = Ok (v, arg) /\
    size v = set_nth (size src) d (Z.to_nat z).
Proof.
  intros Hb Hd Hz Hpos Hr. unfold torch_scatter_extremum.
  rewrite Hb, Hd, Hz. cbn [bind].
  destruct (Z.ltb_spec z 0) as [|_]; [lia|]. cbn [bind].
  pose proof (py_index_ok _ _ _ Hd) as Hlt. unfold tdim in Hlt.
  set (sz := set_nth (size src) d (Z.to_nat z)).
  assert (Nz : nth d sz 0 = Z.to_nat z) by (apply nth_set_nth_eq; exact Hlt).
  pose proof (extremum_fold better better_irrefl better_trans d ib src
                (indices (size src)) []
                (full sz identity)
                (full sz (Z.of_nat (nth d (size src) 0)))
                (full sz false)) as F.
  cbn [app size full] in F. rewrite Nz, Z2Nat.id in F by exact Hpos.
  destruct (fold_left _ _ _) as [st|e].
  - destruct F as [_ [Sv _]].
    { intro q. cbn. split; [split; [discriminate|intro E; contradiction]|].
      intro E. contradiction. }
    cbn [bind]. do 2 eexists. split; [reflexivity|exact Sv].
  - destruct F as [_ [p [Hp Hn]]].
    { intro q. cbn. split; [split; [discriminate|intro E; contradiction]|].
      intro E. contradiction. }
    exfalso. apply Hn, Hr, in_indices, Hp.
Qed.

End ExtremumKernel.

Section MinMaxClaim.

Context {A : Type} (dt : DType A).

Variable torch_scatter_mul :
  Tensor A -> Tensor Z -> Z -> option (Tensor A) -> option Z -> result (Tensor A).

(** The identities of the two kinds, and the order of the dtype. *)
Variable inf ninf : A.
Hypothesis lt_irrefl : forall x, lt dt x x = false.
Hypothesis lt_trans :
  forall x y z, lt dt x y = true -> lt dt y z = true -> lt dt x z = true.

Local Abbreviation op_min := (torch_scatter_min_op dt inf).
Local Abbreviation op_max := (torch_scatter_max_op dt ninf).
Local Abbreviation scatter' := (scatter dt torch_scatter_mul op_min op_max).

(** C6 (as amended).  With the operators of the extension as the
    specification describes them and a dtype whose order is irreflexive and
    transitive: whenever [scatter_min] returns, it returns a value buffer
    and a companion integer buffer of the same shape, and in every slot
    that a row contributes to, the value is the value of a contributing row
    that no contributing row is below, the true minimum, and the companion
    holds the number of a contributing row with that value; likewise for
    [scatter_max] with the maximum.  Both return when the index broadcasts,
    [dim] is an axis and every group id lies within the extent.  The
    reduction [scatter] with the kind "min" or "max" returns the value
    buffer alone, component 0 of the pair, and fails as the pair fails. *)
Theorem scatter_min_max_correct (src : Tensor A) (index : Tensor Z) (dim : Z)
  (dim_size : option Z) :
  (forall v arg,
     scatter_min op_min src index dim None dim_size = Ok (v, arg) ->
     size arg = size v /\
     exists ib d,
       broadcast index src dim = Ok ib /\
       py_index (tdim src) dim = Ok d /\
       forall q, in_bounds (size v) q = true ->
         let rows := group_rows ib d (nth d (size src) 0) q in
         rows <> [] ->
         (exists r, In r rows /\ get arg q = Z.of_nat r /\
                    get v q = get src (set_nth q d r)) /\
         (forall i, In i rows ->
            lt dt (get src (set_nth q d i)) (get v q) = false)) /\
  (forall v arg,
     scatter_max op_max src index dim None dim_size = Ok (v, arg) ->
     size arg = size v /\
     exists ib d,
       broadcast index src dim = Ok ib /\
       py_index (tdim src) dim = Ok d /\
       forall q, in_bounds (size v) q = true ->
         let rows := group_rows ib d (nth d (size src) 0) q in
         rows <> [] ->
         (exists r, In r rows /\ get arg q = Z.of_nat r /\
                    get v q = get src (set_nth q d r)) /\
         (forall i, In i rows ->
            lt dt (get v q) (get src (set_nth q d i)) = false)) /\
  (forall ib d z,
     broadcast index src dim = Ok ib ->
     py_index (tdim src) dim = Ok d ->
     out_extent index dim_size = Ok z ->
     (0 <= z)%Z ->
     (forall p, in_bounds (size src) p = true -> (0 <= get ib p < z)%Z) ->
     (exists v arg,
        scatter_min op_min src index dim None dim_size = Ok (v, arg) /\
        size v = set_nth (size src) d (Z.to_nat z)) /\
     (exists v arg,
        scatter_max op_max src index dim None dim_size = Ok (v, arg) /\
        size v = set_nth (size src) d (Z.to_nat z))) /\
  (forall out,
     scatter' src index dim out dim_size "min" =
     fmap fst (scatter_min op_min src index dim out dim_size) /\
     scatter' src index dim out dim_size "max" =
     fmap fst (scatter_max op_max src index dim out dim_size)).
Proof.
  assert (gt_trans : forall x y z : A,
            lt dt y x = true -> lt dt z y = true -> lt dt z x = true)
    by (intros x y z H1 H2; exact (lt_trans z y x H2 H1)).
  split; [|split; [|split]].
  - intros v arg H. unfold scatter_min, torch_scatter_min_op in H.
    destruct (extremum_returned (fun v w => lt dt v w) lt_irrefl lt_trans inf
                src v index arg dim dim_size H)
      as [ib [d [z [Hb [Hd [_ [_ [_ [Sa [_ Hq]]]]]]]]]].
    split; [exact Sa|]. exists ib, d. split; [exact Hb|]. split; [exact Hd|].
    exact Hq.
  - intros v arg H. unfold scatter_max, torch_scatter_max_op in H.
    destruct (extremum_returned (fun v w => lt dt w v) lt_irrefl gt_trans ninf
                src v index arg dim dim_size H)
      as [ib [d [z [Hb [Hd [_ [_ [_ [Sa [_ Hq]]]]]]]]]].
    split; [exact Sa|]. exists ib, d. split; [exact Hb|]. split; [exact Hd|].
    exact Hq.
  - intros ib d z Hb Hd Hz Hpos Hr. split.
    + exact (extremum_returns (fun v w => lt dt v w) lt_irrefl lt_trans inf
               src index ib dim dim_size d z Hb Hd Hz Hpos Hr).
    + exact (extremum_returns (fun v w => lt dt w v) lt_irrefl gt_trans ninf
               src index ib dim dim_size d z Hb Hd Hz Hpos Hr).
  - intro out. split; reflexivity.
Qed.

End MinMaxClaim.

Lemma scatter_min_max_correct_witness :
  (forall v arg,
     scatter_min (torch_scatter_min_op int64 int64_max) src32 idx010 0 None None
     = Ok (v, arg) ->
     size arg = size v /\
     exists ib d,
       broadcast idx010 src32 0 = Ok ib /\
       py_index (tdim src32) 0 = Ok d /\
       forall q, in_bounds (size v) q = true ->
         let rows := group_rows ib d (nth d (size src32) 0) q in
         rows <> [] ->
         (exists r, In r rows /\ get arg q = Z.of_nat r /\
                    get v q = get src32 (set_nth q d r)) /\
         (forall i, In i rows ->
            lt int64 (get src32 (set_nth q d i)) (get v q) = false)) /\
  (exists v arg,
     scatter_min (torch_scatter_min_op int64 int64_max) src32 idx010 0 None None
     = Ok (v, arg)).
Proof.
  pose proof (scatter_min_max_correct int64 no_kernel int64_max int64_min
                Z.ltb_irrefl
                (fun x y z H1 H2 =>
                   proj2 (Z.ltb_lt x z)
                     (Z.lt_trans x y z (proj1 (Z.ltb_lt x y) H1)
                        (proj1 (Z.ltb_lt y z) H2)))
                src32 idx010 0 None) as [Hmin [_ _]].
  split; [exact Hmin|]. do 2 eexists. vm_compute. reflexivity.
Defined.

(** The claim C6 as worded fails for the reduction: [scatter] returns one
    buffer.  For the values [5; 1] and for the values [1; 5] in one group
    the operator returns the minimum 1 with the companions [1] and [0];
    [scatter] with the kind "min" returns the value buffer [1] for both, so
    what it returns does not tell the row.  The same holds for the
    maximum.  And where the operator is not available, the reduction
    returns nothing: it fails as the operator fails. *)
Lemma scatter_min_max_counterexample :
  fmap (fun r => (elements (fst r), elements (snd r)))
    (scatter_min (torch_scatter_min_op int64 int64_max)
       (vec 0%Z [5; 1]%Z) (vec 0%Z [0; 0]%Z) 0 None None)
  = Ok ([1], [1])%Z /\
  fmap (fun r => (elements (fst r), elements (snd r)))
    (scatter_min (torch_scatter_min_op int64 int64_max)
       (vec 0%Z [1; 5]%Z) (vec 0%Z [0; 0]%Z) 0 None None)
  = Ok ([1], [0])%Z /\
  observe (scatter int64 no_kernel (torch_scatter_min_op int64 int64_max)
             (torch_scatter_max_op int64 int64_min)
             (vec 0%Z [5; 1]%Z) (vec 0%Z [0; 0]%Z) 0 None None "min")
  = Ok ([1], [1]%Z) /\
  observe (scatter int64 no_kernel (torch_scatter_min_op int64 int64_max)
             (torch_scatter_max_op int64 int64_min)
             (vec 0%Z [1; 5]%Z) (vec 0%Z [0; 0]%Z) 0 None None "min")
  = Ok ([1], [1]%Z) /\
  fmap (fun r => (elements (fst r), elements (snd r)))
    (scatter_max (torch_scatter_max_op int64 int64_min)
       (vec 0%Z [5; 1]%Z) (vec 0%Z [0; 0]%Z) 0 None None)
  = Ok ([5], [0])%Z /\
  observe (scatter int64 no_kernel (torch_scatter_min_op int64 int64_max)
             (torch_scatter_max_op int64 int64_min)
             (vec 0%Z [5; 1]%Z) (vec 0%Z [0; 0]%Z) 0 None None "max")
  = Ok ([1], [5]%Z) /\
  scatter int64 no_kernel no_kernel no_kernel
    (vec 0%Z [5; 1]%Z) (vec 0%Z [0; 0]%Z) 0 None None "min" = Err KernelError.
Proof. repeat split; vm_compute; reflexivity. Qed.

Example scatter_min_rows :
  fmap (fun r => (observe (Ok (fst r)), observe (Ok (snd r))))
    (scatter_min (torch_scatter_min_op int64 int64_max) src32 idx010 0 None None)
  = Ok (Ok ([2; 2], [1; 2; 3; 4]%Z), Ok ([2; 2], [0; 0; 1; 1]%Z)).
Proof. vm_compute. reflexivity. Qed.

(** ** The forward pass *)

Section Forward.

Context {A : Type} (dt : DType A).

Variable torch_scatter_mul :
  Tensor A -> Tensor Z -> Z -> option (Tensor A) -> option Z -> result (Tensor A).
Variable torch_scatter_min :
  Tensor A -> Tensor Z -> Z -> option (Tensor A) -> option Z ->
  result (Tensor A * Tensor Z).
Variable torch_scatter_max :
  Tensor A -> Tensor Z -> Z -> option (Tensor A) -> option Z ->
  result (Tensor A * Tensor Z).

Local Abbreviation Layer_forward' :=
  (MPNNLayer_forward dt torch_scatter_mul torch_scatter_min torch_scatter_max).
Local Abbreviation run_convs' :=
  (run_convs dt torch_scatter_mul torch_scatter_min torch_scatter_max).
Local Abbreviation Model_forward' :=
  (MPNNModel_forward dt torch_scatter_mul torch_scatter_min torch_scatter_max).
Local Abbreviation predict_fn' :=
  (predict_fn dt torch_scatter_mul torch_scatter_min torch_scatter_max).

Lemma linear_size (l : Linear (A := A)) (x y : Tensor A) :
  linear dt l x = Ok y -> size y = removelast (size x) ++ [out_features l].
Proof.
  unfold linear. destruct (rev (size x)); [discriminate|].
  destruct (_ =? _); [|discriminate]. intro H. inversion H. reflexivity.
Qed.

Lemma mlp_size (m : MLP (A := A)) (x y : Tensor A) :
  mlp dt m x = Ok y -> removelast (size y) = removelast (size x).
Proof.
  unfold mlp. intro H. apply bind_ok in H as [h1 [H1 H]].
  apply bind_ok in H as [h2 [H2 H]]. inversion H; subst; clear H.
  apply linear_size in H1, H2. cbn [relu_ tmap size] in *.
  rewrite H2, removelast_last, H1, removelast_last. reflexivity.
Qed.

Lemma cat2_size (a b c : Tensor A) :
  cat2 a b = Ok c -> removelast (size c) = removelast (size a).
Proof.
  unfold cat2. destruct (rev (size a)); [discriminate|].
  destruct (rev (size b)); [discriminate|].
  destruct (idx_eqb _ _); [|discriminate].
  intro H. inversion H. cbn [size]. apply removelast_last.
Qed.

Lemma cat2_shape_left (a b c : Tensor A) :
  cat2 a b = Ok c -> exists k, size c = removelast (size a) ++ [k].
Proof.
  unfold cat2. destruct (rev (size a)); [discriminate|].
  destruct (rev (size b)); [discriminate|].
  destruct (idx_eqb _ _); [|discriminate].
  intro H. inversion H. cbn [size]. eauto.
Qed.

(** *** What [torch.cat] skips *)

Lemma skipped_rank (t : Tensor A) : 2 <= tdim t -> skipped t = false.
Proof.
  unfold skipped, tdim. destruct (size t) as [|i [|j sz]]; simpl; intro H;
    try lia; try apply andb_false_r; reflexivity.
Qed.

Lemma rank_not_zero (t : Tensor A) : 2 <= tdim t -> (tdim t =? 0) = false.
Proof. intro H. apply Nat.eqb_neq. lia. Qed.

Lemma cat2_rank (a b c : Tensor A) :
  cat2 a b = Ok c -> tdim a = tdim b /\ tdim c = tdim a.
Proof.
  unfold cat2, tdim.
  destruct (rev (size a)) as [|la lead_a] eqn:Ra; [discriminate|].
  destruct (rev (size b)) as [|lb lead_b] eqn:Rb; [discriminate|].
  destruct (idx_eqb lead_a lead_b) eqn:Q; [|discriminate].
  apply idx_eqb_eq in Q. subst lead_b. intro H. inversion H. cbn [size].
  assert (Sa : size a = rev lead_a ++ [la])
    by (rewrite <- (rev_involutive (size a)), Ra; reflexivity).
  assert (Sb : size b = rev lead_a ++ [lb])
    by (rewrite <- (rev_involutive (size b)), Rb; reflexivity).
  rewrite Sa, Sb, removelast_last, !length_app. simpl. lia.
Qed.

Lemma cat_fold_err (rest : list (Tensor A)) (e : Exc) :
  fold_left (fun acc u => a <- acc ;; cat2 a u) rest (Err e) = Err e.
Proof. induction rest as [|u rest IH]; [reflexivity|exact IH]. Qed.

Lemma cat_fold_size (rest : list (Tensor A)) (a r : Tensor A) :
  fold_left (fun acc u => x <- acc ;; cat2 x u) rest (Ok a) = Ok r ->
  removelast (size r) = removelast (size a) /\ tdim r = tdim a.
Proof.
  revert a. induction rest as [|u rest IH]; intros a H.
  - inversion H. auto.
  - cbn [fold_left bind] in H. destruct (cat2 a u) as [x|e] eqn:Hx.
    + destruct (IH x H) as [H1 H2]. pose proof (cat2_size _ _ _ Hx) as S.
      destruct (cat2_rank _ _ _ Hx) as [_ T]. split; congruence.
    + rewrite cat_fold_err in H. discriminate.
Qed.

(** The first buffer decides the leading extents when it has two axes or
    more. *)
Lemma cat_size (a r : Tensor A) (rest : list (Tensor A)) :
  cat (a :: rest) = Ok r -> 2 <= tdim a ->
  removelast (size r) = removelast (size a).
Proof.
  unfold cat. intros H Ha. destruct (existsb _ _); [discriminate|].
  cbn [filter] in H. rewrite (skipped_rank a Ha) in H. cbn [negb] in H.
  apply cat_fold_size in H. apply H.
Qed.

(** Two and three buffers none of which is skipped. *)
Lemma cat_pair (a b : Tensor A) :
  2 <= tdim a -> 2 <= tdim b -> cat [a; b] = cat2 a b.
Proof.
  intros Ha Hb. unfold cat. cbn [existsb filter].
  rewrite (rank_not_zero a Ha), (rank_not_zero b Hb).
  rewrite (skipped_rank a Ha), (skipped_rank b Hb). reflexivity.
Qed.

Lemma cat_triple (a b c : Tensor A) :
  2 <= tdim a -> 2 <= tdim b -> 2 <= tdim c ->
  cat [a; b; c] = (x <- cat2 a b ;; cat2 x c).
Proof.
  intros Ha Hb Hc. unfold cat. cbn [existsb filter].
  rewrite (rank_not_zero a Ha), (rank_not_zero b Hb), (rank_not_zero c Hc).
  rewrite (skipped_rank a Ha), (skipped_rank b Hb), (skipped_rank c Hc).
  reflexivity.
Qed.

(** A last buffer that is not skipped has the rank of the first. *)
Lemma cat_triple_rank (a b c r : Tensor A) :
  cat [a; b; c] = Ok r -> 2 <= tdim a -> skipped c = false ->
  tdim c = tdim a.
Proof.
  unfold cat. intros H Ha Hc. destruct (existsb _ _); [discriminate|].
  cbn [filter] in H. rewrite (skipped_rank a Ha), Hc in H. cbn [negb] in H.
  destruct (skipped b); cbn [negb fold_left bind] in H.
  - apply cat2_rank in H. symmetry. apply H.
  - destruct (cat2 a b) as [x|e] eqn:Hx; [|discriminate].
    apply cat2_rank in Hx, H. destruct Hx, H. congruence.
Qed.

Lemma wrap_dim_rank (r : nat) (d : nat) :
  maybe_wrap_dim r (-2) = Ok d -> 2 <= r.
Proof.
  unfold maybe_wrap_dim, py_index. destruct r as [|[|r]]; try discriminate.
  intros _. lia.
Qed.

Lemma update_size (l : MPNNLayer (A := A)) (aggr_out h y : Tensor A) :
  2 <= tdim h ->
  update dt l aggr_out h = Ok y -> removelast (size y) = removelast (size h).
Proof.
  unfold update. intros Hh H.
  apply bind_ok in H as [u [Hu H]].
  apply cat_size in Hu; [|exact Hh]. apply mlp_size in H. congruence.
Qed.

Lemma layer_forward_size (l : MPNNLayer (A := A)) (h y : Tensor A)
  (ei : Tensor Z) (ea : Tensor A) :
  Layer_forward' l h ei ea = Ok y -> removelast (size y) = removelast (size h).
Proof.
  unfold MPNNLayer_forward, propagate. intro H.
  do 3 (apply bind_ok in H; destruct H as [? [_ H]]).
  apply bind_ok in H as [h_i [Hi H]].
  do 3 (apply bind_ok in H; destruct H as [? [_ H]]).
  unfold index_select in Hi. apply bind_ok in Hi as [d [Hd _]].
  apply wrap_dim_rank in Hd.
  apply (update_size _ _ _ _ Hd H).
Qed.

Lemma run_convs_err (cs : list (MPNNLayer (A := A))) (ei : Tensor Z)
  (ea : Tensor A) (e : Exc) :
  fold_left (fun acc conv => h <- acc ;; Layer_forward' conv h ei ea) cs (Err e)
  = Err e.
Proof. induction cs; simpl; auto. Qed.

(** The layers run one after the other, each on the output of the one
    before. *)
Lemma run_convs_cons (c : MPNNLayer (A := A)) (cs : list MPNNLayer)
  (ei : Tensor Z) (ea h : Tensor A) :
  run_convs' (c :: cs) ei ea h =
  h' <- Layer_forward' c h ei ea ;; run_convs' cs ei ea h'.
Proof.
  unfold run_convs. cbn [fold_left bind].
  destruct (MPNNLayer_forward _ _ _ _ c h ei ea); cbn [bind]; [reflexivity|].
  apply run_convs_err.
Qed.

Lemma run_convs_size (cs : list (MPNNLayer (A := A))) (ei : Tensor Z)
  (ea h y : Tensor A) :
  run_convs' cs ei ea h = Ok y -> removelast (size y) = removelast (size h).
Proof.
  revert h; induction cs as [|c cs IH]; intros h H.
  - inversion H. reflexivity.
  - rewrite run_convs_cons in H. apply bind_ok in H as [h' [Hc H]].
    apply layer_forward_size in Hc. apply IH in H. congruence.
Qed.

Lemma squeeze_last_one (y : Tensor A) (lead : list nat) :
  size y = lead ++ [1] ->
  squeeze_last y = mkTensor lead (fun p => get y (p ++ [0])).
Proof.
  intro H. unfold squeeze_last. rewrite H, rev_app_distr. cbn [rev app].
  rewrite removelast_last. reflexivity.
Qed.

Lemma squeeze_last_other (y : Tensor A) (lead : list nat) (k : nat) :
  size y = lead ++ [k] -> k <> 1 -> squeeze_last y = y.
Proof.
  intros H Hk. unfold squeeze_last. rewrite H, rev_app_distr. cbn [rev app].
  destruct k as [|[|k]]; try reflexivity. contradiction.
Qed.

(** C9.  The forward pass of the model is the composition of the input
    projection (two linear maps, each followed by the nonlinearity), the
    graph layers applied one after the other on the stored edge index and
    edge attributes, the output projection (two linear maps with the
    nonlinearity after the first only) and the removal of the trailing axis
    of extent one.  [predict_fn] is this forward pass.  When it returns and
    the output projection has one output feature, the result has one axis
    fewer than the projection output [y], namely the shape of the input
    without its feature axis, one scalar per node, each the single feature
    of [y]; with another number of output features the result is [y]. *)
Theorem forward_is_composition (m : MPNNModel (A := A)) (x : Tensor A) :
  predict_fn' x m = Model_forward' m x /\
  Model_forward' m x =
    (h1 <- linear dt (lin_in1 m) x ;;
     h2 <- linear dt (lin_in2 m) (relu_ dt h1) ;;
     h3 <- run_convs' (convs m) (edge_index m) (edge_attr m) (relu_ dt h2) ;;
     h4 <- linear dt (lin_pred1 m) h3 ;;
     y <- linear dt (lin_pred2 m) (relu_ dt h4) ;;
     Ok (squeeze_last y)) /\
  (forall c cs ei ea h,
     run_convs' (c :: cs) ei ea h =
     h' <- Layer_forward' c h ei ea ;; run_convs' cs ei ea h') /\
  (forall out, Model_forward' m x = Ok out ->
   exists h4 y,
     linear dt (lin_pred2 m) (relu_ dt h4) = Ok y /\
     size y = removelast (size x) ++ [out_features (lin_pred2 m)] /\
     out = squeeze_last y /\
     (out_features (lin_pred2 m) = 1 ->
      size out = removelast (size x) /\
      tdim out + 1 = tdim y /\
      forall p, get out p = get y (p ++ [0])) /\
     (out_features (lin_pred2 m) <> 1 -> out = y)).
Proof.
  split; [reflexivity|]. split; [reflexivity|]. split; [apply run_convs_cons|].
  intros out H. unfold MPNNModel_forward in H.
  apply bind_ok in H as [h1 [H1 H]]. apply bind_ok in H as [h2 [H2 H]].
  apply bind_ok in H as [h3 [H3 H]]. apply bind_ok in H as [h4 [H4 H]].
  apply bind_ok in H as [y [Hy H]]. inversion H; subst out; clear H.
  exists h4, y. split; [exact Hy|].
  apply linear_size in H1, H2, H4. apply run_convs_size in H3.
  pose proof (linear_size _ _ _ Hy) as Sy.
  cbn [relu_ tmap size] in *.
  assert (L : removelast (size h4) = removelast (size x)).
  { rewrite H4, removelast_last, H3, H2, removelast_last, H1, removelast_last.
    reflexivity. }
  rewrite L in Sy. split; [exact Sy|]. split; [reflexivity|]. split.
  - intro O. rewrite O in Sy. rewrite (squeeze_last_one y _ Sy). cbn [size get].
    split; [reflexivity|]. split; [|reflexivity].
    unfold tdim. cbn [size]. rewrite Sy, length_app. reflexivity.
  - intro O. apply (squeeze_last_other y _ _ Sy O).
Qed.

End Forward.

(** The forward pass of a model of one layer on two nodes of one feature. *)
Example forward_two_nodes :
  observe (m <- MPNNModel_init accept_all unit_param graph_edges graph_attr 1 1 1 1 ;;
           predict_fn int64 no_kernel no_kernel no_kernel two_nodes m)
  = Ok ([2], [17; 18]%Z).
Proof. vm_compute. reflexivity. Qed.

(** ** Construction of the model *)

Section ModelInit.

Context {A : Type} (dt : DType A).

Variable torch_scatter_mul :
  Tensor A -> Tensor Z -> Z -> option (Tensor A) -> option Z -> result (Tensor A).
Variable torch_scatter_min :
  Tensor A -> Tensor Z -> Z -> option (Tensor A) -> option Z ->
  result (Tensor A * Tensor Z).
Variable torch_scatter_max :
  Tensor A -> Tensor Z -> Z -> option (Tensor A) -> option Z ->
  result (Tensor A * Tensor Z).
Variable MessagePassing_init : string -> result unit.
Variable init_param : list nat -> A.

Local Abbreviation Model_init' := (MPNNModel_init MessagePassing_init init_param).
Local Abbreviation Layer_forward' :=
  (MPNNLayer_forward dt torch_scatter_mul torch_scatter_min torch_scatter_max).
Local Abbreviation Model_forward' :=
  (MPNNModel_forward dt torch_scatter_mul torch_scatter_min torch_scatter_max).

Lemma make_convs_ok (n emb ed : nat) :
  MessagePassing_init "add" = Ok tt ->
  exists cs, make_convs MessagePassing_init init_param n emb ed = Ok cs /\
             length cs = n.
Proof.
  intro H. induction n as [|n [cs [IH L]]]; simpl.
  - exists []. auto.
  - unfold MPNNLayer_init. rewrite H. cbn [bind]. rewrite IH. cbn [bind].
    eexists. split; [reflexivity|]. simpl. f_equal. exact L.
Qed.

Lemma make_convs_node_dim (n emb ed : nat) (cs : list (MPNNLayer (A := A))) :
  make_convs MessagePassing_init init_param n emb ed = Ok cs ->
  length cs = n /\ Forall (fun l => node_dim l = (-2)%Z) cs.
Proof.
  revert cs; induction n as [|n IH]; intros cs H; simpl in H.
  - inversion H. split; [reflexivity|constructor].
  - apply bind_ok in H as [c [Hc H]]. apply bind_ok in H as [rest [Hr H]].
    inversion H; subst; clear H. destruct (IH rest Hr) as [L F].
    unfold MPNNLayer_init in Hc. apply bind_ok in Hc as [u [_ Hc]].
    inversion Hc; subst; clear Hc.
    split; [simpl; f_equal; exact L|]. constructor; [reflexivity|exact F].
Qed.

Lemma select_row_size {X : Type} (t r : Tensor X) (k : nat) :
  select_row t k = Ok r -> size r = tl (size t).
Proof.
  unfold select_row. destruct (size t) as [|n rest]; [discriminate|].
  destruct (k <? n); [|discriminate]. intro H. inversion H. reflexivity.
Qed.

Lemma index_select_size (t r : Tensor A) (dim : Z) (index : Tensor Z) :
  index_select t dim index = Ok r ->
  exists d e, maybe_wrap_dim (tdim t) dim = Ok d /\ size index = [e] /\
              size r = set_nth (size t) d e.
Proof.
  unfold index_select. intro H. apply bind_ok in H as [d [Hd H]].
  destruct (size index) as [|e [|? ?]]; try discriminate.
  destruct (forallb _ _); [|discriminate]. inversion H. eauto.
Qed.

(** With node features of two axes, a layer cannot complete its forward
    pass when the edge attributes have another number of rows than the edge
    index has columns. *)
Lemma layer_forward_row_mismatch (l : MPNNLayer (A := A)) (h ea y : Tensor A)
  (ei : Tensor Z) (E N F E' Fe : nat) :
  node_dim l = (-2)%Z ->
  size ei = [2; E] -> size h = [N; F] -> size ea = [E'; Fe] -> E' <> E ->
  Layer_forward' l h ei ea <> Ok y.
Proof.
  intros Hn Hei Hh Hea Hne Hf. unfold MPNNLayer_forward, propagate in Hf.
  apply bind_ok in Hf as [u [_ Hf]].
  apply bind_ok in Hf as [row0 [H0 Hf]]. apply bind_ok in Hf as [row1 [H1 Hf]].
  apply bind_ok in Hf as [h_i [Hi Hf]]. apply bind_ok in Hf as [h_j [Hj Hf]].
  apply bind_ok in Hf as [msg [Hm _]].
  apply select_row_size in H0. rewrite Hei in H0. cbn [tl] in H0.
  apply select_row_size in H1. rewrite Hei in H1. cbn [tl] in H1.
  apply index_select_size in Hi as [d [e [Hd [He Si]]]].
  rewrite H1 in He. inversion He; subst e; clear He.
  apply index_select_size in Hj as [d' [e' [Hd' [He' Sj]]]].
  rewrite H0 in He'. inversion He'; subst e'; clear He'.
  rewrite Hd in Hd'. inversion Hd'; subst d'; clear Hd'.
  rewrite Hn in Hd. unfold maybe_wrap_dim, tdim in Hd. rewrite Hh in Hd.
  inversion Hd; subst d; clear Hd. rewrite Hh in Si, Sj. cbn [set_nth] in Si, Sj.
  assert (Ti : tdim h_i = 2) by (unfold tdim; rewrite Si; reflexivity).
  assert (Tj : tdim h_j = 2) by (unfold tdim; rewrite Sj; reflexivity).
  assert (Te : tdim ea = 2) by (unfold tdim; rewrite Hea; reflexivity).
  unfold message in Hm. rewrite Ti in Hm. cbn [Nat.eqb bind] in Hm.
  apply bind_ok in Hm as [c [Hc _]].
  rewrite cat_triple in Hc by lia.
  apply bind_ok in Hc as [c1 [Hc1 Hc]].
  pose proof (cat2_shape_left _ _ _ Hc1) as S1. rewrite Si in S1.
  unfold cat2 in Hc. destruct S1 as [k S1]. rewrite S1, Hea in Hc. cbn in Hc.
  destruct (Nat.eqb_spec E E'); [congruence|]. discriminate.
Qed.

(** C7 (as amended).  The constructor of [MPNNModel] does not compare the
    row count of the edge attributes with the column count of the edge
    index: whatever the two buffers, it succeeds as soon as the edge
    attributes have two axes (it reads their second extent) and the base
    class accepts the kind "add", and it stores both buffers as given; with
    fewer than two axes it fails on the subscript.  A mismatch of the two
    counts shows in the forward pass: a model of at least one layer, so
    constructed, does not complete it on node features of two axes. *)
Theorem model_init_no_row_check (ei : Tensor Z) (ea : Tensor A)
  (in_dim n emb out_dim : nat) :
  MessagePassing_init "add" = Ok tt ->
  (2 <= tdim ea ->
   exists m,
     Model_init' ei ea in_dim n emb out_dim = Ok m /\
     edge_index m = ei /\ edge_attr m = ea /\
     edge_dim m = nth 1 (size ea) 0 /\ length (convs m) = n) /\
  (tdim ea < 2 -> Model_init' ei ea in_dim n emb out_dim = Err DimOutOfRange) /\
  (forall m x y E E' Fe N F,
     Model_init' ei ea in_dim n emb out_dim = Ok m ->
     1 <= n ->
     size ei = [2; E] -> size ea = [E'; Fe] -> E' <> E -> size x = [N; F] ->
     Model_forward' m x <> Ok y).
Proof.
  intro H. split; [|split].
  - intro Hr. unfold MPNNModel_init, py_index.
    destruct (Z.leb_spec (- Z.of_nat (tdim ea)) 1); [|lia].
    destruct (Z.ltb_spec 1 (Z.of_nat (tdim ea))); [|lia].
    cbn [andb bind]. change (1 <? 0)%Z with false. cbv iota.
    destruct (make_convs_ok n emb (nth (Z.to_nat 1) (size ea) 0) H) as [cs [E L]].
    rewrite E. cbn [bind]. eexists. split; [reflexivity|].
    cbn. auto.
  - intro Hr. unfold MPNNModel_init, py_index.
    destruct (Z.ltb_spec 1 (Z.of_nat (tdim ea))); [lia|].
    rewrite andb_false_r. reflexivity.
  - intros m x y E E' Fe N F Hm Hn Hei Hea Hne Hx Hf.
    unfold MPNNModel_init in Hm.
    apply bind_ok in Hm as [k0 [_ Hm]]. apply bind_ok in Hm as [cs [Hcs Hm]].
    inversion Hm; subst m; clear Hm.
    apply make_convs_node_dim in Hcs as [L Fd].
    unfold MPNNModel_forward in Hf. cbn [lin_in1 lin_in2 convs edge_index edge_attr] in Hf.
    apply bind_ok in Hf as [h1 [H1 Hf]]. apply bind_ok in Hf as [h2 [H2 Hf]].
    apply bind_ok in Hf as [h3 [H3 _]].
    apply linear_size in H1, H2. cbn [relu_ tmap size] in H2.
    rewrite H1, removelast_last, Hx in H2. cbn in H2.
    destruct cs as [|c cs]; [simpl in L; lia|].
    rewrite run_convs_cons in H3. apply bind_ok in H3 as [h' [Hc _]].
    inversion Fd; subst.
    revert Hc. eapply layer_forward_row_mismatch; eauto.
Qed.

End ModelInit.

Lemma model_init_no_row_check_witness :
  exists m,
    MPNNModel_init accept_all unit_param graph_edges three_attr_rows 1 1 1 1 = Ok m /\
    edge_index m = graph_edges /\ edge_attr m = three_attr_rows /\
    edge_dim m = 2 /\ length (convs m) = 1.
Proof.
  apply (proj1 (model_init_no_row_check int64 no_kernel no_kernel no_kernel
                  accept_all unit_param
                  graph_edges three_attr_rows 1 1 1 1 eq_refl)).
  cbn. lia.
Defined.

(** The claim C7 as worded fails: an edge index of two columns and edge
    attributes of three rows are accepted by the constructor, which only
    reads [edge_attr.shape[1]]; the mismatch raises in the forward pass,
    when [message] concatenates the gathered node features, of two rows,
    with the edge attributes, of three. *)
Lemma model_init_counterexample :
  nth 1 (size graph_edges) 0 = 2 /\
  nth 0 (size three_attr_rows) 0 = 3 /\
  exists m,
    MPNNModel_init accept_all unit_param graph_edges three_attr_rows 1 1 1 1 = Ok m /\
    MPNNModel_forward int64 no_kernel no_kernel no_kernel m two_nodes
    = Err ShapeMismatch.
Proof.
  split; [reflexivity|]. split; [reflexivity|].
  eexists. split; [reflexivity|]. vm_compute. reflexivity.
Qed.

(** * Further properties of the code *)

(** ** Every outcome of [scatter_sum] without [out] *)

Lemma forallb_false_ex {X : Type} (f : X -> bool) (l : list X) :
  forallb f l = false -> exists x, In x l /\ f x = false.
Proof.
  induction l as [|a l IH]; simpl; [discriminate|].
  destruct (f a) eqn:E; simpl.
  - intro H. destruct (IH H) as [x [Hx Hf]]. exists x. auto.
  - intros _. exists a. auto.
Qed.

Lemma py_index_err (len : nat) (i : Z) (e : Exc) :
  py_index len i = Err e -> e = DimOutOfRange.
Proof.
  unfold py_index. destruct (_ && _)%bool; [discriminate|].
  intro H. inversion H. reflexivity.
Qed.

Lemma broadcast_err {X B : Type} (src : Tensor X) (other : Tensor B) (dim : Z)
  (e : Exc) :
  broadcast src other dim = Err e -> e = ShapeMismatch.
Proof.
  destruct (broadcast_aligned src other dim) as [a [_ [_ E]]]. rewrite E.
  destruct (expandable _ _); [discriminate|].
  intro H. inversion H. reflexivity.
Qed.

Lemma out_extent_ok (ib : Tensor Z) (ds : option Z) :
  exists z, out_extent ib ds = Ok z.
Proof.
  unfold out_extent. destruct ds as [z|]; [eauto|].
  destruct (Nat.eqb_spec (numel ib) 0) as [E|E]; [eauto|].
  destruct (numel_in_bounds _ E) as [p Hp].
  destruct (tensor_max_ok ib p Hp) as [m Hm]. rewrite Hm. simpl. eauto.
Qed.

Section SumOutcome.

Context {A : Type} (dt : DType A).

(** X1.  [scatter_sum] without [out] has five outcomes, decided in this
    order: the shape error when the index does not broadcast against the
    value buffer; the axis error when [dim] is not an axis of the value
    buffer; the error of a negative extent when the extent chosen for the
    output ([dim_size], or one more than the largest group id) is negative;
    the index error when some element has a group id outside the extent;
    and otherwise a buffer of the value buffer's shape with that extent
    along [dim].  The extent is always defined. *)
Theorem scatter_sum_outcome (src : Tensor A) (index : Tensor Z) (dim : Z)
  (dim_size : option Z) :
  (forall e, broadcast index src dim = Err e ->
     scatter_sum dt src index dim None dim_size = Err ShapeMismatch) /\
  (forall ib, broadcast index src dim = Ok ib ->
     (exists z, out_extent ib dim_size = Ok z) /\
     (forall e, py_index (tdim src) dim = Err e ->
        scatter_sum dt src index dim None dim_size = Err DimOutOfRange) /\
     (forall d z, py_index (tdim src) dim = Ok d ->
        out_extent ib dim_size = Ok z ->
        ((z < 0)%Z ->
         scatter_sum dt src index dim None dim_size = Err NegativeDimension) /\
        ((0 <= z)%Z -> ids_in_range ib (size src) z = false ->
         scatter_sum dt src index dim None dim_size = Err IndexOutOfBounds) /\
        ((0 <= z)%Z -> ids_in_range ib (size src) z = true ->
         exists out,
           scatter_sum dt src index dim None dim_size = Ok out /\
           size out = set_nth (size src) d (Z.to_nat z)))).
Proof.
  split.
  - intros e H. pose proof (broadcast_err _ _ _ _ H). subst e.
    unfold scatter_sum. rewrite H. reflexivity.
  - intros ib Hb. split; [apply out_extent_ok|]. split.
    + intros e He. destruct (out_extent_ok ib dim_size) as [z Hz].
      unfold scatter_sum. rewrite Hb. cbn [bind].
      rewrite (out_extent_setitem src _ dim _ _ Hz).
      unfold py_setitem. rewrite length_map. fold (tdim src). rewrite He.
      cbn [bind]. rewrite (py_index_err _ _ _ He). reflexivity.
    + intros d z Hd Hz. split; [|split].
      * intro Hneg. unfold scatter_sum. rewrite Hb. cbn [bind].
        rewrite (out_extent_setitem src _ dim _ _ Hz).
        unfold py_setitem. rewrite length_map. fold (tdim src). rewrite Hd.
        cbn [bind]. unfold zeros.
        rewrite to_shape_set_nth_neg;
          [reflexivity|exact Hneg|apply (py_index_ok _ _ _ Hd)].
      * intros Hpos Hr. unfold ids_in_range in Hr.
        apply forallb_false_ex in Hr as [p [Hp Hf]].
        apply in_indices in Hp.
        apply (scatter_sum_oob dt src index ib dim dim_size d z p Hb Hd Hz Hpos Hp).
        intros [H1 H2]. apply Z.leb_le in H1. apply Z.ltb_lt in H2.
        rewrite H1, H2 in Hf. discriminate.
      * intros Hpos Hr.
        destruct (scatter_sum_spec dt src index ib dim dim_size d z Hb Hd Hz Hpos
                    (ids_in_range_spec _ _ _ Hr)) as [out [E [Hs _]]].
        eauto.
Qed.

End SumOutcome.

(** An axis past the end makes the broadcast fail first; an axis before the
    start passes the broadcast and fails on the subscript [size[dim]]. *)
Example scatter_sum_bad_axis :
  scatter_sum int64 src32 idx010 2 None None = Err ShapeMismatch /\
  scatter_sum int64 src32 idx010 (-3) None None = Err DimOutOfRange.
Proof. split; reflexivity. Qed.

Example scatter_sum_negative_dim_size :
  scatter_sum int64 src32 idx010 0 None (Some (-1)%Z) = Err NegativeDimension.
Proof. reflexivity. Qed.

(** ** [scatter_sum] into a given [out] *)

Section SumIntoOut.

Context {A : Type} (dt : DType A).

(** X2.  With [out] supplied, [scatter_sum] adds the rows of every group on
    top of what [out] holds and returns a buffer of the shape of [out];
    [dim_size] plays no part: the group ids are checked against the extent
    of [out] along [dim], and one outside it gives the index error. *)
Theorem scatter_sum_into_out (src out : Tensor A) (index ib : Tensor Z) (dim : Z)
  (dim_size : option Z) (d n' : nat) :
  broadcast index src dim = Ok ib ->
  py_index (tdim src) dim = Ok d ->
  size out = set_nth (size src) d n' ->
  ((forall p, in_bounds (size src) p = true ->
      (0 <= get ib p < Z.of_nat n')%Z) ->
   exists r,
     scatter_sum dt src index dim (Some out) dim_size = Ok r /\
     size r = size out /\
     forall q, in_bounds (size out) q = true ->
       get r q =
       fold_left (add dt)
         (map (fun i => get src (set_nth q d i))
              (group_rows ib d (nth d (size src) 0) q))
         (get out q)) /\
  (forall p, in_bounds (size src) p = true ->
     ~ (0 <= get ib p < Z.of_nat n')%Z ->
     scatter_sum dt src index dim (Some out) dim_size = Err IndexOutOfBounds).
Proof.
  intros Hb Hd Ho.
  pose proof (broadcast_size _ _ _ _ Hb) as Hib.
  pose proof (py_index_ok _ _ _ Hd) as Hlt.
  assert (N : nth d (nonempty_size (size out)) 0 = n').
  { rewrite Ho.
    replace (nonempty_size (set_nth (size src) d n')) with (set_nth (size src) d n').
    - apply nth_set_nth_eq. exact Hlt.
    - unfold tdim in Hlt. destruct (size src); [simpl in Hlt; lia|].
      destruct d; reflexivity. }
  assert (E : scatter_sum dt src index dim (Some out) dim_size =
              fold_left (scatter_step dt d ib src) (indices (size src)) (Ok out)).
  { unfold scatter_sum. rewrite Hb. cbn [bind].
    apply (scatter_add_loop dt out src ib dim d n' Hd Hib Ho). }
  split.
  - intro Hr.
    destruct (scatter_fold_ok dt d ib src (indices (size src)) out)
      as [r [Er [Hs Hg]]].
    { intros p Hp. apply in_indices in Hp. rewrite N. apply Hr, Hp. }
    exists r. split; [rewrite E; exact Er|]. split; [exact Hs|].
    intros q Hq. rewrite Ho in Hq.
    rewrite Hg, (scatter_targets src ib d n' q Hlt); [|intros p Hp; apply Hr, Hp|exact Hq].
    rewrite map_map. reflexivity.
  - intros p Hp Hr. rewrite E.
    apply scatter_fold_oob with (p := p); [apply in_indices, Hp|].
    rewrite N. exact Hr.
Qed.

End SumIntoOut.

Lemma scatter_sum_into_out_witness :
  exists r,
    scatter_sum int64 src32 idx010 0 (Some (full [2; 2] 10%Z)) (Some 7%Z) = Ok r /\
    size r = [2; 2] /\
    forall q, in_bounds [2; 2] q = true ->
      get r q =
      fold_left (add int64)
        (map (fun i => get src32 (set_nth q 0 i))
             (group_rows (returned idx010 (broadcast idx010 src32 0)) 0 3 q))
        10%Z.
Proof.
  apply (proj1 (scatter_sum_into_out int64 src32 (full [2; 2] 10%Z) idx010
                  (returned idx010 (broadcast idx010 src32 0)) 0 (Some 7%Z) 0 2
                  eq_refl eq_refl eq_refl)).
  apply ids_in_range_spec. reflexivity.
Defined.

Example scatter_sum_into_tens :
  observe (scatter_sum int64 src32 idx010 0 (Some (full [2; 2] 10%Z)) (Some 7%Z))
  = Ok ([2; 2], [16; 18; 13; 14]%Z).
Proof. reflexivity. Qed.

(** ** The errors of the reductions *)

Lemma bind_err {X Y : Type} (r : result X) (f : X -> result Y) (e : Exc) :
  bind r f = Err e -> r = Err e \/ exists x, r = Ok x /\ f x = Err e.
Proof.
  destruct r; simpl; intro H; [right; eauto|left].
  inversion H. reflexivity.
Qed.

Lemma to_shape_err (sz : list Z) (e : Exc) :
  to_shape sz = Err e -> e = NegativeDimension.
Proof.
  induction sz as [|z sz IH]; simpl; [discriminate|].
  destruct (z <? 0)%Z.
  - intro H. inversion H. reflexivity.
  - destruct (to_shape sz); simpl; [discriminate|].
    intro H. inversion H; subst. apply IH. reflexivity.
Qed.

Section ErrorKinds.

Context {A : Type} (dt : DType A).

Variable torch_scatter_mul :
  Tensor A -> Tensor Z -> Z -> option (Tensor A) -> option Z -> result (Tensor A).
Variable torch_scatter_min :
  Tensor A -> Tensor Z -> Z -> option (Tensor A) -> option Z ->
  result (Tensor A * Tensor Z).
Variable torch_scatter_max :
  Tensor A -> Tensor Z -> Z -> option (Tensor A) -> option Z ->
  result (Tensor A * Tensor Z).

Local Abbreviation scatter' :=
  (scatter dt torch_scatter_mul torch_scatter_min torch_scatter_max).

Lemma scatter_fold_err_kind (d : nat) (index : Tensor Z) (src : Tensor A)
  (L : list (list nat)) (o : Tensor A) (e : Exc) :
  fold_left (scatter_step dt d index src) L (Ok o) = Err e ->
  e = IndexOutOfBounds.
Proof.
  revert o; induction L as [|p L IH]; intros o H; [discriminate|].
  cbn [fold_left] in H. unfold scatter_step at 2 in H. cbn [bind] in H.
  destruct (_ && _)%bool in H.
  - apply IH in H. exact H.
  - rewrite scatter_fold_err in H. inversion H. reflexivity.
Qed.

Lemma scatter_add_err (self src : Tensor A) (dim : Z) (index : Tensor Z) (e : Exc) :
  scatter_add_ dt self dim index src = Err e -> tensor_error e = true.
Proof.
  unfold scatter_add_, maybe_wrap_dim. intro H.
  apply bind_err in H as [H|[d [_ H]]].
  - apply py_index_err in H. subst. reflexivity.
  - destruct (numel index =? 0); [discriminate|].
    destruct (scatter_shape_check _ _ _ _).
    + apply scatter_fold_err_kind in H. subst. reflexivity.
    + inversion H. reflexivity.
Qed.

Lemma scatter_sum_err (src : Tensor A) (index : Tensor Z) (dim : Z)
  (out : option (Tensor A)) (ds : option Z) (e : Exc) :
  scatter_sum dt src index dim out ds = Err e -> tensor_error e = true.
Proof.
  unfold scatter_sum. intro H.
  apply bind_err in H as [H|[ib [Hb H]]].
  - apply broadcast_err in H. subst. reflexivity.
  - destruct out as [out|]; [apply scatter_add_err in H; exact H|].
    destruct (out_extent_ok ib ds) as [z Hz].
    rewrite (out_extent_setitem src _ dim _ _ Hz) in H.
    apply bind_err in H as [H|[size1 [_ H]]].
    + unfold py_setitem in H. apply bind_err in H as [H|[k [_ H]]];
        [|discriminate]. apply py_index_err in H. subst. reflexivity.
    + apply bind_err in H as [H|[out0 [_ H]]].
      * unfold zeros in H. apply bind_err in H as [H|[s0 [_ H]]];
          [|discriminate]. apply to_shape_err in H. subst. reflexivity.
      * apply scatter_add_err in H. exact H.
Qed.

Lemma scatter_mean_err (src : Tensor A) (index : Tensor Z) (dim : Z)
  (out : option (Tensor A)) (ds : option Z) (e : Exc) :
  scatter_mean dt src index dim out ds = Err e -> tensor_error e = true.
Proof.
  unfold scatter_mean. intro H.
  apply bind_err in H as [H|[out1 [_ H]]]; [apply scatter_sum_err in H; exact H|].
  apply bind_err in H as [H|[n [_ H]]].
  { unfold size_at in H. apply bind_err in H as [H|[k [_ H]]]; [|discriminate].
    apply py_index_err in H. subst. reflexivity. }
  cbv zeta in H.
  apply bind_err in H as [H|[cnt [_ H]]]; [apply scatter_sum_err in H; exact H|].
  apply bind_err in H as [H|[cb [_ H]]].
  { apply broadcast_err in H. subst. reflexivity. }
  assert (D : forall f, div_ f out1 cb = Err e -> tensor_error e = true).
  { intros f Hf. unfold div_ in Hf. destruct (idx_eqb _ _); [discriminate|].
    inversion Hf. reflexivity. }
  destruct (is_floating_point dt); eapply D; exact H.
Qed.

(** X3.  As long as the external operators do not raise it themselves,
    [scatter] raises the [ValueError] for the unrecognized reduce kinds and
    for no other: the sum and the mean fail only with the shape, axis,
    negative-extent and index errors of the tensor operations. *)
Theorem scatter_value_error_iff (src : Tensor A) (index : Tensor Z) (dim : Z)
  (out : option (Tensor A)) (dim_size : option Z) (k : string) :
  torch_scatter_mul src index dim out dim_size <> Err ValueError ->
  torch_scatter_min src index dim out dim_size <> Err ValueError ->
  torch_scatter_max src index dim out dim_size <> Err ValueError ->
  (scatter' src index dim out dim_size k = Err ValueError <->
   recognized k = false) /\
  (forall e, scatter_sum dt src index dim out dim_size = Err e ->
     tensor_error e = true) /\
  (forall e, scatter_mean dt src index dim out dim_size = Err e ->
     tensor_error e = true).
Proof.
  intros Kmul Kmin Kmax. split; [|split].
  - split.
    + intro H. unfold recognized. unfold scatter in H.
      destruct (k =? "sum")%string.
      { apply scatter_sum_err in H. discriminate. }
      destruct (k =? "add")%string.
      { apply scatter_sum_err in H. discriminate. }
      destruct (k =? "mul")%string; [contradiction|].
      destruct (k =? "mean")%string.
      { apply scatter_mean_err in H. discriminate. }
      destruct (k =? "min")%string.
      { unfold fmap, scatter_min in H. apply bind_err in H as [H|[x [_ H]]];
          [contradiction|discriminate]. }
      destruct (k =? "max")%string.
      { unfold fmap, scatter_max in H. apply bind_err in H as [H|[x [_ H]]];
          [contradiction|discriminate]. }
      reflexivity.
    + intro H. apply scatter_unrecognized. exact H.
  - intros e. apply scatter_sum_err.
  - intros e. apply scatter_mean_err.
Qed.

End ErrorKinds.

Lemma scatter_value_error_iff_witness :
  (scatter64 src32 idx010 0 None None "mode" = Err ValueError <->
   recognized "mode" = false) /\
  (forall e, scatter_sum int64 src32 idx010 0 None None = Err e ->
     tensor_error e = true) /\
  (forall e, scatter_mean int64 src32 idx010 0 None None = Err e ->
     tensor_error e = true).
Proof.
  apply (scatter_value_error_iff int64 no_kernel no_kernel no_kernel
           src32 idx010 0 None None "mode"); discriminate.
Defined.

(** ** Reordering the rows *)

Lemma map_nth_seq {X : Type} (l : list X) (d : X) :
  map (fun i => nth i l d) (seq 0 (length l)) = l.
Proof.
  induction l as [|x l IH]; simpl; [reflexivity|].
  f_equal. rewrite <- seq_shift, map_map. exact IH.
Qed.

Lemma filter_permutation {X : Type} (P : X -> bool) (l l' : list X) :
  Permutation l l' -> Permutation (filter P l) (filter P l').
Proof.
  induction 1 as [|x l l' _ IH|x y l|l l' l'' _ IH1 _ IH2]; simpl.
  - constructor.
  - destruct (P x); [constructor|]; exact IH.
  - destruct (P x), (P y); try reflexivity. constructor.
  - etransitivity; eassumption.
Qed.

Lemma fold_add_permutation {A : Type} (f : A -> A -> A) (l l' : list A) :
  (forall x y, f x y = f y x) ->
  (forall x y z, f (f x y) z = f x (f y z)) ->
  Permutation l l' -> forall a, fold_left f l a = fold_left f l' a.
Proof.
  intros C As. induction 1 as [|x l l' _ IH|x y l|l l' l'' _ IH1 _ IH2];
    intro a; simpl.
  - reflexivity.
  - apply IH.
  - f_equal. rewrite !As. f_equal. apply C.
  - rewrite IH1. apply IH2.
Qed.

Lemma perm_seq_bound (perm : list nat) (n i : nat) :
  Permutation perm (seq 0 n) -> i < n -> nth i perm 0 < n.
Proof.
  intros Hp Hi. pose proof (Permutation_length Hp) as L. rewrite length_seq in L.
  assert (In (nth i perm 0) perm) by (apply nth_In; lia).
  apply (Permutation_in _ Hp), in_seq in H. lia.
Qed.

Lemma perm_seq_onto (perm : list nat) (n j : nat) :
  Permutation perm (seq 0 n) -> j < n -> exists i, i < n /\ nth i perm 0 = j.
Proof.
  intros Hp Hj. pose proof (Permutation_length Hp) as L. rewrite length_seq in L.
  assert (In j perm).
  { apply (Permutation_in _ (Permutation_sym Hp)), in_seq. lia. }
  destruct (In_nth _ _ 0 H) as [i [Hi E]]. exists i. split; [lia|exact E].
Qed.

(** The rows of a group, read through a reordering. *)
Lemma rows_permuted {Y : Type} (f : nat -> Y) (P : nat -> bool)
  (perm : list nat) (n : nat) :
  Permutation perm (seq 0 n) ->
  Permutation
    (map (fun i => f (nth i perm 0)) (filter (fun i => P (nth i perm 0)) (seq 0 n)))
    (map f (filter P (seq 0 n))).
Proof.
  intro Hp. pose proof (Permutation_length Hp) as L. rewrite length_seq in L.
  rewrite <- (map_map (fun i => nth i perm 0) f).
  rewrite <- (filter_map_comm P (fun i => nth i perm 0)).
  rewrite <- L, map_nth_seq.
  apply Permutation_map, filter_permutation. rewrite L. exact Hp.
Qed.

Lemma tensor_max_permuted (index : Tensor Z) (perm : list nat) (n : nat) (m : Z) :
  size index = [n] ->
  Permutation perm (seq 0 n) ->
  tensor_max index = Ok m ->
  tensor_max (permute_rows index 0 perm) = Ok m.
Proof.
  intros Hi Hp Hm.
  destruct (tensor_max_spec _ _ Hm) as [[q [Hq Gq]] U].
  rewrite Hi in Hq. destruct q as [|j [|? ?]]; simpl in Hq; try discriminate;
    [|rewrite andb_false_r in Hq; discriminate].
  rewrite andb_true_r in Hq. apply Nat.ltb_lt in Hq.
  destruct (perm_seq_onto perm n j Hp Hq) as [i [Hi' E]].
  assert (B : forall k, k < n -> in_bounds (size (permute_rows index 0 perm)) [k] = true).
  { intros k Hk. cbn [permute_rows size]. rewrite Hi. simpl.
    rewrite andb_true_r. apply Nat.ltb_lt. exact Hk. }
  destruct (tensor_max_ok (permute_rows index 0 perm) [i] (B i Hi')) as [m' Hm'].
  destruct (tensor_max_spec _ _ Hm') as [[q' [Hq' Gq']] U'].
  rewrite Hm'. f_equal.
  pose proof (U' [i] (B i Hi')) as H1. cbn in H1. rewrite E, Gq in H1.
  cbn [permute_rows size] in Hq'. rewrite Hi in Hq'.
  destruct q' as [|k [|? ?]]; simpl in Hq'; try discriminate;
    [|rewrite andb_false_r in Hq'; discriminate].
  rewrite andb_true_r in Hq'. apply Nat.ltb_lt in Hq'.
  assert (H2 : in_bounds (size index) [nth k perm 0] = true).
  { rewrite Hi. simpl. rewrite andb_true_r. apply Nat.ltb_lt.
    apply perm_seq_bound; assumption. }
  apply U in H2. cbn in Gq'. lia.
Qed.

Section RowOrder.

Context {A : Type} (dt : DType A).

Lemma out_extent_permuted (src : Tensor A) (index ib ibp : Tensor Z) (dim : Z)
  (ds : option Z) (d n : nat) (perm : list nat) :
  size index = [n] ->
  Permutation perm (seq 0 n) ->
  broadcast index src dim = Ok ib ->
  broadcast (permute_rows index 0 perm) (permute_rows src d perm) dim = Ok ibp ->
  out_extent ibp ds = out_extent ib ds.
Proof.
  intros Hi Hp Hb Hbp. unfold out_extent. destruct ds as [z|]; [reflexivity|].
  pose proof (broadcast_size _ _ _ _ Hb) as S1.
  pose proof (broadcast_size _ _ _ _ Hbp) as S2. cbn [permute_rows size] in S2.
  assert (N1 : numel ib = numel src) by (unfold numel; rewrite S1; reflexivity).
  assert (N2 : numel ibp = numel src) by (unfold numel; rewrite S2; reflexivity).
  rewrite N1, N2. destruct (Nat.eqb_spec (numel src) 0) as [E|E]; [reflexivity|].
  destruct (tensor_max_broadcast _ _ _ _ Hb E) as [m [M1 M2]].
  destruct (tensor_max_broadcast _ _ _ _ Hbp E) as [m' [M1' M2']].
  rewrite (tensor_max_permuted index perm n m Hi Hp M1) in M1'.
  inversion M1'; subst m'. rewrite M2, M2'. reflexivity.
Qed.

(** X4.  The order of the rows does not matter to the sum, for a dtype whose
    addition is commutative and associative and an index with one entry per
    row: when the rows of the value buffer along [dim] and the entries of
    the index are reordered by the same permutation, [scatter_sum] returns
    whenever it returned before, with the same shape and the same
    elements. *)
Theorem scatter_sum_row_order (src : Tensor A) (index : Tensor Z) (dim : Z)
  (dim_size : option Z) (d n : nat) (perm : list nat) (out : Tensor A) :
  (forall x y, add dt x y = add dt y x) ->
  (forall x y z, add dt (add dt x y) z = add dt x (add dt y z)) ->
  size index = [n] ->
  py_index (tdim src) dim = Ok d ->
  nth d (size src) 0 = n ->
  Permutation perm (seq 0 n) ->
  scatter_sum dt src index dim None dim_size = Ok out ->
  exists out',
    scatter_sum dt (permute_rows src d perm) (permute_rows index 0 perm)
      dim None dim_size = Ok out' /\
    size out' = size out /\
    forall q, in_bounds (size out) q = true -> get out' q = get out q.
Proof.
  intros C As Hi Hd Hn Hp H.
  pose proof (py_index_ok _ _ _ Hd) as Hlt.
  apply scatter_sum_returned in H
    as [ib [d' [z [Hb [Hd' [He [Hz [Hr [Hs Hg]]]]]]]]].
  rewrite Hd in Hd'. inversion Hd'; subst d'; clear Hd'.
  destruct (broadcast_1d index src dim d n Hi Hd Hn) as [ib' [Hb' [_ G]]].
  rewrite Hb in Hb'. inversion Hb'; subst ib'; clear Hb'.
  set (src' := permute_rows src d perm). set (index' := permute_rows index 0 perm).
  assert (Hi' : size index' = [n]) by exact Hi.
  assert (Hd' : py_index (tdim src') dim = Ok d) by exact Hd.
  assert (Hn' : nth d (size src') 0 = n) by exact Hn.
  destruct (broadcast_1d index' src' dim d n Hi' Hd' Hn') as [ibp [Hbp [_ Gp]]].
  assert (Gp' : forall p, in_bounds (size src) p = true ->
                get ibp p = get index [nth (nth d p 0) perm 0]).
  { intros p Hq. rewrite (Gp p Hq). reflexivity. }
  assert (Bd : forall p i, in_bounds (size src) p = true -> i < n ->
               in_bounds (size src) (set_nth p d i) = true).
  { intros p i Hq Hi0.
    pose proof (@in_bounds_set_nth (size src) p d n i Hq Hi0) as B.
    rewrite <- Hn, set_nth_same in B. exact B. }
  assert (Hep : out_extent ibp dim_size = Ok z).
  { rewrite (out_extent_permuted src index ib ibp dim dim_size d n perm
               Hi Hp Hb Hbp). exact He. }
  assert (Hrp : forall p, in_bounds (size src') p = true ->
                (0 <= get ibp p < z)%Z).
  { intros p Hq. change (size src') with (size src) in Hq.
    rewrite (Gp' p Hq).
    assert (L : nth (nth d p 0) perm 0 < n).
    { apply perm_seq_bound; [exact Hp|]. rewrite <- Hn.
      apply in_bounds_nth; assumption. }
    pose proof (Hr _ (Bd p _ Hq L)) as R. rewrite G in R by (apply Bd; assumption).
    rewrite nth_set_nth_eq in R; [exact R|].
    apply in_bounds_length in Hq. unfold tdim in Hlt. lia. }
  destruct (scatter_sum_spec dt src' index' ibp dim dim_size d z
              Hbp Hd' Hep Hz Hrp) as [out' [E' [Hs' Hg']]].
  assert (Hss : size out' = size out) by (rewrite Hs', Hs; reflexivity).
  exists out'. split; [exact E'|]. split; [exact Hss|].
  intros q Hq.
  assert (Hq' : in_bounds (size out') q = true) by (rewrite Hss; exact Hq).
  rewrite (Hg q Hq), (Hg' q Hq'). unfold group_sum, group_rows.
  change (size src') with (size src). rewrite Hn.
  rewrite Hs in Hq.
  assert (Lq : d < length q).
  { apply in_bounds_length in Hq. rewrite set_nth_length in Hq.
    unfold tdim in Hlt. lia. }
  assert (Bq : forall i, i < n -> in_bounds (size src) (set_nth q d i) = true).
  { intros i Hi0.
    pose proof (@in_bounds_set_nth _ q d n i Hq Hi0) as B.
    rewrite set_nth_set_nth, <- Hn, set_nth_same in B. exact B. }
  set (g := Z.of_nat (nth d q 0)).
  set (f := fun j => get src (set_nth q d j)).
  set (P := fun j => (get index [j] =? g)%Z).
  rewrite (filter_ext_in _ (fun i => P (nth i perm 0))).
  2:{ intros i Hin. apply in_seq in Hin. unfold P.
      rewrite (Gp' _ (Bq i ltac:(lia))), nth_set_nth_eq by exact Lq.
      reflexivity. }
  rewrite (map_ext_in _ (fun i => f (nth i perm 0))).
  2:{ intros i _. unfold f, src'. cbn [permute_rows get].
      rewrite nth_set_nth_eq by exact Lq. rewrite set_nth_set_nth. reflexivity. }
  rewrite (filter_ext_in (fun i => (get ib (set_nth q d i) =? g)%Z) P).
  2:{ intros i Hin. apply in_seq in Hin. unfold P.
      rewrite (G _ (Bq i ltac:(lia))), nth_set_nth_eq by exact Lq.
      reflexivity. }
  unfold sum_list. apply (fold_add_permutation _ _ _ C As).
  apply (rows_permuted f P perm n Hp).
Qed.

End RowOrder.

Lemma wrap64_add_l (a b : Z) : wrap64 (wrap64 a + b) = wrap64 (a + b).
Proof.
  unfold wrap64. f_equal.
  replace ((a + 2 ^ 63) mod 2 ^ 64 - 2 ^ 63 + b + 2 ^ 63)%Z
    with ((a + 2 ^ 63) mod 2 ^ 64 + b)%Z by lia.
  rewrite Zplus_mod_idemp_l. f_equal. lia.
Qed.

Lemma int64_add_comm (x y : Z) : add int64 x y = add int64 y x.
Proof. cbn. f_equal. lia. Qed.

Lemma int64_add_assoc (x y z : Z) :
  add int64 (add int64 x y) z = add int64 x (add int64 y z).
Proof.
  cbn. rewrite wrap64_add_l.
  replace (x + wrap64 (y + z))%Z with (wrap64 (y + z) + x)%Z by lia.
  rewrite wrap64_add_l. f_equal. lia.
Qed.

Lemma scatter_sum_row_order_witness :
  exists out',
    scatter_sum int64 (permute_rows src32 0 [2; 0; 1])
      (permute_rows idx010 0 [2; 0; 1]) 0 None None = Ok out' /\
    size out' = size (returned src32 (scatter_sum int64 src32 idx010 0 None None)) /\
    forall q,
      in_bounds (size (returned src32 (scatter_sum int64 src32 idx010 0 None None))) q
      = true ->
      get out' q = get (returned src32 (scatter_sum int64 src32 idx010 0 None None)) q.
Proof.
  apply (scatter_sum_row_order int64 src32 idx010 0 None 0 3 [2; 0; 1]
           (returned src32 (scatter_sum int64 src32 idx010 0 None None))
           int64_add_comm int64_add_assoc eq_refl eq_refl eq_refl).
  - apply (Permutation_cons_app [0; 1] [] 2). apply Permutation_refl.
  - reflexivity.
Defined.

Example scatter_sum_reordered :
  observe (scatter_sum int64 (permute_rows src32 0 [2; 0; 1])
             (permute_rows idx010 0 [2; 0; 1]) 0 None None)
  = observe (scatter_sum int64 src32 idx010 0 None None).
Proof. reflexivity. Qed.

Section MeanRowOrder.

Context {A : Type} (dt : DType A).

(** X5.  The order of the rows does not matter to the mean either, under the
    same conditions: reordering the rows of the value buffer and the entries
    of the index by one permutation leaves the result of [scatter_mean]
    unchanged. *)
Theorem scatter_mean_row_order (src : Tensor A) (index : Tensor Z) (dim : Z)
  (dim_size : option Z) (d n : nat) (perm : list nat) (out : Tensor A) :
  (forall x y, add dt x y = add dt y x) ->
  (forall x y z, add dt (add dt x y) z = add dt x (add dt y z)) ->
  size index = [n] ->
  py_index (tdim src) dim = Ok d ->
  nth d (size src) 0 = n ->
  Permutation perm (seq 0 n) ->
  scatter_mean dt src index dim None dim_size = Ok out ->
  exists out',
    scatter_mean dt (permute_rows src d perm) (permute_rows index 0 perm)
      dim None dim_size = Ok out' /\
    size out' = size out /\
    forall q, in_bounds (size out) q = true -> get out' q = get out q.
Proof.
  intros C As Hi Hd Hn Hp H.
  pose proof (py_index_ok _ _ _ Hd) as Hlt.
  destruct (scatter_mean_returned dt src out index dim dim_size d n Hi Hd Hn H)
    as [ib [z [Hb [He [Hz Hr]]]]].
  destruct (scatter_mean_spec dt src index ib dim dim_size d n z
              Hi Hd Hn Hb He Hz Hr) as [out0 [E0 [Hs Hg]]].
  rewrite H in E0. inversion E0; subst out0; clear E0.
  set (src' := permute_rows src d perm). set (index' := permute_rows index 0 perm).
  assert (Hi' : size index' = [n]) by exact Hi.
  assert (Hd' : py_index (tdim src') dim = Ok d) by exact Hd.
  assert (Hn' : nth d (size src') 0 = n) by exact Hn.
  destruct (broadcast_1d index' src' dim d n Hi' Hd' Hn') as [ibp [Hbp _]].
  assert (Hep : out_extent ibp dim_size = Ok z).
  { rewrite (out_extent_permuted src index ib ibp dim dim_size d n perm
               Hi Hp Hb Hbp). exact He. }
  assert (Hr' : forall i, i < n -> (0 <= get index' [i] < z)%Z).
  { intros i Hlti. cbn. apply Hr. apply perm_seq_bound; assumption. }
  destruct (scatter_mean_spec dt src' index' ibp dim dim_size d n z
              Hi' Hd' Hn' Hbp Hep Hz Hr') as [out' [E' [Hs' Hg']]].
  assert (Hss : size out' = size out) by (rewrite Hs', Hs; reflexivity).
  exists out'. split; [exact E'|]. split; [exact Hss|].
  intros q Hq.
  assert (Hq' : in_bounds (size out') q = true) by (rewrite Hss; exact Hq).
  rewrite (Hg q Hq), (Hg' q Hq'). unfold rows_of_group.
  assert (Lq : d < length q).
  { apply in_bounds_length in Hq. rewrite Hs, set_nth_length in Hq.
    unfold tdim in Hlt. lia. }
  set (g := Z.of_nat (nth d q 0)).
  set (P := fun j => (get index [j] =? g)%Z).
  change (filter (fun i => (get index' [i] =? g)%Z) (seq 0 n))
    with (filter (fun i => P (nth i perm 0)) (seq 0 n)).
  change (filter (fun i => (get index [i] =? g)%Z) (seq 0 n))
    with (filter P (seq 0 n)).
  f_equal; [|f_equal]; unfold sum_list; apply (fold_add_permutation _ _ _ C As).
  - rewrite (map_ext_in _ (fun i => (fun j => get src (set_nth q d j)) (nth i perm 0))).
    + apply (rows_permuted (fun j => get src (set_nth q d j)) P perm n Hp).
    + intros i _. unfold src'. cbn [permute_rows get].
      rewrite nth_set_nth_eq by exact Lq. rewrite set_nth_set_nth. reflexivity.
  - apply (rows_permuted (fun _ => one dt) P perm n Hp).
Qed.

End MeanRowOrder.

Lemma scatter_mean_row_order_witness :
  exists out',
    scatter_mean int64 (permute_rows src32 0 [2; 0; 1])
      (permute_rows idx010 0 [2; 0; 1]) 0 None None = Ok out' /\
    size out' = size (returned src32 (scatter_mean int64 src32 idx010 0 None None)) /\
    forall q,
      in_bounds (size (returned src32 (scatter_mean int64 src32 idx010 0 None None))) q
      = true ->
      get out' q = get (returned src32 (scatter_mean int64 src32 idx010 0 None None)) q.
Proof.
  apply (scatter_mean_row_order int64 src32 idx010 0 None 0 3 [2; 0; 1]
           (returned src32 (scatter_mean int64 src32 idx010 0 None None))
           int64_add_comm int64_add_assoc eq_refl eq_refl eq_refl).
  - apply (Permutation_cons_app [0; 1] [] 2). apply Permutation_refl.
  - reflexivity.
Defined.

(** ** The index check of [scatter_mean] *)

Section MeanIndexCheck.

Context {A : Type} (dt : DType A).

(** X6.  [scatter_mean] checks every entry of an index with one entry per
    row, because it counts the rows by a second reduction over the index
    itself.  So where the sum returns although an entry lies outside the
    extent of its output, which a value buffer without element allows, the
    mean fails with the index error. *)
Theorem scatter_mean_checks_index (src out1 : Tensor A) (index : Tensor Z)
  (dim : Z) (dim_size : option Z) (d n i : nat) :
  size index = [n] ->
  py_index (tdim src) dim = Ok d ->
  nth d (size src) 0 = n ->
  scatter_sum dt src index dim None dim_size = Ok out1 ->
  i < n ->
  ~ (0 <= get index [i] < Z.of_nat (nth d (size out1) 0%nat))%Z ->
  scatter_mean dt src index dim None dim_size = Err IndexOutOfBounds.
Proof.
  intros Hi Hd Hn H1 Hlti Hbad.
  unfold scatter_mean. rewrite H1. cbn [bind].
  apply scatter_sum_inv in H1 as [ib [d' [z [Hb [Hd' [He [Hz Hs]]]]]]].
  rewrite Hd in Hd'. inversion Hd'; subst d'; clear Hd'.
  unfold size_at.
  replace (tdim out1) with (tdim src)
    by (unfold tdim; rewrite Hs, set_nth_length; reflexivity).
  rewrite Hd. cbn [bind].
  assert (Ti : tdim index = 1) by (unfold tdim; rewrite Hi; reflexivity).
  cbv zeta. rewrite (index_dim_1d src index dim d Ti Hd).
  assert (So : size (ones dt (size index)) = [n]) by (cbn; exact Hi).
  assert (Hd0 : py_index (tdim (ones dt (size index))) 0 = Ok 0).
  { unfold tdim. rewrite So. reflexivity. }
  destruct (broadcast_1d index (ones dt (size index)) 0 0 n Hi Hd0)
    as [ibc [Hbc [_ Gibc]]].
  { rewrite So. reflexivity. }
  assert (Hp : in_bounds (size (ones dt (size index))) [i] = true).
  { rewrite So. simpl. rewrite andb_true_r. apply Nat.ltb_lt. exact Hlti. }
  rewrite (scatter_sum_oob dt (ones dt (size index)) index ibc 0
             (Some (Z.of_nat (nth d (size out1) 0))) 0
             (Z.of_nat (nth d (size out1) 0)) [i] Hbc Hd0 eq_refl
             (Nat2Z.is_nonneg _) Hp).
  - reflexivity.
  - rewrite (Gibc [i] Hp). exact Hbad.
Qed.

End MeanIndexCheck.

Lemma scatter_mean_checks_index_witness :
  scatter_mean int64 src10 idx5 0 None (Some 2%Z) = Err IndexOutOfBounds.
Proof.
  apply (scatter_mean_checks_index int64 src10
           (returned src10 (scatter_sum int64 src10 idx5 0 None (Some 2%Z)))
           idx5 0 (Some 2%Z) 0 1 0 eq_refl eq_refl eq_refl eq_refl).
  - lia.
  - vm_compute. intros [_ H]. discriminate.
Defined.

(** ** A buffer that already has the shape *)

(** X7.  [broadcast] leaves a buffer that already has the shape of [other]
    as it is, element by element, whatever [dim], unless the buffer is 1-D
    and [dim] resolves to a positive axis (singleton axes are then put in
    front and the ranks no longer agree). *)
Theorem broadcast_same_shape {A B : Type} (src : Tensor A) (other : Tensor B)
  (dim : Z) :
  size src = size other ->
  (tdim src <> 1 \/ (broadcast_dim other dim <= 0)%Z ->
   exists r,
     broadcast src other dim = Ok r /\
     size r = size other /\
     forall p, in_bounds (size other) p = true -> get r p = get src p) /\
  (tdim src = 1 -> (0 < broadcast_dim other dim)%Z ->
   broadcast src other dim = Err ShapeMismatch).
Proof.
  intro Hs. split.
  - intro Hc.
    assert (F : front_axes src other dim = 0).
    { unfold front_axes. destruct (Nat.eqb_spec (tdim src) 1); [|reflexivity].
      destruct Hc as [Hc|Hc]; [contradiction|lia]. }
    assert (Sz : aligned_size src other dim = size src).
    { unfold aligned_size. rewrite F. cbn [repeat app Nat.add].
      unfold tdim. rewrite Hs, Nat.sub_diag. apply app_nil_r. }
    destruct (broadcast_result src other dim) as [H1 H2].
    rewrite Sz, F in H1. rewrite Sz in H2.
    destruct H2 as [r Hr]; [rewrite Hs; apply expandable_refl|].
    exists r. split; [exact Hr|]. destruct (H1 r Hr) as [S1 G]. split; [exact S1|].
    intros p Hp. rewrite (G p Hp). rewrite <- Hs in Hp.
    rewrite (expand_index_id _ _ Hp). cbn [skipn].
    unfold tdim. rewrite <- (in_bounds_length _ _ Hp), firstn_all. reflexivity.
  - intros H1 Hpos.
    destruct (broadcast_aligned src other dim) as [a [Sa [_ E]]]. rewrite E.
    destruct (expandable (size a) (size other)) eqn:X; [|reflexivity].
    apply expandable_length in X. rewrite Sa in X.
    unfold aligned_size, front_axes in X. rewrite H1 in X. cbn [Nat.eqb] in X.
    rewrite !length_app, !repeat_length in X. fold (tdim src) (tdim other) in X.
    assert (tdim other = 1) by (unfold tdim in *; rewrite <- Hs; exact H1). lia.
Qed.

Lemma broadcast_same_shape_witness :
  exists r,
    broadcast src32 src32 1 = Ok r /\
    size r = size src32 /\
    forall p, in_bounds (size src32) p = true -> get r p = get src32 p.
Proof.
  apply (proj1 (broadcast_same_shape src32 src32 1 eq_refl)).
  left. discriminate.
Defined.

(** ** A layer and the node without incoming edge *)

Section LayerRows.

Context {A : Type} (dt : DType A).

Variable torch_scatter_mul :
  Tensor A -> Tensor Z -> Z -> option (Tensor A) -> option Z -> result (Tensor A).
Variable torch_scatter_min :
  Tensor A -> Tensor Z -> Z -> option (Tensor A) -> option Z ->
  result (Tensor A * Tensor Z).
Variable torch_scatter_max :
  Tensor A -> Tensor Z -> Z -> option (Tensor A) -> option Z ->
  result (Tensor A * Tensor Z).

Local Abbreviation Layer_forward' :=
  (MPNNLayer_forward dt torch_scatter_mul torch_scatter_min torch_scatter_max).
Local Abbreviation aggregate' :=
  (aggregate dt torch_scatter_mul torch_scatter_min torch_scatter_max).

Lemma mlp_shape (m : MLP (A := A)) (x y : Tensor A) :
  mlp dt m x = Ok y ->
  size y = removelast (size x) ++ [out_features (fc2 m)].
Proof.
  unfold mlp. intro H. apply bind_ok in H as [h1 [H1 H]].
  apply bind_ok in H as [h2 [H2 H]]. inversion H; subst; clear H.
  apply linear_size in H1, H2. cbn [relu_ tmap size] in *.
  rewrite H2, H1, removelast_last. reflexivity.
Qed.

Lemma index_select_inv (t r : Tensor A) (dim : Z) (index : Tensor Z) :
  index_select t dim index = Ok r ->
  exists d e, maybe_wrap_dim (tdim t) dim = Ok d /\ size index = [e] /\
    size r = set_nth (size t) d e /\
    forall i, i < e -> (0 <= get index [i]%nat < Z.of_nat (nth d (size t) 0%nat))%Z.
Proof.
  unfold index_select. intro H. apply bind_ok in H as [d [Hd H]].
  destruct (size index) as [|e [|? ?]]; try discriminate.
  destruct (forallb _ _) eqn:F; [|discriminate]. inversion H. cbn [size].
  exists d, e. repeat split; try reflexivity; try exact Hd;
    rewrite forallb_forall in F;
    assert (In i (seq 0 e)) as Hin by (apply in_seq; lia);
    specialize (F i Hin); apply andb_true_iff in F as [F1 F2];
    [apply Z.leb_le in F1|apply Z.ltb_lt in F2]; assumption.
Qed.

Lemma select_row_inv {X : Type} (t r : Tensor X) (k : nat) :
  select_row t k = Ok r ->
  size r = tl (size t) /\ forall p, get r p = get t (k :: p).
Proof.
  unfold select_row. destruct (size t) as [|n rest]; [discriminate|].
  destruct (k <? n); [|discriminate]. intro H. inversion H. auto.
Qed.

(** What the message step returns, for node features of two axes. *)
Lemma message_shape (l : MPNNLayer (A := A)) (h_i h_j ea msg : Tensor A) (E F : nat) :
  size h_i = [E; F] ->
  message dt l h_i h_j ea = Ok msg ->
  size msg = [E; out_features (fc2 (mlp_msg l))].
Proof.
  intros Hi H. unfold message in H. unfold tdim in H. rewrite Hi in H.
  cbn [length Nat.eqb bind] in H.
  apply bind_ok in H as [c [Hc H]]. apply mlp_shape in H.
  apply cat_size in Hc; [|unfold tdim; rewrite Hi; simpl; lia].
  rewrite Hi in Hc. cbn in Hc. rewrite H, Hc. reflexivity.
Qed.

(** X8.  A layer that sums its messages cannot complete a forward pass on
    node features of two axes when the node of the highest number receives
    no message, that is when every destination in row 1 of the edge index is
    below [N - 1]: [aggregate] calls [scatter] without [dim_size], its
    output has one row per destination up to the largest one, and [update]
    cannot concatenate it with the [N] rows of the node features. *)
Theorem layer_needs_last_node (l : MPNNLayer (A := A)) (h ea : Tensor A)
  (ei : Tensor Z) (N F E : nat) :
  node_dim l = (-2)%Z ->
  aggr l = "add"%string \/ aggr l = "sum"%string ->
  size h = [N; F] ->
  size ei = [2; E] ->
  1 <= E ->
  (forall e, e < E -> (get ei [1; e]%nat < Z.of_nat N - 1)%Z) ->
  exists err, Layer_forward' l h ei ea = Err err.
Proof.
  intros Hn Ha Hh Hei HE Hlast.
  destruct (Layer_forward' l h ei ea) as [y|err] eqn:Hf; [exfalso|exists err; reflexivity].
  unfold MPNNLayer_forward, propagate in Hf.
  apply bind_ok in Hf as [u [_ Hf]].
  apply bind_ok in Hf as [row0 [_ Hf]]. apply bind_ok in Hf as [row1 [H1 Hf]].
  apply bind_ok in Hf as [h_i [Hi Hf]]. apply bind_ok in Hf as [h_j [_ Hf]].
  apply bind_ok in Hf as [msg [Hm Hf]]. apply bind_ok in Hf as [ao [Hag Hu]].
  apply select_row_inv in H1 as [S1 G1]. rewrite Hei in S1. cbn [tl] in S1.
  apply index_select_inv in Hi as [d [e [Hd [He [Si Ri]]]]].
  rewrite S1 in He. inversion He; subst e; clear He.
  rewrite Hn in Hd. unfold maybe_wrap_dim, tdim in Hd. rewrite Hh in Hd.
  inversion Hd; subst d; clear Hd. rewrite Hh in Si, Ri. cbn in Si, Ri.
  pose proof (message_shape l h_i h_j ea msg E F Si Hm) as Sm.
  set (w := out_features (fc2 (mlp_msg l))) in *.
  assert (Hs : scatter_sum dt msg row1 (-2) None None = Ok ao).
  { unfold aggregate in Hag. rewrite Hn in Hag.
    destruct Ha as [Ha|Ha]; rewrite Ha in Hag; exact Hag. }
  pose proof Hs as Hs'.
  apply scatter_sum_inv in Hs' as [ib [d [z [Hb [Hd [Hz [Hpos So]]]]]]].
  unfold tdim in Hd. rewrite Sm in Hd. inversion Hd; subst d; clear Hd.
  rewrite Sm in So. cbn [set_nth] in So.
  (* [update] wants as many rows as the node features have *)
  unfold update in Hu. apply bind_ok in Hu as [c [Hc _]].
  rewrite cat_pair in Hc by (unfold tdim; rewrite ?Hh, ?So; simpl; lia).
  unfold cat2 in Hc. rewrite Hh, So in Hc. cbn in Hc.
  destruct (Nat.eqb_spec N (Z.to_nat z)) as [EN|]; [|discriminate]. clear Hc.
  pose proof (Ri 0 ltac:(lia)) as R0.
  unfold out_extent in Hz.
  assert (Nb : numel ib = numel msg)
    by (unfold numel; rewrite (broadcast_size _ _ _ _ Hb); reflexivity).
  rewrite Nb in Hz. destruct (Nat.eqb_spec (numel msg) 0) as [Z0|Z0].
  - inversion Hz; subst z. simpl in EN. lia.
  - apply bind_ok in Hz as [m [Hmax Hz]]. inversion Hz; subst z; clear Hz.
    destruct (tensor_max_broadcast _ _ _ _ Hb Z0) as [m' [M1 M2]].
    rewrite Hmax in M2. inversion M2; subst m'; clear M2.
    destruct (tensor_max_spec _ _ M1) as [[q [Hq Gq]] _].
    rewrite S1 in Hq. destruct q as [|e [|? ?]]; simpl in Hq; try discriminate;
      [|rewrite andb_false_r in Hq; discriminate].
    rewrite andb_true_r in Hq. apply Nat.ltb_lt in Hq.
    rewrite G1 in Gq. pose proof (Hlast e Hq). lia.
Qed.

End LayerRows.

Lemma layer_needs_last_node_witness :
  exists l,
    MPNNLayer_init accept_all unit_param 1 2 "add" = Ok l /\
    exists err,
      MPNNLayer_forward int64 no_kernel no_kernel no_kernel l
        (mat 0%Z 1 [[1]; [2]; [3]]%Z) graph_edges graph_attr = Err err.
Proof.
  eexists. split; [reflexivity|].
  apply (layer_needs_last_node int64 no_kernel no_kernel no_kernel
           _ (mat 0%Z 1 [[1]; [2]; [3]]%Z) graph_attr graph_edges 3 1 2).
  - reflexivity.
  - left. reflexivity.
  - reflexivity.
  - reflexivity.
  - lia.
  - intros e He. destruct e as [|[|e]]; cbn; lia.
Defined.

(** ** When the operations of a layer return *)

Section LayerOps.

Context {A : Type} (dt : DType A).

Lemma rev_snoc_shape (lead : list nat) (k : nat) :
  rev (lead ++ [k]) = k :: rev lead.
Proof. rewrite rev_app_distr. reflexivity. Qed.

Lemma linear_ok (l : Linear (A := A)) (x : Tensor A) (lead : list nat) :
  size x = lead ++ [in_features l] ->
  exists y, linear dt l x = Ok y /\ size y = lead ++ [out_features l].
Proof.
  intro Hx. unfold linear. rewrite Hx, rev_snoc_shape, Nat.eqb_refl.
  eexists. split; [reflexivity|]. cbn [size]. rewrite removelast_last.
  reflexivity.
Qed.

Lemma mlp_ok (m : MLP (A := A)) (x : Tensor A) (lead : list nat) :
  size x = lead ++ [in_features (fc1 m)] ->
  in_features (fc2 m) = out_features (fc1 m) ->
  exists y, mlp dt m x = Ok y /\ size y = lead ++ [out_features (fc2 m)].
Proof.
  intros Hx Hm. unfold mlp.
  destruct (linear_ok (fc1 m) x lead Hx) as [h1 [H1 S1]]. rewrite H1.
  cbn [bind].
  assert (S1' : size (relu_ dt h1) = lead ++ [in_features (fc2 m)])
    by (rewrite Hm; exact S1).
  destruct (linear_ok (fc2 m) (relu_ dt h1) lead S1') as [h2 [H2 S2]].
  rewrite H2. cbn [bind]. eexists. split; [reflexivity|]. exact S2.
Qed.

Lemma cat2_ok (a b : Tensor A) (lead : list nat) (la lb : nat) :
  size a = lead ++ [la] -> size b = lead ++ [lb] ->
  exists c, cat2 a b = Ok c /\ size c = lead ++ [la + lb].
Proof.
  intros Ha Hb. unfold cat2. rewrite Ha, Hb, !rev_snoc_shape, idx_eqb_refl.
  eexists. split; [reflexivity|]. cbn [size]. rewrite removelast_last.
  reflexivity.
Qed.

Lemma select_row_ok {X : Type} (t : Tensor X) (k n : nat) (rest : list nat) :
  size t = n :: rest -> k < n ->
  select_row t k = Ok (mkTensor rest (fun p => get t (k :: p))).
Proof.
  intros Ht Hk. unfold select_row. rewrite Ht.
  destruct (Nat.ltb_spec k n); [reflexivity|lia].
Qed.

Lemma index_select_ok (t : Tensor A) (dim : Z) (index : Tensor Z) (d e : nat) :
  maybe_wrap_dim (tdim t) dim = Ok d ->
  size index = [e] ->
  (forall i, i < e -> (0 <= get index [i]%nat < Z.of_nat (nth d (size t) 0%nat))%Z) ->
  exists r, index_select t dim index = Ok r /\ size r = set_nth (size t) d e.
Proof.
  intros Hd He Hr. unfold index_select. rewrite Hd, He. cbn [bind].
  assert (F : forallb (fun i => ((0 <=? get index [i]%nat) &&
                 (get index [i]%nat <? Z.of_nat (nth d (size t) 0%nat)))%Z)
                (seq 0 e) = true).
  { apply forallb_forall. intros i Hi. apply in_seq in Hi.
    specialize (Hr i ltac:(lia)). apply andb_true_iff.
    split; [apply Z.leb_le|apply Z.ltb_lt]; lia. }
  rewrite F. eexists. split; reflexivity.
Qed.

End LayerOps.

(** ** A layer on a well-formed graph *)

Section LayerReturns.

Context {A : Type} (dt : DType A).

Variable torch_scatter_mul :
  Tensor A -> Tensor Z -> Z -> option (Tensor A) -> option Z -> result (Tensor A).
Variable torch_scatter_min :
  Tensor A -> Tensor Z -> Z -> option (Tensor A) -> option Z ->
  result (Tensor A * Tensor Z).
Variable torch_scatter_max :
  Tensor A -> Tensor Z -> Z -> option (Tensor A) -> option Z ->
  result (Tensor A * Tensor Z).
Variable MessagePassing_init : string -> result unit.
Variable init_param : list nat -> A.

Local Abbreviation Layer_init' := (MPNNLayer_init MessagePassing_init init_param).
Local Abbreviation Layer_forward' :=
  (MPNNLayer_forward dt torch_scatter_mul torch_scatter_min torch_scatter_max).

(** The summed messages: one row per node when the largest destination is
    the last node. *)
Lemma aggregate_rows (msg : Tensor A) (row1 : Tensor Z) (N E w : nat) :
  size msg = [E; w] ->
  size row1 = [E] ->
  1 <= w ->
  (forall e, e < E -> (0 <= get row1 [e]%nat < Z.of_nat N)%Z) ->
  (exists e, e < E /\ get row1 [e]%nat = (Z.of_nat N - 1)%Z) ->
  exists ao, scatter_sum dt msg row1 (-2) None None = Ok ao /\ size ao = [N; w].
Proof.
  intros Sm S1 Hw Hr [e0 [He0 Ge0]].
  assert (Hd : py_index (tdim msg) (-2) = Ok 0)
    by (unfold tdim; rewrite Sm; reflexivity).
  destruct (broadcast_1d row1 msg (-2) 0 E S1 Hd) as [ib [Hb [Sb Gb]]];
    [rewrite Sm; reflexivity|].
  assert (Z0 : numel msg <> 0) by (unfold numel; rewrite Sm; cbn; nia).
  destruct (tensor_max_broadcast row1 ib msg (-2) Hb Z0) as [m [M1 M2]].
  destruct (tensor_max_spec row1 m M1) as [[q [Hq Gq]] Hle].
  rewrite S1 in Hq, Hle.
  destruct q as [|e [|? ?]]; simpl in Hq; try discriminate;
    [|rewrite andb_false_r in Hq; discriminate].
  rewrite andb_true_r in Hq. apply Nat.ltb_lt in Hq.
  assert (Hm : m = (Z.of_nat N - 1)%Z).
  { pose proof (Hr e Hq) as R.
    assert (B0 : in_bounds [E] [e0] = true)
      by (simpl; rewrite andb_true_r; apply Nat.ltb_lt; exact He0).
    pose proof (Hle [e0] B0). lia. }
  assert (Hz : out_extent ib None = Ok (Z.of_nat N)).
  { unfold out_extent.
    replace (numel ib) with (numel msg) by (unfold numel; rewrite Sb; reflexivity).
    destruct (Nat.eqb_spec (numel msg) 0); [contradiction|].
    rewrite M2. cbn [bind]. f_equal. lia. }
  destruct (scatter_sum_spec dt msg row1 ib (-2) None 0 (Z.of_nat N) Hb Hd Hz)
    as [ao [Ho [So _]]].
  - lia.
  - intros p Hp. rewrite (Gb p Hp). apply Hr.
    pose proof (in_bounds_nth (size msg) p 0 Hp) as B. rewrite Sm in B.
    apply B. simpl. lia.
  - exists ao. split; [exact Ho|]. rewrite So, Sm, Nat2Z.id. reflexivity.
Qed.

(** A constructed layer on a well-formed graph. *)
Lemma layer_forward_ok (l : MPNNLayer (A := A)) (h ea : Tensor A)
  (ei : Tensor Z) (k : string) (emb ed N E : nat) :
  Layer_init' emb ed k = Ok l ->
  k = "add"%string \/ k = "sum"%string ->
  1 <= emb ->
  size h = [N; emb] ->
  size ei = [2; E] ->
  size ea = [E; ed] ->
  (forall r e, r < 2 -> e < E -> (0 <= get ei [r; e]%nat < Z.of_nat N)%Z) ->
  (exists e, e < E /\ get ei [1; e]%nat = (Z.of_nat N - 1)%Z) ->
  exists y, Layer_forward' l h ei ea = Ok y /\ size y = [N; emb].
Proof.
  intros Hl Hk Hemb Sh Sei Sea Hr Hlast.
  unfold MPNNLayer_init in Hl. apply bind_ok in Hl as [u [_ Hl]].
  injection Hl as Hl'.
  assert (Hn : node_dim l = (-2)%Z) by (rewrite <- Hl'; reflexivity).
  assert (Hag : aggr l = k) by (rewrite <- Hl'; reflexivity).
  assert (Hm1 : in_features (fc1 (mlp_msg l)) = emb + emb + ed)
    by (rewrite <- Hl'; cbn; lia).
  assert (Hm2 : in_features (fc2 (mlp_msg l)) = out_features (fc1 (mlp_msg l)))
    by (rewrite <- Hl'; reflexivity).
  assert (Hm3 : out_features (fc2 (mlp_msg l)) = emb)
    by (rewrite <- Hl'; reflexivity).
  assert (Hu1 : in_features (fc1 (mlp_upd l)) = emb + emb)
    by (rewrite <- Hl'; cbn; lia).
  assert (Hu2 : in_features (fc2 (mlp_upd l)) = out_features (fc1 (mlp_upd l)))
    by (rewrite <- Hl'; reflexivity).
  assert (Hu3 : out_features (fc2 (mlp_upd l)) = emb)
    by (rewrite <- Hl'; reflexivity).
  clear Hl'.
  unfold MPNNLayer_forward, propagate.
  rewrite Sei. cbn [bind].
  rewrite (select_row_ok ei 0 2 [E] Sei ltac:(lia)).
  rewrite (select_row_ok ei 1 2 [E] Sei ltac:(lia)). cbn [bind].
  set (row0 := mkTensor [E] (fun p => get ei (0 :: p))).
  set (row1 := mkTensor [E] (fun p => get ei (1 :: p))).
  rewrite Hn.
  assert (Hd : maybe_wrap_dim (tdim h) (-2) = Ok 0)
    by (unfold tdim; rewrite Sh; reflexivity).
  destruct (index_select_ok h (-2) row1 0 E Hd eq_refl) as [h_i [Hi Si]].
  { intros i Hi. rewrite Sh. apply (Hr 1 i); lia. }
  destruct (index_select_ok h (-2) row0 0 E Hd eq_refl) as [h_j [Hj Sj]].
  { intros i Hi'. rewrite Sh. apply (Hr 0 i); lia. }
  rewrite Sh in Si, Sj. cbn [set_nth] in Si, Sj.
  rewrite Hi, Hj. cbn [bind].
  (* message *)
  unfold message. unfold tdim at 1 2. rewrite Si. cbn [length Nat.eqb bind].
  rewrite cat_triple by (unfold tdim; rewrite ?Si, ?Sj, ?Sea, ?Seb; simpl; lia).
  destruct (cat2_ok h_i h_j [E] emb emb Si Sj) as [c1 [Hc1 Sc1]].
  rewrite Hc1. cbn [bind].
  destruct (cat2_ok c1 ea [E] (emb + emb) ed Sc1 Sea) as [c2 [Hc2 Sc2]].
  rewrite Hc2. cbn [bind].
  destruct (mlp_ok dt (mlp_msg l) c2 [E]) as [msg [Hm Sm]];
    [rewrite Sc2, Hm1; reflexivity|exact Hm2|].
  rewrite Hm. cbn [bind]. rewrite Hm3 in Sm.
  (* aggregate *)
  destruct (aggregate_rows msg row1 N E emb Sm eq_refl Hemb) as [ao [Ha Sa]].
  { intros e He. apply (Hr 1 e); lia. }
  { exact Hlast. }
  assert (Ha' : aggregate dt torch_scatter_mul torch_scatter_min torch_scatter_max
                  l msg row1 = Ok ao).
  { unfold aggregate. rewrite Hn, Hag.
    destruct Hk as [Hk|Hk]; rewrite Hk; exact Ha. }
  rewrite Ha'. cbn [bind].
  (* update *)
  unfold update.
  rewrite cat_pair by (unfold tdim; rewrite ?Sh, ?Sa; simpl; lia).
  destruct (cat2_ok h ao [N] emb emb Sh Sa) as [c3 [Hc3 Sc3]].
  rewrite Hc3. cbn [bind].
  destruct (mlp_ok dt (mlp_upd l) c3 [N]) as [y [Hy Sy]];
    [rewrite Sc3, Hu1; reflexivity|exact Hu2|].
  exists y. split; [exact Hy|]. rewrite Sy, Hu3. reflexivity.
Qed.

Lemma linear_at_ext (l : Linear (A := A)) (xs xs' : nat -> A) (o : nat) :
  (forall i, i < in_features l -> xs i = xs' i) ->
  linear_at dt l xs o = linear_at dt l xs' o.
Proof.
  intro H. unfold linear_at. do 2 f_equal. apply map_ext_in.
  intros i Hi. apply in_seq in Hi. rewrite (H i) by lia. reflexivity.
Qed.

Lemma mlp_at_ext (m : MLP (A := A)) (xs xs' : nat -> A) (o : nat) :
  (forall i, i < in_features (fc1 m) -> xs i = xs' i) ->
  mlp_at dt m xs o = mlp_at dt m xs' o.
Proof.
  intro H. unfold mlp_at. f_equal. apply linear_at_ext. intros i _. f_equal.
  apply linear_at_ext. exact H.
Qed.

Lemma linear_get (l : Linear (A := A)) (x y : Tensor A) :
  linear dt l x = Ok y ->
  forall p, get y p =
            linear_at dt l (fun i => get x (removelast p ++ [i])) (last p 0).
Proof.
  unfold linear. destruct (rev (size x)) as [|k ?]; [discriminate|].
  destruct (k =? in_features l); [|discriminate].
  intro H. inversion H. reflexivity.
Qed.

Lemma mlp_get (m : MLP (A := A)) (x y : Tensor A) :
  mlp dt m x = Ok y ->
  forall p, get y p =
            mlp_at dt m (fun i => get x (removelast p ++ [i])) (last p 0).
Proof.
  unfold mlp. intro H. apply bind_ok in H as [h1 [H1 H]].
  apply bind_ok in H as [h2 [H2 H]]. inversion H; subst y; clear H.
  intro p. cbn [relu_ tmap get]. rewrite (linear_get _ _ _ H2 p).
  unfold mlp_at. f_equal. apply linear_at_ext. intros i _.
  cbn [relu_ tmap get]. f_equal.
  rewrite (linear_get _ _ _ H1 (removelast p ++ [i])).
  rewrite removelast_last, last_last. reflexivity.
Qed.

Lemma cat2_get (a b c : Tensor A) (lead : list nat) (la : nat) :
  size a = lead ++ [la] ->
  cat2 a b = Ok c ->
  forall p, get c p = if last p 0 <? la then get a p
                      else get b (removelast p ++ [last p 0 - la]).
Proof.
  intros Ha. unfold cat2. rewrite Ha, rev_snoc_shape.
  destruct (rev (size b)) as [|lb lead_b]; [discriminate|].
  destruct (idx_eqb _ _); [|discriminate]. intro H. inversion H. reflexivity.
Qed.

Lemma index_select_get (t r : Tensor A) (dim : Z) (index : Tensor Z) (d : nat) :
  maybe_wrap_dim (tdim t) dim = Ok d ->
  index_select t dim index = Ok r ->
  forall p, get r p = get t (set_nth p d (Z.to_nat (get index [nth d p 0]))).
Proof.
  intros Hd. unfold index_select. rewrite Hd. cbn [bind].
  destruct (size index) as [|e [|? ?]]; try discriminate.
  destruct (forallb _ _); [|discriminate]. intro H. inversion H. reflexivity.
Qed.

(** What a constructed layer returns on a well-formed graph. *)
Lemma layer_forward_values (l : MPNNLayer (A := A)) (h ea : Tensor A)
  (ei : Tensor Z) (k : string) (emb ed N E : nat) :
  Layer_init' emb ed k = Ok l ->
  k = "add"%string \/ k = "sum"%string ->
  1 <= emb ->
  size h = [N; emb] ->
  size ei = [2; E] ->
  size ea = [E; ed] ->
  (forall r e, r < 2 -> e < E -> (0 <= get ei [r; e]%nat < Z.of_nat N)%Z) ->
  (exists e, e < E /\ get ei [1; e]%nat = (Z.of_nat N - 1)%Z) ->
  exists y,
    Layer_forward' l h ei ea = Ok y /\
    size y = [N; emb] /\
    forall v j, v < N -> j < emb -> get y [v; j] = node_update dt l h ea ei v j.
Proof.
  intros Hl Hk Hemb Sh Sei Sea Hr Hlast.
  destruct (layer_forward_ok l h ea ei k emb ed N E Hl Hk Hemb Sh Sei Sea Hr Hlast)
    as [y [Hy Sy]].
  exists y. split; [exact Hy|]. split; [exact Sy|]. intros v j Hv Hj.
  unfold MPNNLayer_init in Hl. apply bind_ok in Hl as [u [_ Hl]].
  injection Hl as Hl'.
  assert (Hn : node_dim l = (-2)%Z) by (rewrite <- Hl'; reflexivity).
  assert (Hag : aggr l = k) by (rewrite <- Hl'; reflexivity).
  assert (Hm1 : in_features (fc1 (mlp_msg l)) = emb + emb + ed)
    by (rewrite <- Hl'; cbn; lia).
  assert (Hm3 : out_features (fc2 (mlp_msg l)) = emb)
    by (rewrite <- Hl'; reflexivity).
  assert (Hu1 : in_features (fc1 (mlp_upd l)) = emb + emb)
    by (rewrite <- Hl'; cbn; lia).
  clear Hl'.
  (* the steps of the pass *)
  unfold MPNNLayer_forward, propagate in Hy. rewrite Sei in Hy.
  cbn [bind] in Hy.
  rewrite (select_row_ok ei 0 2 [E] Sei ltac:(lia)) in Hy.
  rewrite (select_row_ok ei 1 2 [E] Sei ltac:(lia)) in Hy. cbn [bind] in Hy.
  set (row0 := mkTensor [E] (fun p => get ei (0 :: p))) in Hy.
  set (row1 := mkTensor [E] (fun p => get ei (1 :: p))) in Hy.
  rewrite Hn in Hy.
  assert (Hd : maybe_wrap_dim (tdim h) (-2) = Ok 0)
    by (unfold tdim; rewrite Sh; reflexivity).
  apply bind_ok in Hy as [h_i [Hsi Hy]]. apply bind_ok in Hy as [h_j [Hsj Hy]].
  apply bind_ok in Hy as [msg [Hm Hy]]. apply bind_ok in Hy as [ao [Ha Hy]].
  assert (Si : size h_i = [E; emb]).
  { destruct (index_select_inv h h_i (-2) row1 Hsi) as [d [e [Hd' [He [S _]]]]].
    rewrite Hd in Hd'. injection Hd' as <-. injection He as <-.
    rewrite S, Sh. reflexivity. }
  assert (Sj : size h_j = [E; emb]).
  { destruct (index_select_inv h h_j (-2) row0 Hsj) as [d [e [Hd' [He [S _]]]]].
    rewrite Hd in Hd'. injection Hd' as <-. injection He as <-.
    rewrite S, Sh. reflexivity. }
  pose proof (message_shape dt l h_i h_j ea msg E emb Si Hm) as Sm.
  rewrite Hm3 in Sm.
  unfold message in Hm. unfold tdim in Hm. rewrite Si in Hm.
  cbn [length Nat.eqb bind] in Hm.
  rewrite cat_triple in Hm by (unfold tdim; rewrite ?Si, ?Sj, ?Sea, ?Seb; simpl; lia).
  apply bind_ok in Hm as [c2 [Hc2 Hm]]. apply bind_ok in Hc2 as [c1 [Hc1 Hc2]].
  assert (Sc1 : size c1 = [E; emb + emb]).
  { destruct (cat2_ok h_i h_j [E] emb emb Si Sj) as [c [Hc Sc]].
    rewrite Hc1 in Hc. injection Hc as <-. exact Sc. }
  unfold update in Hy. apply bind_ok in Hy as [c3 [Hc3 Hy]].
  (* the summed messages *)
  assert (Hs : scatter_sum dt msg row1 (-2) None None = Ok ao).
  { unfold aggregate in Ha. rewrite Hn, Hag in Ha.
    destruct Hk as [Hk|Hk]; rewrite Hk in Ha; exact Ha. }
  assert (Sa : size ao = [N; emb]).
  { destruct (aggregate_rows msg row1 N E emb Sm eq_refl Hemb) as [ao' [Ha' Sa]].
    - intros e He. apply (Hr 1 e); lia.
    - exact Hlast.
    - rewrite Hs in Ha'. injection Ha' as <-. exact Sa. }
  rewrite cat_pair in Hc3 by (unfold tdim; rewrite ?Sh, ?Sa; simpl; lia).
  assert (Hsum : forall j', j' < emb ->
            get ao [v; j'] = node_sum dt l h ea ei v j').
  { intros j' Hj'.
    destruct (scatter_sum_returned dt msg ao row1 (-2) None Hs)
      as [ib [d [z [Hb [Hd' [_ [_ [_ [_ Hval]]]]]]]]].
    assert (Hd0 : py_index (tdim msg) (-2) = Ok 0)
      by (unfold tdim; rewrite Sm; reflexivity).
    rewrite Hd0 in Hd'. injection Hd' as <-.
    destruct (broadcast_1d row1 msg (-2) 0 E eq_refl Hd0) as [ib' [Hb' [_ Gb]]];
      [rewrite Sm; reflexivity|].
    rewrite Hb in Hb'. injection Hb' as <-.
    assert (Bq : in_bounds (size ao) [v; j'] = true).
    { rewrite Sa. simpl. rewrite andb_true_r. apply andb_true_iff.
      split; apply Nat.ltb_lt; assumption. }
    rewrite (Hval [v; j'] Bq). unfold group_sum.
    rewrite (group_rows_1d msg row1 ib 0 N [v; j']).
    - rewrite Sm. cbn [nth set_nth]. unfold node_sum, incoming, rows_of_group.
      rewrite Sei. cbn [nth]. f_equal. apply map_ext. intro e.
      rewrite (mlp_get _ _ _ Hm [e; j']). cbn [removelast last app].
      unfold edge_message. apply mlp_at_ext. intros i _.
      rewrite (cat2_get c1 ea c2 [E] (emb + emb) Sc1 Hc2 [e; i]).
      cbn [removelast last app]. unfold edge_input. rewrite Sh. cbn [nth].
      destruct (i <? emb + emb); [|reflexivity].
      rewrite (cat2_get h_i h_j c1 [E] emb Si Hc1 [e; i]).
      cbn [removelast last app].
      destruct (i <? emb).
      + rewrite (index_select_get h h_i (-2) row1 0 Hd Hsi [e; i]). reflexivity.
      + rewrite (index_select_get h h_j (-2) row0 0 Hd Hsj [e; (i - emb)]).
        reflexivity.
    - unfold tdim. rewrite Sm. simpl. lia.
    - exact Gb.
    - rewrite Sm. cbn [set_nth]. rewrite <- Sa. exact Bq. }
  (* the update *)
  rewrite (mlp_get _ _ _ Hy [v; j]). cbn [removelast last app].
  unfold node_update. rewrite Sh. cbn [nth]. apply mlp_at_ext.
  intros i Hi'. rewrite Hu1 in Hi'.
  rewrite (cat2_get h ao c3 [N] emb Sh Hc3 [v; i]). cbn [removelast last app].
  destruct (Nat.ltb_spec i emb); [reflexivity|]. apply Hsum. lia.
Qed.

(** X9.  A layer built by the constructor with the reduction add (or sum)
    computes the message-passing equation on a well-formed graph ([N] nodes
    with [emb >= 1] features each, an edge index of shape [2; E] with every
    node number in [[0, N)], edge attributes of shape [E; edge_dim], at
    least one edge into the last node): the forward pass returns, keeps the
    shape [N; emb], and feature [j] of node [v] is the update network
    applied to the features of [v] followed by the sum, over the edges into
    [v] in the order of the edge index, of the message network applied to
    the features of the destination, of the source and of the edge. *)
Theorem layer_forward_equation (l : MPNNLayer (A := A)) (h ea : Tensor A)
  (ei : Tensor Z) (k : string) (emb ed N E : nat) :
  Layer_init' emb ed k = Ok l ->
  k = "add"%string \/ k = "sum"%string ->
  1 <= emb ->
  size h = [N; emb] ->
  size ei = [2; E] ->
  size ea = [E; ed] ->
  (forall r e, r < 2 -> e < E -> (0 <= get ei [r; e]%nat < Z.of_nat N)%Z) ->
  (exists e, e < E /\ get ei [1; e]%nat = (Z.of_nat N - 1)%Z) ->
  exists y,
    Layer_forward' l h ei ea = Ok y /\
    size y = [N; emb] /\
    forall v j, v < N -> j < emb -> get y [v; j] = node_update dt l h ea ei v j.
Proof.
  exact (layer_forward_values l h ea ei k emb ed N E).
Qed.

Local Abbreviation Model_init' := (MPNNModel_init MessagePassing_init init_param).
Local Abbreviation run_convs' :=
  (run_convs dt torch_scatter_mul torch_scatter_min torch_scatter_max).
Local Abbreviation predict_fn' :=
  (predict_fn dt torch_scatter_mul torch_scatter_min torch_scatter_max).

Lemma make_convs_layers (n emb ed : nat) (cs : list (MPNNLayer (A := A))) :
  make_convs MessagePassing_init init_param n emb ed = Ok cs ->
  Forall (fun l => Layer_init' emb ed "add" = Ok l) cs.
Proof.
  revert cs. induction n as [|n IH]; intros cs H; simpl in H.
  - inversion H. constructor.
  - apply bind_ok in H as [c [Hc H]]. apply bind_ok in H as [rest [Hr H]].
    inversion H; subst cs. constructor; [exact Hc|exact (IH rest Hr)].
Qed.

Lemma run_convs_ok (cs : list (MPNNLayer (A := A))) (h ea : Tensor A)
  (ei : Tensor Z) (emb ed N E : nat) :
  Forall (fun l => Layer_init' emb ed "add" = Ok l) cs ->
  1 <= emb ->
  size h = [N; emb] ->
  size ei = [2; E] ->
  size ea = [E; ed] ->
  (forall r e, r < 2 -> e < E -> (0 <= get ei [r; e]%nat < Z.of_nat N)%Z) ->
  (exists e, e < E /\ get ei [1; e]%nat = (Z.of_nat N - 1)%Z) ->
  exists y, run_convs' cs ei ea h = Ok y /\ size y = [N; emb].
Proof.
  intros Hcs Hemb Sh Sei Sea Hr Hlast. revert h Sh.
  induction Hcs as [|c cs Hc _ IH]; intros h Sh.
  - exists h. split; [reflexivity|exact Sh].
  - rewrite run_convs_cons.
    destruct (layer_forward_ok c h ea ei "add" emb ed N E Hc
                (or_introl eq_refl) Hemb Sh Sei Sea Hr Hlast) as [h' [Hh' Sh']].
    rewrite Hh'. cbn [bind]. exact (IH h' Sh').
Qed.

(** What a constructed model returns on a well-formed graph. *)
Lemma model_forward_ok (m : MPNNModel (A := A)) (x ea : Tensor A)
  (ei : Tensor Z) (in_dim n emb out_dim N E ed : nat) :
  Model_init' ei ea in_dim n emb out_dim = Ok m ->
  1 <= emb ->
  size x = [N; in_dim] ->
  size ei = [2; E] ->
  size ea = [E; ed] ->
  (forall r e, r < 2 -> e < E -> (0 <= get ei [r; e]%nat < Z.of_nat N)%Z) ->
  (exists e, e < E /\ get ei [1; e]%nat = (Z.of_nat N - 1)%Z) ->
  exists y, predict_fn' x m = Ok y /\
            size y = if out_dim =? 1 then [N] else [N; out_dim].
Proof.
  intros Hm Hemb Sx Sei Sea Hr Hlast.
  unfold MPNNModel_init in Hm. apply bind_ok in Hm as [k [Hk Hm]].
  apply bind_ok in Hm as [cs [Hcs Hm]]. injection Hm as Hm.
  unfold tdim in Hk. rewrite Sea in Hk. injection Hk as Hk. subst k.
  rewrite Sea in Hcs. cbn [nth] in Hcs.
  apply make_convs_layers in Hcs.
  unfold predict_fn, MPNNModel_forward. rewrite <- Hm.
  cbn [lin_in1 lin_in2 convs edge_index edge_attr lin_pred1 lin_pred2].
  destruct (linear_ok dt (Linear_init init_param in_dim emb) x [N] Sx)
    as [h1 [H1 S1]].
  rewrite H1. cbn [bind].
  destruct (linear_ok dt (Linear_init init_param emb emb) (relu_ dt h1) [N] S1)
    as [h2 [H2 S2]].
  rewrite H2. cbn [bind].
  destruct (run_convs_ok cs (relu_ dt h2) ea ei emb ed N E Hcs Hemb S2 Sei Sea
              Hr Hlast) as [h3 [H3 S3]].
  rewrite H3. cbn [bind].
  destruct (linear_ok dt (Linear_init init_param emb emb) h3 [N] S3)
    as [h4 [H4 S4]].
  rewrite H4. cbn [bind].
  destruct (linear_ok dt (Linear_init init_param emb out_dim) (relu_ dt h4) [N] S4)
    as [y [Hy Sy]].
  rewrite Hy. cbn [bind]. eexists. split; [reflexivity|].
  cbn [out_features Linear_init] in Sy.
  destruct (Nat.eqb_spec out_dim 1) as [O1|O1].
  - subst out_dim. rewrite (squeeze_last_one y [N] Sy). reflexivity.
  - rewrite (squeeze_last_other y [N] out_dim Sy O1). exact Sy.
Qed.

(** X10.  A model built by the constructor answers every well-formed
    request: for node features of shape [N; in_dim] over a graph whose edge
    index has shape [2; E] with node numbers in [[0, N)] and an edge into
    the last node, edge attributes of shape [E; edge_dim] and an embedding
    width of at least 1, [predict_fn] returns, with one value per node when
    [out_dim] is 1 and with shape [N; out_dim] otherwise, whatever the
    number of layers. *)
Theorem predict_returns (m : MPNNModel (A := A)) (x ea : Tensor A)
  (ei : Tensor Z) (in_dim n emb out_dim N E ed : nat) :
  Model_init' ei ea in_dim n emb out_dim = Ok m ->
  1 <= emb ->
  size x = [N; in_dim] ->
  size ei = [2; E] ->
  size ea = [E; ed] ->
  (forall r e, r < 2 -> e < E -> (0 <= get ei [r; e]%nat < Z.of_nat N)%Z) ->
  (exists e, e < E /\ get ei [1; e]%nat = (Z.of_nat N - 1)%Z) ->
  exists y, predict_fn' x m = Ok y /\
            size y = if out_dim =? 1 then [N] else [N; out_dim].
Proof.
  exact (model_forward_ok m x ea ei in_dim n emb out_dim N E ed).
Qed.

End LayerReturns.

Lemma layer_forward_equation_witness :
  exists l,
    MPNNLayer_init accept_all unit_param 1 2 "add" = Ok l /\
    exists y,
      MPNNLayer_forward int64 no_kernel no_kernel no_kernel l
        two_nodes graph_edges graph_attr = Ok y /\
      size y = [2; 1] /\
      forall v j, v < 2 -> j < 1 ->
        get y [v; j] = node_update int64 l two_nodes graph_attr graph_edges v j.
Proof.
  eexists. split; [reflexivity|].
  apply (layer_forward_equation int64 no_kernel no_kernel no_kernel
           accept_all unit_param _ two_nodes graph_attr graph_edges
           "add" 1 2 2 2).
  - reflexivity.
  - left. reflexivity.
  - lia.
  - reflexivity.
  - reflexivity.
  - reflexivity.
  - intros r e Hr He. destruct r as [|[|r]], e as [|[|e]]; cbn; lia.
  - exists 0. split; [lia|reflexivity].
Defined.

Lemma predict_returns_witness :
  exists m,
    MPNNModel_init accept_all unit_param graph_edges graph_attr 1 2 1 1 = Ok m /\
    exists y,
      predict_fn int64 no_kernel no_kernel no_kernel two_nodes m = Ok y /\
      size y = [2].
Proof.
  eexists. split; [reflexivity|].
  apply (predict_returns int64 no_kernel no_kernel no_kernel
           accept_all unit_param _ two_nodes graph_attr graph_edges
           1 2 1 1 2 2 2).
  - reflexivity.
  - lia.
  - reflexivity.
  - reflexivity.
  - reflexivity.
  - intros r e Hr He. destruct r as [|[|r]], e as [|[|e]]; cbn; lia.
  - exists 0. split; [lia|reflexivity].
Defined.

(** The equation and the batched code on the graph of two nodes. *)
Example layer_equation_two_nodes :
  fmap (fun l => map (fun v => node_update int64 l two_nodes graph_attr
                                 graph_edges v 0) [0; 1])
       (MPNNLayer_init accept_all unit_param 1 2 "add") = Ok [9; 10]%Z /\
  observe (l <- MPNNLayer_init accept_all unit_param 1 2 "add" ;;
           MPNNLayer_forward int64 no_kernel no_kernel no_kernel l
             two_nodes graph_edges graph_attr) = Ok ([2; 1], [9; 10]%Z).
Proof. split; vm_compute; reflexivity. Qed.

(** ** A batch of node features *)

Section LayerBatch.

Context {A : Type} (dt : DType A).

Variable torch_scatter_mul :
  Tensor A -> Tensor Z -> Z -> option (Tensor A) -> option Z -> result (Tensor A).
Variable torch_scatter_min :
  Tensor A -> Tensor Z -> Z -> option (Tensor A) -> option Z ->
  result (Tensor A * Tensor Z).
Variable torch_scatter_max :
  Tensor A -> Tensor Z -> Z -> option (Tensor A) -> option Z ->
  result (Tensor A * Tensor Z).
Variable MessagePassing_init : string -> result unit.
Variable init_param : list nat -> A.

Local Abbreviation Layer_init' := (MPNNLayer_init MessagePassing_init init_param).
Local Abbreviation Layer_forward' :=
  (MPNNLayer_forward dt torch_scatter_mul torch_scatter_min torch_scatter_max).

(** [t.repeat(B, 1, 1)] of a matrix: [B] copies of it. *)
Lemma repeat_batch (t : Tensor A) (B E ed : nat) :
  size t = [E; ed] ->
  exists r, repeat_ t [B; 1; 1] = Ok r /\ size r = [B; E; ed] /\
    forall b e k, e < E -> k < ed -> get r [b; e; k] = get t [e; k].
Proof.
  intro St. unfold repeat_, tdim. rewrite St. cbn [length Nat.ltb Nat.leb Nat.sub].
  eexists. split; [reflexivity|]. split.
  - cbn. rewrite !Nat.mul_1_r, Nat.add_0_r. reflexivity.
  - intros b e k He Hk. cbn. rewrite !Nat.mod_small by assumption. reflexivity.
Qed.

(** The summed messages of a batch: one row per node in every slice. *)
Lemma aggregate_batch (msg : Tensor A) (row1 : Tensor Z) (B N E w : nat) :
  size msg = [B; E; w] ->
  size row1 = [E] ->
  1 <= B -> 1 <= w ->
  (forall e, e < E -> (0 <= get row1 [e]%nat < Z.of_nat N)%Z) ->
  (exists e, e < E /\ get row1 [e]%nat = (Z.of_nat N - 1)%Z) ->
  exists ao,
    scatter_sum dt msg row1 (-2) None None = Ok ao /\
    size ao = [B; N; w] /\
    forall b v j, b < B -> v < N -> j < w ->
      get ao [b; v; j] =
      sum_list dt (map (fun e => get msg [b; e; j]) (rows_of_group row1 E v)).
Proof.
  intros Sm S1 HB Hw Hr [e0 [He0 Ge0]].
  assert (Hd : py_index (tdim msg) (-2) = Ok 1)
    by (unfold tdim; rewrite Sm; reflexivity).
  destruct (broadcast_1d row1 msg (-2) 1 E S1 Hd) as [ib [Hb [Sb Gb]]];
    [rewrite Sm; reflexivity|].
  assert (Z0 : numel msg <> 0).
  { unfold numel. rewrite Sm. cbn. rewrite Nat.mul_1_r.
    apply Nat.neq_mul_0. split; [lia|]. apply Nat.neq_mul_0. lia. }
  destruct (tensor_max_broadcast row1 ib msg (-2) Hb Z0) as [m [M1 M2]].
  destruct (tensor_max_spec row1 m M1) as [[q [Hq Gq]] Hle].
  rewrite S1 in Hq, Hle.
  destruct q as [|e [|? ?]]; simpl in Hq; try discriminate;
    [|rewrite andb_false_r in Hq; discriminate].
  rewrite andb_true_r in Hq. apply Nat.ltb_lt in Hq.
  assert (Hm : m = (Z.of_nat N - 1)%Z).
  { pose proof (Hr e Hq) as R.
    assert (B0 : in_bounds [E] [e0] = true)
      by (simpl; rewrite andb_true_r; apply Nat.ltb_lt; exact He0).
    pose proof (Hle [e0] B0). lia. }
  assert (Hz : out_extent ib None = Ok (Z.of_nat N)).
  { unfold out_extent.
    replace (numel ib) with (numel msg) by (unfold numel; rewrite Sb; reflexivity).
    destruct (Nat.eqb_spec (numel msg) 0); [contradiction|].
    rewrite M2. cbn [bind]. f_equal. lia. }
  destruct (scatter_sum_spec dt msg row1 ib (-2) None 1 (Z.of_nat N) Hb Hd Hz)
    as [ao [Ho [So Hval]]].
  - lia.
  - intros p Hp. rewrite (Gb p Hp). apply Hr.
    pose proof (in_bounds_nth (size msg) p 1 Hp) as Bd. rewrite Sm in Bd.
    apply Bd. simpl. lia.
  - assert (Sa : size ao = [B; N; w])
      by (rewrite So, Sm, Nat2Z.id; reflexivity).
    exists ao. split; [exact Ho|]. split; [exact Sa|].
    intros b v j Hb' Hv Hj.
    assert (Bq : in_bounds (size ao) [b; v; j] = true).
    { rewrite Sa. simpl. rewrite andb_true_r.
      repeat (apply andb_true_iff; split); apply Nat.ltb_lt; assumption. }
    rewrite (Hval [b; v; j] Bq). unfold group_sum.
    rewrite (group_rows_1d msg row1 ib 1 N [b; v; j]).
    + rewrite Sm. reflexivity.
    + unfold tdim. rewrite Sm. simpl. lia.
    + exact Gb.
    + rewrite Sm. cbn [set_nth]. rewrite <- Sa. exact Bq.
Qed.

(** X11.  A batch is processed slice by slice.  For node features with a
    leading batch axis, of shape [B; N; emb] with [B >= 1], a constructed
    layer with the reduction add (or sum) on a well-formed graph returns the
    shape [B; N; emb], and slice [b] of the result is the message-passing
    equation on slice [b] of the input: [message] tiles the edge attributes
    [B] times, and the reduction runs along the node axis of every slice. *)
Theorem layer_forward_batch (l : MPNNLayer (A := A)) (h ea : Tensor A)
  (ei : Tensor Z) (k : string) (emb ed B N E : nat) :
  Layer_init' emb ed k = Ok l ->
  k = "add"%string \/ k = "sum"%string ->
  1 <= emb ->
  1 <= B ->
  size h = [B; N; emb] ->
  size ei = [2; E] ->
  size ea = [E; ed] ->
  (forall r e, r < 2 -> e < E -> (0 <= get ei [r; e]%nat < Z.of_nat N)%Z) ->
  (exists e, e < E /\ get ei [1; e]%nat = (Z.of_nat N - 1)%Z) ->
  exists y,
    Layer_forward' l h ei ea = Ok y /\
    size y = [B; N; emb] /\
    forall b v j, b < B -> v < N -> j < emb ->
      get y [b; v; j] =
      node_update dt l (returned h (select_row h b)) ea ei v j.
Proof.
  intros Hl Hk Hemb HB Sh Sei Sea Hr Hlast.
  unfold MPNNLayer_init in Hl. apply bind_ok in Hl as [u [_ Hl]].
  injection Hl as Hl'.
  assert (Hn : node_dim l = (-2)%Z) by (rewrite <- Hl'; reflexivity).
  assert (Hag : aggr l = k) by (rewrite <- Hl'; reflexivity).
  assert (Hm1 : in_features (fc1 (mlp_msg l)) = emb + emb + ed)
    by (rewrite <- Hl'; cbn; lia).
  assert (Hm2 : in_features (fc2 (mlp_msg l)) = out_features (fc1 (mlp_msg l)))
    by (rewrite <- Hl'; reflexivity).
  assert (Hm3 : out_features (fc2 (mlp_msg l)) = emb)
    by (rewrite <- Hl'; reflexivity).
  assert (Hu1 : in_features (fc1 (mlp_upd l)) = emb + emb)
    by (rewrite <- Hl'; cbn; lia).
  assert (Hu2 : in_features (fc2 (mlp_upd l)) = out_features (fc1 (mlp_upd l)))
    by (rewrite <- Hl'; reflexivity).
  assert (Hu3 : out_features (fc2 (mlp_upd l)) = emb)
    by (rewrite <- Hl'; reflexivity).
  clear Hl'.
  unfold MPNNLayer_forward, propagate.
  rewrite Sei. cbn [bind].
  rewrite (select_row_ok ei 0 2 [E] Sei ltac:(lia)).
  rewrite (select_row_ok ei 1 2 [E] Sei ltac:(lia)). cbn [bind].
  set (row0 := mkTensor [E] (fun p => get ei (0 :: p))).
  set (row1 := mkTensor [E] (fun p => get ei (1 :: p))).
  rewrite Hn.
  assert (Hd : maybe_wrap_dim (tdim h) (-2) = Ok 1)
    by (unfold tdim; rewrite Sh; reflexivity).
  destruct (index_select_ok h (-2) row1 1 E Hd eq_refl) as [h_i [Hsi Si]].
  { intros i Hi. rewrite Sh. apply (Hr 1 i); lia. }
  destruct (index_select_ok h (-2) row0 1 E Hd eq_refl) as [h_j [Hsj Sj]].
  { intros i Hi. rewrite Sh. apply (Hr 0 i); lia. }
  rewrite Sh in Si, Sj. cbn [set_nth] in Si, Sj.
  rewrite Hsi, Hsj. cbn [bind].
  (* message: the edge attributes are tiled *)
  unfold message. unfold tdim at 1. rewrite Si. cbn [length Nat.eqb nth].
  destruct (repeat_batch ea B E ed Sea) as [eb [Heb [Seb Geb]]].
  rewrite Heb. cbn [bind].
  rewrite cat_triple by (unfold tdim; rewrite ?Si, ?Sj, ?Sea, ?Seb; simpl; lia).
  destruct (cat2_ok h_i h_j [B; E] emb emb Si Sj) as [c1 [Hc1 Sc1]].
  rewrite Hc1. cbn [bind].
  destruct (cat2_ok c1 eb [B; E] (emb + emb) ed Sc1 Seb) as [c2 [Hc2 Sc2]].
  rewrite Hc2. cbn [bind].
  destruct (mlp_ok dt (mlp_msg l) c2 [B; E]) as [msg [Hm Sm]];
    [rewrite Sc2, Hm1; reflexivity|exact Hm2|].
  rewrite Hm. cbn [bind]. rewrite Hm3 in Sm.
  (* aggregate *)
  destruct (aggregate_batch msg row1 B N E emb Sm eq_refl HB Hemb)
    as [ao [Ha [Sa Ga]]].
  { intros e He. apply (Hr 1 e); lia. }
  { exact Hlast. }
  assert (Ha' : aggregate dt torch_scatter_mul torch_scatter_min torch_scatter_max
                  l msg row1 = Ok ao).
  { unfold aggregate. rewrite Hn, Hag.
    destruct Hk as [Hk|Hk]; rewrite Hk; exact Ha. }
  rewrite Ha'. cbn [bind].
  (* update *)
  unfold update.
  rewrite cat_pair by (unfold tdim; rewrite ?Sh, ?Sa; simpl; lia).
  destruct (cat2_ok h ao [B; N] emb emb Sh Sa) as [c3 [Hc3 Sc3]].
  rewrite Hc3. cbn [bind].
  destruct (mlp_ok dt (mlp_upd l) c3 [B; N]) as [y [Hy Sy]];
    [rewrite Sc3, Hu1; reflexivity|exact Hu2|].
  exists y. split; [exact Hy|]. split; [rewrite Sy, Hu3; reflexivity|].
  (* the values, slice by slice *)
  intros b v j Hb Hv Hj.
  rewrite (select_row_ok h b B [N; emb] Sh Hb). cbn [returned].
  rewrite (mlp_get dt _ _ _ Hy [b; v; j]). cbn [removelast last app].
  unfold node_update. cbn [size nth get]. apply mlp_at_ext.
  intros i Hi. rewrite Hu1 in Hi.
  rewrite (cat2_get h ao c3 [B; N] emb Sh Hc3 [b; v; i]).
  cbn [removelast last app].
  destruct (Nat.ltb_spec i emb) as [Hlt|Hge]; [reflexivity|].
  rewrite (Ga b v (i - emb) Hb Hv ltac:(lia)).
  unfold node_sum, incoming, rows_of_group. rewrite Sei. cbn [nth].
  f_equal. apply map_ext_in. intros e He.
  apply filter_In in He as [He _]. apply in_seq in He.
  rewrite (mlp_get dt _ _ _ Hm [b; e; (i - emb)]). cbn [removelast last app].
  unfold edge_message. apply mlp_at_ext. intros i' Hi'. rewrite Hm1 in Hi'.
  rewrite (cat2_get c1 eb c2 [B; E] (emb + emb) Sc1 Hc2 [b; e; i']).
  cbn [removelast last app]. unfold edge_input. cbn [size nth get].
  destruct (Nat.ltb_spec i' (emb + emb)) as [H2|H2].
  - rewrite (cat2_get h_i h_j c1 [B; E] emb Si Hc1 [b; e; i']).
    cbn [removelast last app].
    destruct (i' <? emb).
    + rewrite (index_select_get h h_i (-2) row1 1 Hd Hsi [b; e; i']). reflexivity.
    + rewrite (index_select_get h h_j (-2) row0 1 Hd Hsj [b; e; (i' - emb)]).
      reflexivity.
  - apply Geb; lia.
Qed.

(** [t.repeat(B2, 1, 1).repeat(B1, 1, 1, 1)] of a matrix. *)
Lemma repeat_batch2 (t : Tensor A) (B1 B2 E ed : nat) :
  size t = [E; ed] ->
  exists r, (e <- repeat_ t [B2; 1; 1] ;; repeat_ e [B1; 1; 1; 1]) = Ok r /\
    size r = [B1; B2; E; ed] /\
    forall b1 b2 e k, b2 < B2 -> e < E -> k < ed ->
      get r [b1; b2; e; k] = get t [e; k].
Proof.
  intro St. destruct (repeat_batch t B2 E ed St) as [r1 [H1 [S1 G1]]].
  rewrite H1. cbn [bind]. unfold repeat_, tdim. rewrite S1.
  cbn [length Nat.ltb Nat.leb Nat.sub].
  eexists. split; [reflexivity|]. split.
  - cbn. rewrite !Nat.mul_1_r, Nat.add_0_r. reflexivity.
  - intros b1 b2 e k Hb2 He Hk. cbn.
    rewrite !Nat.mod_small by assumption. apply G1; assumption.
Qed.

(** The same under two batch axes. *)
Lemma aggregate_batch2 (msg : Tensor A) (row1 : Tensor Z) (B1 B2 N E w : nat) :
  size msg = [B1; B2; E; w] ->
  size row1 = [E] ->
  1 <= B1 -> 1 <= B2 -> 1 <= w ->
  (forall e, e < E -> (0 <= get row1 [e]%nat < Z.of_nat N)%Z) ->
  (exists e, e < E /\ get row1 [e]%nat = (Z.of_nat N - 1)%Z) ->
  exists ao,
    scatter_sum dt msg row1 (-2) None None = Ok ao /\
    size ao = [B1; B2; N; w] /\
    forall b1 b2 v j, b1 < B1 -> b2 < B2 -> v < N -> j < w ->
      get ao [b1; b2; v; j] =
      sum_list dt (map (fun e => get msg [b1; b2; e; j]) (rows_of_group row1 E v)).
Proof.
  intros Sm S1 HB1 HB2 Hw Hr [e0 [He0 Ge0]].
  assert (Hd : py_index (tdim msg) (-2) = Ok 2)
    by (unfold tdim; rewrite Sm; reflexivity).
  destruct (broadcast_1d row1 msg (-2) 2 E S1 Hd) as [ib [Hb [Sb Gb]]];
    [rewrite Sm; reflexivity|].
  assert (Z0 : numel msg <> 0).
  { unfold numel. rewrite Sm. cbn. rewrite Nat.mul_1_r.
    apply Nat.neq_mul_0. split; [lia|]. apply Nat.neq_mul_0. split; [lia|].
    apply Nat.neq_mul_0. lia. }
  destruct (tensor_max_broadcast row1 ib msg (-2) Hb Z0) as [m [M1 M2]].
  destruct (tensor_max_spec row1 m M1) as [[q [Hq Gq]] Hle].
  rewrite S1 in Hq, Hle.
  destruct q as [|e [|? ?]]; simpl in Hq; try discriminate;
    [|rewrite andb_false_r in Hq; discriminate].
  rewrite andb_true_r in Hq. apply Nat.ltb_lt in Hq.
  assert (Hm : m = (Z.of_nat N - 1)%Z).
  { pose proof (Hr e Hq) as R.
    assert (B0 : in_bounds [E] [e0] = true)
      by (simpl; rewrite andb_true_r; apply Nat.ltb_lt; exact He0).
    pose proof (Hle [e0] B0). lia. }
  assert (Hz : out_extent ib None = Ok (Z.of_nat N)).
  { unfold out_extent.
    replace (numel ib) with (numel msg) by (unfold numel; rewrite Sb; reflexivity).
    destruct (Nat.eqb_spec (numel msg) 0); [contradiction|].
    rewrite M2. cbn [bind]. f_equal. lia. }
  destruct (scatter_sum_spec dt msg row1 ib (-2) None 2 (Z.of_nat N) Hb Hd Hz)
    as [ao [Ho [So Hval]]].
  - lia.
  - intros p Hp. rewrite (Gb p Hp). apply Hr.
    pose proof (in_bounds_nth (size msg) p 2 Hp) as Bd. rewrite Sm in Bd.
    apply Bd. simpl. lia.
  - assert (Sa : size ao = [B1; B2; N; w])
      by (rewrite So, Sm, Nat2Z.id; reflexivity).
    exists ao. split; [exact Ho|]. split; [exact Sa|].
    intros b1 b2 v j Hb1 Hb2 Hv Hj.
    assert (Bq : in_bounds (size ao) [b1; b2; v; j] = true).
    { rewrite Sa. simpl. rewrite andb_true_r.
      repeat (apply andb_true_iff; split); apply Nat.ltb_lt; assumption. }
    rewrite (Hval [b1; b2; v; j] Bq). unfold group_sum.
    rewrite (group_rows_1d msg row1 ib 2 N [b1; b2; v; j]).
    + rewrite Sm. reflexivity.
    + unfold tdim. rewrite Sm. simpl. lia.
    + exact Gb.
    + rewrite Sm. cbn [set_nth]. rewrite <- Sa. exact Bq.
Qed.

(** X12.  The same holds under two batch axes.  For node features of shape
    [B1; B2; N; emb] with [B1, B2 >= 1], a constructed layer with the
    reduction add (or sum) on a well-formed graph returns the shape
    [B1; B2; N; emb], and slice [b1, b2] of the result is the
    message-passing equation on slice [b1, b2] of the input: [message]
    tiles the edge attributes [B2] times and the result [B1] times. *)
Theorem layer_forward_batch2 (l : MPNNLayer (A := A)) (h ea : Tensor A)
  (ei : Tensor Z) (k : string) (emb ed B1 B2 N E : nat) :
  Layer_init' emb ed k = Ok l ->
  k = "add"%string \/ k = "sum"%string ->
  1 <= emb ->
  1 <= B1 ->
  1 <= B2 ->
  size h = [B1; B2; N; emb] ->
  size ei = [2; E] ->
  size ea = [E; ed] ->
  (forall r e, r < 2 -> e < E -> (0 <= get ei [r; e]%nat < Z.of_nat N)%Z) ->
  (exists e, e < E /\ get ei [1; e]%nat = (Z.of_nat N - 1)%Z) ->
  exists y,
    Layer_forward' l h ei ea = Ok y /\
    size y = [B1; B2; N; emb] /\
    forall b1 b2 v j, b1 < B1 -> b2 < B2 -> v < N -> j < emb ->
      get y [b1; b2; v; j] =
      node_update dt l
        (returned h (hb <- select_row h b1 ;; select_row hb b2)) ea ei v j.
Proof.
  intros Hl Hk Hemb HB1 HB2 Sh Sei Sea Hr Hlast.
  unfold MPNNLayer_init in Hl. apply bind_ok in Hl as [u [_ Hl]].
  injection Hl as Hl'.
  assert (Hn : node_dim l = (-2)%Z) by (rewrite <- Hl'; reflexivity).
  assert (Hag : aggr l = k) by (rewrite <- Hl'; reflexivity).
  assert (Hm1 : in_features (fc1 (mlp_msg l)) = emb + emb + ed)
    by (rewrite <- Hl'; cbn; lia).
  assert (Hm2 : in_features (fc2 (mlp_msg l)) = out_features (fc1 (mlp_msg l)))
    by (rewrite <- Hl'; reflexivity).
  assert (Hm3 : out_features (fc2 (mlp_msg l)) = emb)
    by (rewrite <- Hl'; reflexivity).
  assert (Hu1 : in_features (fc1 (mlp_upd l)) = emb + emb)
    by (rewrite <- Hl'; cbn; lia).
  assert (Hu2 : in_features (fc2 (mlp_upd l)) = out_features (fc1 (mlp_upd l)))
    by (rewrite <- Hl'; reflexivity).
  assert (Hu3 : out_features (fc2 (mlp_upd l)) = emb)
    by (rewrite <- Hl'; reflexivity).
  clear Hl'.
  unfold MPNNLayer_forward, propagate.
  rewrite Sei. cbn [bind].
  rewrite (select_row_ok ei 0 2 [E] Sei ltac:(lia)).
  rewrite (select_row_ok ei 1 2 [E] Sei ltac:(lia)). cbn [bind].
  set (row0 := mkTensor [E] (fun p => get ei (0 :: p))).
  set (row1 := mkTensor [E] (fun p => get ei (1 :: p))).
  rewrite Hn.
  assert (Hd : maybe_wrap_dim (tdim h) (-2) = Ok 2)
    by (unfold tdim; rewrite Sh; reflexivity).
  destruct (index_select_ok h (-2) row1 2 E Hd eq_refl) as [h_i [Hsi Si]].
  { intros i Hi. rewrite Sh. apply (Hr 1 i); lia. }
  destruct (index_select_ok h (-2) row0 2 E Hd eq_refl) as [h_j [Hsj Sj]].
  { intros i Hi. rewrite Sh. apply (Hr 0 i); lia. }
  rewrite Sh in Si, Sj. cbn [set_nth] in Si, Sj.
  rewrite Hsi, Hsj. cbn [bind].
  (* message: the edge attributes are tiled *)
  unfold message. unfold tdim at 1 2. rewrite Si. cbn [length Nat.eqb nth].
  destruct (repeat_batch2 ea B1 B2 E ed Sea) as [eb [Heb [Seb Geb]]].
  rewrite Heb. cbn [bind].
  rewrite cat_triple by (unfold tdim; rewrite ?Si, ?Sj, ?Sea, ?Seb; simpl; lia).
  destruct (cat2_ok h_i h_j [B1; B2; E] emb emb Si Sj) as [c1 [Hc1 Sc1]].
  rewrite Hc1. cbn [bind].
  destruct (cat2_ok c1 eb [B1; B2; E] (emb + emb) ed Sc1 Seb) as [c2 [Hc2 Sc2]].
  rewrite Hc2. cbn [bind].
  destruct (mlp_ok dt (mlp_msg l) c2 [B1; B2; E]) as [msg [Hm Sm]];
    [rewrite Sc2, Hm1; reflexivity|exact Hm2|].
  rewrite Hm. cbn [bind]. rewrite Hm3 in Sm.
  (* aggregate *)
  destruct (aggregate_batch2 msg row1 B1 B2 N E emb Sm eq_refl HB1 HB2 Hemb)
    as [ao [Ha [Sa Ga]]].
  { intros e He. apply (Hr 1 e); lia. }
  { exact Hlast. }
  assert (Ha' : aggregate dt torch_scatter_mul torch_scatter_min torch_scatter_max
                  l msg row1 = Ok ao).
  { unfold aggregate. rewrite Hn, Hag.
    destruct Hk as [Hk|Hk]; rewrite Hk; exact Ha. }
  rewrite Ha'. cbn [bind].
  (* update *)
  unfold update.
  rewrite cat_pair by (unfold tdim; rewrite ?Sh, ?Sa; simpl; lia).
  destruct (cat2_ok h ao [B1; B2; N] emb emb Sh Sa) as [c3 [Hc3 Sc3]].
  rewrite Hc3. cbn [bind].
  destruct (mlp_ok dt (mlp_upd l) c3 [B1; B2; N]) as [y [Hy Sy]];
    [rewrite Sc3, Hu1; reflexivity|exact Hu2|].
  exists y. split; [exact Hy|]. split; [rewrite Sy, Hu3; reflexivity|].
  (* the values, slice by slice *)
  intros b1 b2 v j Hb1 Hb2 Hv Hj.
  rewrite (select_row_ok h b1 B1 [B2; N; emb] Sh Hb1). cbn [bind].
  rewrite (select_row_ok (mkTensor [B2; N; emb] (fun p => get h (b1 :: p)))
             b2 B2 [N; emb] eq_refl Hb2). cbn [returned].
  rewrite (mlp_get dt _ _ _ Hy [b1; b2; v; j]). cbn [removelast last app].
  unfold node_update. cbn [size nth get]. apply mlp_at_ext.
  intros i Hi. rewrite Hu1 in Hi.
  rewrite (cat2_get h ao c3 [B1; B2; N] emb Sh Hc3 [b1; b2; v; i]).
  cbn [removelast last app].
  destruct (Nat.ltb_spec i emb) as [Hlt|Hge]; [reflexivity|].
  rewrite (Ga b1 b2 v (i - emb) Hb1 Hb2 Hv ltac:(lia)).
  unfold node_sum, incoming, rows_of_group. rewrite Sei. cbn [nth].
  f_equal. apply map_ext_in. intros e He.
  apply filter_In in He as [He _]. apply in_seq in He.
  rewrite (mlp_get dt _ _ _ Hm [b1; b2; e; (i - emb)]). cbn [removelast last app].
  unfold edge_message. apply mlp_at_ext. intros i' Hi'. rewrite Hm1 in Hi'.
  rewrite (cat2_get c1 eb c2 [B1; B2; E] (emb + emb) Sc1 Hc2 [b1; b2; e; i']).
  cbn [removelast last app]. unfold edge_input. cbn [size nth get].
  destruct (Nat.ltb_spec i' (emb + emb)) as [H2|H2].
  - rewrite (cat2_get h_i h_j c1 [B1; B2; E] emb Si Hc1 [b1; b2; e; i']).
    cbn [removelast last app].
    destruct (i' <? emb).
    + rewrite (index_select_get h h_i (-2) row1 2 Hd Hsi [b1; b2; e; i']). reflexivity.
    + rewrite (index_select_get h h_j (-2) row0 2 Hd Hsj [b1; b2; e; (i' - emb)]).
      reflexivity.
  - apply Geb; lia.
Qed.

End LayerBatch.

Lemma layer_forward_batch_witness :
  exists l,
    MPNNLayer_init accept_all unit_param 1 2 "add" = Ok l /\
    exists y,
      MPNNLayer_forward int64 no_kernel no_kernel no_kernel l
        two_batches graph_edges graph_attr = Ok y /\
      size y = [2; 2; 1] /\
      forall b v j, b < 2 -> v < 2 -> j < 1 ->
        get y [b; v; j] =
        node_update int64 l (returned two_batches (select_row two_batches b))
          graph_attr graph_edges v j.
Proof.
  eexists. split; [reflexivity|].
  apply (layer_forward_batch int64 no_kernel no_kernel no_kernel
           accept_all unit_param _ two_batches graph_attr graph_edges
           "add" 1 2 2 2 2).
  - reflexivity.
  - left. reflexivity.
  - lia.
  - lia.
  - reflexivity.
  - reflexivity.
  - reflexivity.
  - intros r e Hr He. destruct r as [|[|r]], e as [|[|e]]; cbn; lia.
  - exists 0. split; [lia|reflexivity].
Defined.

Lemma layer_forward_batch2_witness :
  exists l,
    MPNNLayer_init accept_all unit_param 1 2 "add" = Ok l /\
    exists y,
      MPNNLayer_forward int64 no_kernel no_kernel no_kernel l
        (stack2 two_batches two_batches) graph_edges graph_attr = Ok y /\
      size y = [2; 2; 2; 1] /\
      forall b1 b2 v j, b1 < 2 -> b2 < 2 -> v < 2 -> j < 1 ->
        get y [b1; b2; v; j] =
        node_update int64 l
          (returned (stack2 two_batches two_batches)
             (hb <- select_row (stack2 two_batches two_batches) b1 ;;
              select_row hb b2))
          graph_attr graph_edges v j.
Proof.
  eexists. split; [reflexivity|].
  apply (layer_forward_batch2 int64 no_kernel no_kernel no_kernel
           accept_all unit_param _ (stack2 two_batches two_batches)
           graph_attr graph_edges "add" 1 2 2 2 2 2).
  - reflexivity.
  - left. reflexivity.
  - lia.
  - lia.
  - lia.
  - reflexivity.
  - reflexivity.
  - reflexivity.
  - intros r e Hr He. destruct r as [|[|r]], e as [|[|e]]; cbn; lia.
  - exists 0. split; [lia|reflexivity].
Defined.

(** The two slices of a batch, and the second slice on its own. *)
Example layer_batch_two_slices :
  observe (l <- MPNNLayer_init accept_all unit_param 1 2 "add" ;;
           MPNNLayer_forward int64 no_kernel no_kernel no_kernel l
             two_batches graph_edges graph_attr)
  = Ok ([2; 2; 1], [9; 10; 15; 16]%Z) /\
  observe (l <- MPNNLayer_init accept_all unit_param 1 2 "add" ;;
           MPNNLayer_forward int64 no_kernel no_kernel no_kernel l
             (mat 0%Z 1 [[3]; [4]]%Z) graph_edges graph_attr)
  = Ok ([2; 1], [15; 16]%Z).
Proof. split; vm_compute; reflexivity. Qed.

(** ** The ranks a layer accepts *)

Section LayerRank.

Context {A : Type} (dt : DType A).

Variable torch_scatter_mul :
  Tensor A -> Tensor Z -> Z -> option (Tensor A) -> option Z -> result (Tensor A).
Variable torch_scatter_min :
  Tensor A -> Tensor Z -> Z -> option (Tensor A) -> option Z ->
  result (Tensor A * Tensor Z).
Variable torch_scatter_max :
  Tensor A -> Tensor Z -> Z -> option (Tensor A) -> option Z ->
  result (Tensor A * Tensor Z).

Local Abbreviation Layer_forward' :=
  (MPNNLayer_forward dt torch_scatter_mul torch_scatter_min torch_scatter_max).

(** X13.  A layer takes node features of two to four axes.  With fewer than
    two, gathering along the node axis -2 fails; with two, or with five or
    more, [message] concatenates the edge attributes as they are, which
    fails when they have another number of axes than the node features,
    unless they are the buffer of shape [0] that [torch.cat] skips.  Only
    for three and four axes are the edge attributes tiled first. *)
Theorem layer_rank_limits (l : MPNNLayer (A := A)) (h ea : Tensor A)
  (ei : Tensor Z) :
  node_dim l = (-2)%Z ->
  tdim h < 2 \/
  (tdim h <> 3 /\ tdim h <> 4 /\ tdim ea <> tdim h /\ size ea <> [0]) ->
  exists err, Layer_forward' l h ei ea = Err err.
Proof.
  intros Hn Hrank.
  destruct (Layer_forward' l h ei ea) as [y|err] eqn:Hf;
    [exfalso|exists err; reflexivity].
  unfold MPNNLayer_forward, propagate in Hf.
  apply bind_ok in Hf as [u [_ Hf]].
  apply bind_ok in Hf as [row0 [_ Hf]]. apply bind_ok in Hf as [row1 [_ Hf]].
  apply bind_ok in Hf as [h_i [Hi Hf]]. apply bind_ok in Hf as [h_j [_ Hf]].
  apply bind_ok in Hf as [msg [Hm _]].
  destruct (index_select_inv h h_i (node_dim l) row1 Hi)
    as [d [e [Hd [_ [Si _]]]]].
  rewrite Hn in Hd.
  destruct Hrank as [Hlow|[H3 [H4 [Hea Hskip]]]].
  - unfold maybe_wrap_dim, py_index in Hd.
    destruct (tdim h) as [|[|r]]; [discriminate|discriminate|lia].
  - assert (Ti : tdim h_i = tdim h)
      by (unfold tdim; rewrite Si, set_nth_length; reflexivity).
    apply wrap_dim_rank in Hd.
    unfold message in Hm. rewrite Ti in Hm.
    apply Nat.eqb_neq in H3, H4. rewrite H3, H4 in Hm. cbn [bind] in Hm.
    apply bind_ok in Hm as [c2 [Hc _]].
    assert (Hs : skipped ea = false).
    { unfold skipped. destruct (idx_eqb (size ea) [0]) eqn:Q; [|reflexivity].
      apply idx_eqb_eq in Q. contradiction. }
    apply cat_triple_rank in Hc; [|lia|exact Hs].
    apply Hea. rewrite Hc. exact Ti.
Qed.

End LayerRank.

Lemma layer_rank_limits_witness :
  exists l,
    MPNNLayer_init accept_all unit_param 1 2 "add" = Ok l /\
    exists err,
      MPNNLayer_forward int64 no_kernel no_kernel no_kernel l
        (vec 0%Z [1; 2]%Z) graph_edges graph_attr = Err err.
Proof.
  eexists. split; [reflexivity|].
  apply (layer_rank_limits int64 no_kernel no_kernel no_kernel
           _ (vec 0%Z [1; 2]%Z) graph_attr graph_edges).
  - reflexivity.
  - left. cbn. lia.
Defined.

(** Node features without a feature axis, and a batch of five axes. *)
Example layer_rank_errors :
  (l <- MPNNLayer_init accept_all unit_param 1 2 "add" ;;
   MPNNLayer_forward int64 no_kernel no_kernel no_kernel l
     (vec 0%Z [1; 2]%Z) graph_edges graph_attr) = Err DimOutOfRange /\
  (l <- MPNNLayer_init accept_all unit_param 1 2 "add" ;;
   MPNNLayer_forward int64 no_kernel no_kernel no_kernel l
     (stack2 (stack2 two_batches two_batches) (stack2 two_batches two_batches))
     graph_edges graph_attr) = Err ShapeMismatch.
Proof. split; vm_compute; reflexivity. Qed.

(** Edge attributes of shape [0] are skipped by the concatenation: a layer
    built for an edge width of 0 completes its pass on them, as it does on
    edge attributes of shape [2; 0]; a vector with an element is refused. *)
Example layer_empty_edge_attr :
  observe (l <- MPNNLayer_init accept_all unit_param 1 0 "add" ;;
           MPNNLayer_forward int64 no_kernel no_kernel no_kernel l
             two_nodes graph_edges (vec 0%Z []))
  = Ok ([2; 1], [8; 9]%Z) /\
  observe (l <- MPNNLayer_init accept_all unit_param 1 0 "add" ;;
           MPNNLayer_forward int64 no_kernel no_kernel no_kernel l
             two_nodes graph_edges (mat 0%Z 0 [[]; []]))
  = Ok ([2; 1], [8; 9]%Z) /\
  (l <- MPNNLayer_init accept_all unit_param 1 0 "add" ;;
   MPNNLayer_forward int64 no_kernel no_kernel no_kernel l
     two_nodes graph_edges (vec 0%Z [7]%Z)) = Err ShapeMismatch.
Proof. repeat split; vm_compute; reflexivity. Qed.

(** ** The mean into a supplied buffer *)

Section MeanIntoOut.

Context {A : Type} (dt : DType A).

(** The sum into a supplied buffer, for ids within its extent. *)
Lemma scatter_sum_out_spec (src out : Tensor A) (index ib : Tensor Z) (dim : Z)
  (dim_size : option Z) (d n' : nat) :
  broadcast index src dim = Ok ib ->
  py_index (tdim src) dim = Ok d ->
  size out = set_nth (size src) d n' ->
  (forall p, in_bounds (size src) p = true ->
     (0 <= get ib p < Z.of_nat n')%Z) ->
  exists r,
    scatter_sum dt src index dim (Some out) dim_size = Ok r /\
    size r = size out /\
    forall q, in_bounds (size out) q = true ->
      get r q =
      fold_left (add dt)
        (map (fun i => get src (set_nth q d i))
             (group_rows ib d (nth d (size src) 0) q))
        (get out q).
Proof.
  intros Hb Hd Ho Hr.
  pose proof (broadcast_size _ _ _ _ Hb) as Hib.
  pose proof (py_index_ok _ _ _ Hd) as Hlt.
  assert (N : nth d (nonempty_size (size out)) 0 = n').
  { rewrite Ho.
    replace (nonempty_size (set_nth (size src) d n')) with (set_nth (size src) d n').
    - apply nth_set_nth_eq. exact Hlt.
    - unfold tdim in Hlt. destruct (size src); [simpl in Hlt; lia|].
      destruct d; reflexivity. }
  assert (E : scatter_sum dt src index dim (Some out) dim_size =
              fold_left (scatter_step dt d ib src) (indices (size src)) (Ok out)).
  { unfold scatter_sum. rewrite Hb. cbn [bind].
    apply (scatter_add_loop dt out src ib dim d n' Hd Hib Ho). }
  destruct (scatter_fold_ok dt d ib src (indices (size src)) out)
    as [r [Er [Hs Hg]]].
  { intros p Hp. apply in_indices in Hp. rewrite N. apply Hr, Hp. }
  exists r. split; [rewrite E; exact Er|]. split; [exact Hs|].
  intros q Hq. rewrite Ho in Hq.
  rewrite Hg, (scatter_targets src ib d n' q Hlt); [|intros p Hp; apply Hr, Hp|exact Hq].
  rewrite map_map. reflexivity.
Qed.

(** X14.  With [out] supplied, [scatter_mean] divides what [out] held
    together with the sums: for an index with one entry per row and ids
    within the extent of [out], every slot of the result is the old value of
    [out] plus the rows of its group, divided by the number of these rows
    (by 1 when there is none).  The shape of [out] is kept and [dim_size] is
    ignored. *)
Theorem scatter_mean_into_out (src out : Tensor A) (index : Tensor Z) (dim : Z)
  (dim_size : option Z) (d n n' : nat) :
  size index = [n] ->
  py_index (tdim src) dim = Ok d ->
  nth d (size src) 0 = n ->
  size out = set_nth (size src) d n' ->
  (forall i, i < n -> (0 <= get index [i]%nat < Z.of_nat n')%Z) ->
  exists r,
    scatter_mean dt src index dim (Some out) dim_size = Ok r /\
    size r = size out /\
    forall q, in_bounds (size out) q = true ->
      get r q =
      (if is_floating_point dt then true_divide dt else floor_divide dt)
        (fold_left (add dt)
           (map (fun i => get src (set_nth q d i))
                (rows_of_group index n (nth d q 0)))
           (get out q))
        (clamp_count dt
           (sum_list dt (map (fun _ => one dt)
                             (rows_of_group index n (nth d q 0))))).
Proof.
  intros Hi Hd Hn Ho Hr.
  pose proof (py_index_ok _ _ _ Hd) as Hlt.
  destruct (broadcast_1d index src dim d n Hi Hd Hn) as [ib [Hb [Sib Gib]]].
  assert (Hr' : forall p, in_bounds (size src) p = true ->
                  (0 <= get ib p < Z.of_nat n')%Z).
  { intros p Hp. rewrite (Gib p Hp). apply Hr. rewrite <- Hn.
    apply in_bounds_nth; assumption. }
  destruct (scatter_sum_out_spec src out index ib dim dim_size d n' Hb Hd Ho Hr')
    as [out1 [E1 [S1 G1]]].
  unfold scatter_mean. rewrite E1. cbn [bind].
  assert (S1' : size out1 = set_nth (size src) d n') by (rewrite S1; exact Ho).
  assert (T1 : tdim out1 = tdim src).
  { unfold tdim. rewrite S1', set_nth_length. reflexivity. }
  assert (N1 : nth d (size out1) 0 = n').
  { rewrite S1'. apply nth_set_nth_eq. exact Hlt. }
  unfold size_at. rewrite T1, Hd. cbn [bind]. rewrite N1.
  assert (Ti : tdim index = 1) by (unfold tdim; rewrite Hi; reflexivity).
  cbv zeta. rewrite (index_dim_1d src index dim d Ti Hd).
  (* the counts *)
  assert (So : size (ones dt (size index)) = [n]) by (cbn; exact Hi).
  assert (Hd0 : py_index (tdim (ones dt (size index))) 0 = Ok 0).
  { unfold tdim. rewrite So. reflexivity. }
  destruct (broadcast_1d index (ones dt (size index)) 0 0 n Hi Hd0)
    as [ibc [Hbc [Sibc Gibc]]].
  { rewrite So. reflexivity. }
  destruct (scatter_sum_spec dt (ones dt (size index)) index ibc 0
              (Some (Z.of_nat n')) 0 (Z.of_nat n') Hbc Hd0 eq_refl
              (Nat2Z.is_nonneg n')) as [cnt [Ec [Sc Gc]]].
  { intros p Hp. rewrite (Gibc p Hp). apply Hr.
    rewrite So in Hp. destruct p as [|i [|j p']]; simpl in Hp; try discriminate.
    - rewrite andb_true_r in Hp. apply Nat.ltb_lt in Hp. exact Hp.
    - rewrite andb_false_r in Hp. discriminate. }
  rewrite Ec. cbn [bind].
  rewrite So, Nat2Z.id in Sc. cbn [set_nth] in Sc.
  (* the counts broadcast against the sums *)
  assert (Sm : size (tmap (clamp_count dt) cnt) = [n']) by (cbn; exact Sc).
  assert (Hd1 : py_index (tdim out1) dim = Ok d) by (rewrite T1; exact Hd).
  destruct (broadcast_1d (tmap (clamp_count dt) cnt) out1 dim d n'
              Sm Hd1 N1) as [cb [Hcb [Scb Gcb]]].
  rewrite Hcb. cbn [bind].
  assert (Q : idx_eqb (size out1) (size cb) = true)
    by (apply idx_eqb_eq; symmetry; exact Scb).
  assert (R : forall f, div_ f out1 cb =
     Ok (mkTensor (size out1) (fun p => f (get out1 p) (get cb p)))).
  { intro f. unfold div_. rewrite Q. reflexivity. }
  exists (mkTensor (size out1)
            (fun p => (if is_floating_point dt then true_divide dt
                       else floor_divide dt) (get out1 p) (get cb p))).
  split; [destruct (is_floating_point dt); apply R|].
  split; [exact S1|].
  cbn [size get]. intros q Hq.
  assert (Hq1 : in_bounds (size out1) q = true) by (rewrite S1; exact Hq).
  assert (Hq' : in_bounds (set_nth (size src) d n') q = true)
    by (rewrite <- Ho; exact Hq).
  assert (Hg : nth d q 0 < n').
  { rewrite <- N1. apply in_bounds_nth; [exact Hq1|]. fold (tdim out1). lia. }
  rewrite (G1 q Hq), (Gcb q Hq1). cbn [tmap get].
  rewrite (group_rows_1d src index ib d n' q Hlt Gib Hq'), Hn.
  f_equal. f_equal.
  assert (Hc : in_bounds (size cnt) [nth d q 0] = true).
  { rewrite Sc. simpl. rewrite andb_true_r. apply Nat.ltb_lt. exact Hg. }
  rewrite (Gc _ Hc). unfold group_sum. cbn [size ones full nth].
  rewrite Hi. cbn [nth].
  assert (Hg1 : group_rows ibc 0 n [nth d q 0] = rows_of_group index n (nth d q 0)).
  { assert (L0 : 0 < tdim (ones dt (size index))).
    { unfold tdim. rewrite So. simpl. lia. }
    pose proof (group_rows_1d (ones dt (size index)) index ibc 0 n'
                  [nth d q 0] L0 Gibc) as H.
    rewrite So in H. cbn [nth set_nth] in H. apply H.
    simpl. rewrite andb_true_r. apply Nat.ltb_lt. exact Hg. }
  rewrite Hg1. reflexivity.
Qed.

End MeanIntoOut.

Lemma scatter_mean_into_out_witness :
  exists r,
    scatter_mean int64 src32 idx010 0 (Some (full [2; 2] 10%Z)) (Some 7%Z) = Ok r /\
    size r = [2; 2] /\
    forall q, in_bounds [2; 2] q = true ->
      get r q =
      floor_divide int64
        (fold_left (add int64)
           (map (fun i => get src32 (set_nth q 0 i))
                (rows_of_group idx010 3 (nth 0 q 0)))
           10%Z)
        (clamp_count int64
           (sum_list int64 (map (fun _ => one int64)
                                (rows_of_group idx010 3 (nth 0 q 0))))).
Proof.
  apply (scatter_mean_into_out int64 src32 (full [2; 2] 10%Z) idx010 0
           (Some 7%Z) 0 3 2 eq_refl eq_refl eq_refl eq_refl).
  intros i Hi. destruct i as [|[|[|i]]]; cbn; lia.
Defined.

(** Group 0 holds the rows [1; 2] and [5; 6]: (10 + 6) / 2 and (10 + 8) / 2;
    group 1 holds the row [3; 4]. *)
Example scatter_mean_into_tens :
  observe (scatter_mean int64 src32 idx010 0 (Some (full [2; 2] 10%Z)) (Some 7%Z))
  = Ok ([2; 2], [8; 9; 13; 14]%Z).
Proof. reflexivity. Qed.

(** ** The order of the edges *)

Section EdgeOrder.

Context {A : Type} (dt : DType A).

Variable torch_scatter_mul :
  Tensor A -> Tensor Z -> Z -> option (Tensor A) -> option Z -> result (Tensor A).
Variable torch_scatter_min :
  Tensor A -> Tensor Z -> Z -> option (Tensor A) -> option Z ->
  result (Tensor A * Tensor Z).
Variable torch_scatter_max :
  Tensor A -> Tensor Z -> Z -> option (Tensor A) -> option Z ->
  result (Tensor A * Tensor Z).
Variable MessagePassing_init : string -> result unit.
Variable init_param : list nat -> A.

Hypothesis add_comm : forall x y, add dt x y = add dt y x.
Hypothesis add_assoc : forall x y z, add dt (add dt x y) z = add dt x (add dt y z).

Local Abbreviation Layer_init' := (MPNNLayer_init MessagePassing_init init_param).
Local Abbreviation Layer_forward' :=
  (MPNNLayer_forward dt torch_scatter_mul torch_scatter_min torch_scatter_max).
Local Abbreviation Model_init' := (MPNNModel_init MessagePassing_init init_param).
Local Abbreviation run_convs' :=
  (run_convs dt torch_scatter_mul torch_scatter_min torch_scatter_max).
Local Abbreviation predict_fn' :=
  (predict_fn dt torch_scatter_mul torch_scatter_min torch_scatter_max).

Lemma elements_ext (a b : Tensor A) :
  size a = size b ->
  (forall p, in_bounds (size a) p = true -> get a p = get b p) ->
  elements a = elements b.
Proof.
  intros Hs Hg. unfold elements. rewrite <- Hs. apply map_ext_in.
  intros p Hp. apply Hg, in_indices, Hp.
Qed.

Lemma in_bounds_pair (n m : nat) (p : list nat) :
  in_bounds [n; m] p = true -> exists v j, p = [v; j] /\ v < n /\ j < m.
Proof.
  destruct p as [|v [|j [|? ?]]]; simpl; intro H; try discriminate.
  - rewrite andb_false_r in H. discriminate.
  - rewrite andb_true_r in H. apply andb_true_iff in H as [H1 H2].
    apply Nat.ltb_lt in H1, H2. exists v, j. auto.
  - rewrite !andb_false_r in H. discriminate.
Qed.

(** The equation of a node after the edges are reordered, on node features
    that agree within bounds. *)
Lemma node_update_perm (l : MPNNLayer (A := A)) (h h' ea : Tensor A)
  (ei : Tensor Z) (perm : list nat) (emb ed N E v j : nat) :
  in_features (fc1 (mlp_msg l)) = emb + emb + ed ->
  in_features (fc1 (mlp_upd l)) = emb + emb ->
  size h = [N; emb] ->
  size h' = [N; emb] ->
  (forall u k, u < N -> k < emb -> get h' [u; k] = get h [u; k]) ->
  size ei = [2; E] ->
  (forall r e, r < 2 -> e < E -> (0 <= get ei [r; e]%nat < Z.of_nat N)%Z) ->
  Permutation perm (seq 0 E) ->
  v < N ->
  node_update dt l h' (permute_rows ea 0 perm) (permute_rows ei 1 perm) v j =
  node_update dt l h ea ei v j.
Proof.
  intros Hm1 Hu1 Sh Sh' Hh Sei Hr Hp Hv.
  unfold node_update. rewrite Sh, Sh'. cbn [nth]. apply mlp_at_ext.
  intros i Hi. rewrite Hu1 in Hi.
  destruct (Nat.ltb_spec i emb) as [Hlt|Hge]; [apply Hh; assumption|].
  unfold node_sum, incoming, sum_list. cbn [permute_rows size]. rewrite Sei.
  cbn [nth].
  assert (Hmsg : forall e, e < E ->
            edge_message dt l h' (permute_rows ea 0 perm)
              (permute_rows ei 1 perm) e (i - emb) =
            edge_message dt l h ea ei (nth e perm 0) (i - emb)).
  { intros e He. pose proof (perm_seq_bound perm E e Hp He) as Hpe.
    unfold edge_message. apply mlp_at_ext. intros c Hc. rewrite Hm1 in Hc.
    unfold edge_input. rewrite Sh, Sh'. cbn [nth permute_rows get set_nth].
    destruct (Nat.ltb_spec c (emb + emb)) as [H2|H2]; [|reflexivity].
    destruct (Nat.ltb_spec c emb) as [H1|H1]; apply Hh; try lia.
    - pose proof (Hr 1 (nth e perm 0) ltac:(lia) Hpe). lia.
    - pose proof (Hr 0 (nth e perm 0) ltac:(lia) Hpe). lia. }
  rewrite (map_ext_in _ (fun e => edge_message dt l h ea ei (nth e perm 0) (i - emb))).
  - apply (fold_add_permutation (add dt) _ _ add_comm add_assoc).
    exact (rows_permuted (fun e => edge_message dt l h ea ei e (i - emb))
             (fun e => (get ei [1; e]%nat =? Z.of_nat v)%Z) perm E Hp).
  - intros e He. apply filter_In in He as [He _]. apply in_seq in He.
    apply Hmsg. lia.
Qed.

(** A constructed layer on the graph and on the graph with its edges
    reordered. *)
Lemma layer_forward_perm (l : MPNNLayer (A := A)) (h h' ea : Tensor A)
  (ei : Tensor Z) (perm : list nat) (k : string) (emb ed N E : nat) :
  Layer_init' emb ed k = Ok l ->
  k = "add"%string \/ k = "sum"%string ->
  1 <= emb ->
  size h = [N; emb] ->
  size h' = [N; emb] ->
  (forall u c, u < N -> c < emb -> get h' [u; c] = get h [u; c]) ->
  size ei = [2; E] ->
  size ea = [E; ed] ->
  (forall r e, r < 2 -> e < E -> (0 <= get ei [r; e]%nat < Z.of_nat N)%Z) ->
  (exists e, e < E /\ get ei [1; e]%nat = (Z.of_nat N - 1)%Z) ->
  Permutation perm (seq 0 E) ->
  exists y y',
    Layer_forward' l h ei ea = Ok y /\
    Layer_forward' l h' (permute_rows ei 1 perm) (permute_rows ea 0 perm) = Ok y' /\
    size y = [N; emb] /\ size y' = [N; emb] /\
    forall v j, v < N -> j < emb -> get y' [v; j] = get y [v; j].
Proof.
  intros Hl Hk Hemb Sh Sh' Hh Sei Sea Hr [e0 [He0 Ge0]] Hp.
  destruct (layer_forward_values dt torch_scatter_mul torch_scatter_min
              torch_scatter_max MessagePassing_init init_param
              l h ea ei k emb ed N E Hl Hk Hemb Sh Sei Sea Hr)
    as [y [Hy [Sy Gy]]]; [exists e0; auto|].
  destruct (layer_forward_values dt torch_scatter_mul torch_scatter_min
              torch_scatter_max MessagePassing_init init_param
              l h' (permute_rows ea 0 perm) (permute_rows ei 1 perm)
              k emb ed N E Hl Hk Hemb Sh' Sei Sea)
    as [y' [Hy' [Sy' Gy']]].
  { intros r e Hr' He. cbn [permute_rows get set_nth nth].
    apply Hr; [exact Hr'|]. apply (perm_seq_bound perm E e Hp He). }
  { destruct (perm_seq_onto perm E e0 Hp He0) as [i [Hi Hpi]].
    exists i. split; [exact Hi|]. cbn [permute_rows get set_nth nth].
    rewrite Hpi. exact Ge0. }
  exists y, y'. repeat split; try assumption.
  intros v j Hv Hj. rewrite (Gy v j Hv Hj), (Gy' v j Hv Hj).
  unfold MPNNLayer_init in Hl. apply bind_ok in Hl as [u [_ Hl]].
  injection Hl as Hl'.
  apply (node_update_perm l h h' ea ei perm emb ed N E v j); try assumption;
    rewrite <- Hl'; cbn; lia.
Qed.

(** X15.  The order in which the edges are listed does not matter to a
    layer, for a dtype whose addition is commutative and associative: when
    the columns of the edge index and the rows of the edge attributes are
    reordered by the same permutation, a constructed layer with the
    reduction add (or sum) on a well-formed graph returns the same shape and
    the same elements. *)
Theorem layer_edge_order (l : MPNNLayer (A := A)) (h ea : Tensor A)
  (ei : Tensor Z) (perm : list nat) (k : string) (emb ed N E : nat) :
  Layer_init' emb ed k = Ok l ->
  k = "add"%string \/ k = "sum"%string ->
  1 <= emb ->
  size h = [N; emb] ->
  size ei = [2; E] ->
  size ea = [E; ed] ->
  (forall r e, r < 2 -> e < E -> (0 <= get ei [r; e]%nat < Z.of_nat N)%Z) ->
  (exists e, e < E /\ get ei [1; e]%nat = (Z.of_nat N - 1)%Z) ->
  Permutation perm (seq 0 E) ->
  exists y y',
    Layer_forward' l h ei ea = Ok y /\
    Layer_forward' l h (permute_rows ei 1 perm) (permute_rows ea 0 perm) = Ok y' /\
    size y' = size y /\
    elements y' = elements y.
Proof.
  intros Hl Hk Hemb Sh Sei Sea Hr Hlast Hp.
  destruct (layer_forward_perm l h h ea ei perm k emb ed N E Hl Hk Hemb Sh Sh
              (fun _ _ _ _ => eq_refl) Sei Sea Hr Hlast Hp)
    as [y [y' [Hy [Hy' [Sy [Sy' Hg]]]]]].
  exists y, y'. split; [exact Hy|]. split; [exact Hy'|].
  split; [rewrite Sy, Sy'; reflexivity|].
  apply elements_ext; [rewrite Sy, Sy'; reflexivity|].
  intros p Hb. rewrite Sy' in Hb.
  destruct (in_bounds_pair N emb p Hb) as [v [j [-> [Hv Hj]]]].
  apply Hg; assumption.
Qed.

Lemma linear_cong (l : Linear (A := A)) (x x' : Tensor A) (N : nat) :
  size x = [N; in_features l] ->
  size x' = [N; in_features l] ->
  (forall v c, v < N -> c < in_features l -> get x' [v; c] = get x [v; c]) ->
  exists y y',
    linear dt l x = Ok y /\ linear dt l x' = Ok y' /\
    size y = [N; out_features l] /\ size y' = [N; out_features l] /\
    forall v o, v < N -> get y' [v; o] = get y [v; o].
Proof.
  intros Sx Sx' Hx.
  destruct (linear_ok dt l x [N] Sx) as [y [Hy Sy]].
  destruct (linear_ok dt l x' [N] Sx') as [y' [Hy' Sy']].
  exists y, y'. repeat split; try assumption.
  intros v o Hv. rewrite (linear_get dt l x y Hy [v; o]).
  rewrite (linear_get dt l x' y' Hy' [v; o]). cbn [removelast last app].
  apply linear_at_ext. intros c Hc. apply Hx; assumption.
Qed.

Lemma run_convs_perm (cs : list (MPNNLayer (A := A))) (h h' ea : Tensor A)
  (ei : Tensor Z) (perm : list nat) (emb ed N E : nat) :
  Forall (fun l => Layer_init' emb ed "add" = Ok l) cs ->
  1 <= emb ->
  size h = [N; emb] ->
  size h' = [N; emb] ->
  (forall u c, u < N -> c < emb -> get h' [u; c] = get h [u; c]) ->
  size ei = [2; E] ->
  size ea = [E; ed] ->
  (forall r e, r < 2 -> e < E -> (0 <= get ei [r; e]%nat < Z.of_nat N)%Z) ->
  (exists e, e < E /\ get ei [1; e]%nat = (Z.of_nat N - 1)%Z) ->
  Permutation perm (seq 0 E) ->
  exists y y',
    run_convs' cs ei ea h = Ok y /\
    run_convs' cs (permute_rows ei 1 perm) (permute_rows ea 0 perm) h' = Ok y' /\
    size y = [N; emb] /\ size y' = [N; emb] /\
    forall v j, v < N -> j < emb -> get y' [v; j] = get y [v; j].
Proof.
  intros Hcs Hemb Sh Sh' Hh Sei Sea Hr Hlast Hp. revert h h' Sh Sh' Hh.
  induction Hcs as [|c cs Hc _ IH]; intros h h' Sh Sh' Hh.
  - exists h, h'. repeat split; try assumption; reflexivity.
  - rewrite !run_convs_cons.
    destruct (layer_forward_perm c h h' ea ei perm "add" emb ed N E Hc
                (or_introl eq_refl) Hemb Sh Sh' Hh Sei Sea Hr Hlast Hp)
      as [y [y' [Hy [Hy' [Sy [Sy' Hg]]]]]].
    rewrite Hy, Hy'. cbn [bind]. exact (IH y y' Sy Sy' Hg).
Qed.

(** X16.  The order in which the edges are listed does not matter to the
    model either, under the same condition on the addition: two models
    built by the constructor with the same sizes, one on a well-formed graph
    and one on the same graph with the columns of the edge index and the
    rows of the edge attributes reordered by one permutation, answer an
    input of shape [N; in_dim] with the same shape and the same elements. *)
Theorem predict_edge_order (m m' : MPNNModel (A := A)) (x ea : Tensor A)
  (ei : Tensor Z) (perm : list nat) (in_dim n emb out_dim N E ed : nat) :
  Model_init' ei ea in_dim n emb out_dim = Ok m ->
  Model_init' (permute_rows ei 1 perm) (permute_rows ea 0 perm)
    in_dim n emb out_dim = Ok m' ->
  1 <= emb ->
  size x = [N; in_dim] ->
  size ei = [2; E] ->
  size ea = [E; ed] ->
  (forall r e, r < 2 -> e < E -> (0 <= get ei [r; e]%nat < Z.of_nat N)%Z) ->
  (exists e, e < E /\ get ei [1; e]%nat = (Z.of_nat N - 1)%Z) ->
  Permutation perm (seq 0 E) ->
  exists y y',
    predict_fn' x m = Ok y /\
    predict_fn' x m' = Ok y' /\
    size y' = size y /\
    elements y' = elements y.
Proof.
  intros Hm Hm' Hemb Sx Sei Sea Hr Hlast Hp.
  unfold MPNNModel_init in Hm, Hm'. cbn [permute_rows size] in Hm'.
  unfold tdim in Hm, Hm'. cbn [size] in Hm'.
  apply bind_ok in Hm as [k [Hk Hm]]. apply bind_ok in Hm as [cs [Hcs Hm]].
  apply bind_ok in Hm' as [k' [Hk' Hm']]. apply bind_ok in Hm' as [cs' [Hcs' Hm']].
  change (size (permute_rows ea 0 perm)) with (size ea) in Hk'.
  rewrite Hk in Hk'. injection Hk' as <-.
  rewrite Hcs in Hcs'. injection Hcs' as <-.
  injection Hm as Hm. injection Hm' as Hm'.
  rewrite Sea in Hk. injection Hk as Hk. subst k.
  rewrite Sea in Hcs. cbn [nth] in Hcs.
  apply make_convs_layers in Hcs.
  unfold predict_fn, MPNNModel_forward. rewrite <- Hm, <- Hm'.
  cbn [lin_in1 lin_in2 convs edge_index edge_attr lin_pred1 lin_pred2].
  destruct (linear_ok dt (Linear_init init_param in_dim emb) x [N] Sx)
    as [h1 [H1 S1]].
  rewrite H1. cbn [bind].
  destruct (linear_ok dt (Linear_init init_param emb emb) (relu_ dt h1) [N] S1)
    as [h2 [H2 S2]].
  rewrite H2. cbn [bind].
  destruct (run_convs_perm cs (relu_ dt h2) (relu_ dt h2) ea ei perm emb ed N E
              Hcs Hemb S2 S2 (fun _ _ _ _ => eq_refl) Sei Sea Hr Hlast Hp)
    as [h3 [h3' [H3 [H3' [S3 [S3' G3]]]]]].
  rewrite H3, H3'. cbn [bind].
  destruct (linear_cong (Linear_init init_param emb emb) h3 h3' N S3 S3' G3)
    as [h4 [h4' [H4 [H4' [S4 [S4' G4]]]]]].
  rewrite H4, H4'. cbn [bind].
  destruct (linear_cong (Linear_init init_param emb out_dim)
              (relu_ dt h4) (relu_ dt h4') N S4 S4')
    as [y [y' [Hy [Hy' [Sy [Sy' Gy]]]]]].
  { intros v c Hv _. cbn [relu_ tmap get]. f_equal. apply G4. exact Hv. }
  rewrite Hy, Hy'. cbn [bind]. do 2 eexists.
  split; [reflexivity|]. split; [reflexivity|].
  cbn [out_features Linear_init] in Sy, Sy'.
  destruct (Nat.eq_dec out_dim 1) as [O1|O1].
  - subst out_dim.
    rewrite (squeeze_last_one y [N] Sy), (squeeze_last_one y' [N] Sy').
    split; [reflexivity|]. apply elements_ext; [reflexivity|].
    cbn [size get]. intros p Hb.
    destruct p as [|v [|? ?]]; simpl in Hb; try discriminate.
    + rewrite andb_true_r in Hb. apply Nat.ltb_lt in Hb. apply Gy. exact Hb.
    + rewrite andb_false_r in Hb. discriminate.
  - rewrite (squeeze_last_other y [N] out_dim Sy O1).
    rewrite (squeeze_last_other y' [N] out_dim Sy' O1).
    split; [rewrite Sy, Sy'; reflexivity|].
    apply elements_ext; [rewrite Sy, Sy'; reflexivity|].
    intros p Hb. rewrite Sy' in Hb.
    destruct (in_bounds_pair N out_dim p Hb) as [v [j [-> [Hv Hj]]]].
    apply Gy. exact Hv.
Qed.

End EdgeOrder.

Lemma layer_edge_order_witness :
  exists l,
    MPNNLayer_init accept_all unit_param 1 2 "add" = Ok l /\
    exists y y',
      MPNNLayer_forward int64 no_kernel no_kernel no_kernel l
        two_nodes graph_edges graph_attr = Ok y /\
      MPNNLayer_forward int64 no_kernel no_kernel no_kernel l
        two_nodes (permute_rows graph_edges 1 [1; 0])
        (permute_rows graph_attr 0 [1; 0]) = Ok y' /\
      size y' = size y /\
      elements y' = elements y.
Proof.
  eexists. split; [reflexivity|].
  apply (layer_edge_order int64 no_kernel no_kernel no_kernel
           accept_all unit_param int64_add_comm int64_add_assoc
           _ two_nodes graph_attr graph_edges [1; 0] "add" 1 2 2 2).
  - reflexivity.
  - left. reflexivity.
  - lia.
  - reflexivity.
  - reflexivity.
  - reflexivity.
  - intros r e Hr He. destruct r as [|[|r]], e as [|[|e]]; cbn; lia.
  - exists 0. split; [lia|reflexivity].
  - apply perm_swap.
Defined.

Lemma predict_edge_order_witness :
  exists m m',
    MPNNModel_init accept_all unit_param graph_edges graph_attr 1 2 1 1 = Ok m /\
    MPNNModel_init accept_all unit_param (permute_rows graph_edges 1 [1; 0])
      (permute_rows graph_attr 0 [1; 0]) 1 2 1 1 = Ok m' /\
    exists y y',
      predict_fn int64 no_kernel no_kernel no_kernel two_nodes m = Ok y /\
      predict_fn int64 no_kernel no_kernel no_kernel two_nodes m' = Ok y' /\
      size y' = size y /\
      elements y' = elements y.
Proof.
  do 2 eexists. split; [reflexivity|]. split; [reflexivity|].
  apply (predict_edge_order int64 no_kernel no_kernel no_kernel
           accept_all unit_param int64_add_comm int64_add_assoc
           _ _ two_nodes graph_attr graph_edges [1; 0] 1 2 1 1 2 2 2).
  - reflexivity.
  - reflexivity.
  - lia.
  - reflexivity.
  - reflexivity.
  - reflexivity.
  - intros r e Hr He. destruct r as [|[|r]], e as [|[|e]]; cbn; lia.
  - exists 0. split; [lia|reflexivity].
  - apply perm_swap.
Defined.

(** A graph of three nodes with its four edges listed in two orders. *)
Example predict_edges_reordered :
  let ei := mat 0%Z 4 [[0; 1; 2; 0]; [1; 2; 0; 2]]%Z in
  let ea := mat 0%Z 1 [[1]; [2]; [3]; [4]]%Z in
  let x := mat 0%Z 1 [[1]; [2]; [3]]%Z in
  observe (m <- MPNNModel_init accept_all unit_param
                  (permute_rows ei 1 [2; 0; 3; 1]) (permute_rows ea 0 [2; 0; 3; 1])
                  1 1 1 1 ;;
           predict_fn int64 no_kernel no_kernel no_kernel x m)
  = observe (m <- MPNNModel_init accept_all unit_param ei ea 1 1 1 1 ;;
             predict_fn int64 no_kernel no_kernel no_kernel x m).
Proof. vm_compute. reflexivity. Qed.

(** ** The requests a model answers *)

Section Accept.

Context {A : Type} (dt : DType A).

Variable torch_scatter_mul :
  Tensor A -> Tensor Z -> Z -> option (Tensor A) -> option Z -> result (Tensor A).
Variable torch_scatter_min :
  Tensor A -> Tensor Z -> Z -> option (Tensor A) -> option Z ->
  result (Tensor A * Tensor Z).
Variable torch_scatter_max :
  Tensor A -> Tensor Z -> Z -> option (Tensor A) -> option Z ->
  result (Tensor A * Tensor Z).
Variable MessagePassing_init : string -> result unit.
Variable init_param : list nat -> A.

Local Abbreviation Layer_forward' :=
  (MPNNLayer_forward dt torch_scatter_mul torch_scatter_min torch_scatter_max).
Local Abbreviation Model_init' := (MPNNModel_init MessagePassing_init init_param).
Local Abbreviation run_convs' :=
  (run_convs dt torch_scatter_mul torch_scatter_min torch_scatter_max).
Local Abbreviation predict_fn' :=
  (predict_fn dt torch_scatter_mul torch_scatter_min torch_scatter_max).

(** What a completed forward pass of a summing layer tells about the edge
    index: its node numbers are within the node features, and the last node
    is a destination. *)
Lemma layer_forward_rows (l : MPNNLayer (A := A)) (h ea y : Tensor A)
  (ei : Tensor Z) (N F E : nat) :
  node_dim l = (-2)%Z ->
  aggr l = "add"%string \/ aggr l = "sum"%string ->
  size h = [N; F] ->
  size ei = [2; E] ->
  1 <= E ->
  Layer_forward' l h ei ea = Ok y ->
  (forall r e, r < 2 -> e < E -> (0 <= get ei [r; e]%nat < Z.of_nat N)%Z) /\
  (exists e, e < E /\ get ei [1; e]%nat = (Z.of_nat N - 1)%Z).
Proof.
  intros Hn Ha Hh Hei HE Hf.
  unfold MPNNLayer_forward, propagate in Hf.
  apply bind_ok in Hf as [u [_ Hf]].
  apply bind_ok in Hf as [row0 [H0 Hf]]. apply bind_ok in Hf as [row1 [H1 Hf]].
  apply bind_ok in Hf as [h_i [Hi Hf]]. apply bind_ok in Hf as [h_j [Hj Hf]].
  apply bind_ok in Hf as [msg [Hm Hf]]. apply bind_ok in Hf as [ao [Hag Hu]].
  apply select_row_inv in H0 as [S0 G0]. rewrite Hei in S0. cbn [tl] in S0.
  apply select_row_inv in H1 as [S1 G1]. rewrite Hei in S1. cbn [tl] in S1.
  apply index_select_inv in Hi as [d [e [Hd [He [Si Ri]]]]].
  rewrite S1 in He. inversion He; subst e; clear He.
  apply index_select_inv in Hj as [d' [e' [Hd' [He' [_ Rj]]]]].
  rewrite S0 in He'. inversion He'; subst e'; clear He'.
  rewrite Hn in Hd, Hd'. rewrite Hd in Hd'. inversion Hd'; subst d'; clear Hd'.
  unfold maybe_wrap_dim, tdim in Hd. rewrite Hh in Hd.
  inversion Hd; subst d; clear Hd. rewrite Hh in Si, Ri, Rj. cbn in Si, Ri, Rj.
  split.
  { intros r e Hr He. destruct r as [|[|r]]; [| |lia].
    - rewrite <- G0. apply Rj. exact He.
    - rewrite <- G1. apply Ri. exact He. }
  pose proof (message_shape dt l h_i h_j ea msg E F Si Hm) as Sm.
  set (w := out_features (fc2 (mlp_msg l))) in *.
  assert (Hs : scatter_sum dt msg row1 (-2) None None = Ok ao).
  { unfold aggregate in Hag. rewrite Hn in Hag.
    destruct Ha as [Ha|Ha]; rewrite Ha in Hag; exact Hag. }
  apply scatter_sum_inv in Hs as [ib [d [z [Hb [Hd [Hz [Hpos So]]]]]]].
  unfold tdim in Hd. rewrite Sm in Hd. inversion Hd; subst d; clear Hd.
  rewrite Sm in So. cbn [set_nth] in So.
  unfold update in Hu. apply bind_ok in Hu as [c [Hc _]].
  rewrite cat_pair in Hc by (unfold tdim; rewrite ?Hh, ?So; simpl; lia).
  unfold cat2 in Hc. rewrite Hh, So in Hc. cbn in Hc.
  destruct (Nat.eqb_spec N (Z.to_nat z)) as [EN|]; [|discriminate]. clear Hc.
  pose proof (Ri 0 ltac:(lia)) as R0.
  unfold out_extent in Hz.
  assert (Nb : numel ib = numel msg)
    by (unfold numel; rewrite (broadcast_size _ _ _ _ Hb); reflexivity).
  rewrite Nb in Hz. destruct (Nat.eqb_spec (numel msg) 0) as [Z0|Z0].
  - inversion Hz; subst z. simpl in EN. lia.
  - apply bind_ok in Hz as [m [Hmax Hz]]. inversion Hz; subst z; clear Hz.
    destruct (tensor_max_broadcast _ _ _ _ Hb Z0) as [m' [M1 M2]].
    rewrite Hmax in M2. inversion M2; subst m'; clear M2.
    destruct (tensor_max_spec _ _ M1) as [[q [Hq Gq]] _].
    rewrite S1 in Hq. destruct q as [|e [|? ?]]; simpl in Hq; try discriminate;
      [|rewrite andb_false_r in Hq; discriminate].
    rewrite andb_true_r in Hq. apply Nat.ltb_lt in Hq.
    rewrite G1 in Gq. exists e. split; [exact Hq|].
    pose proof (Ri e Hq) as Re. rewrite G1 in Re. lia.
Qed.

Lemma linear_inv (l : Linear (A := A)) (x y : Tensor A) (lead : list nat) (k : nat) :
  size x = lead ++ [k] -> linear dt l x = Ok y -> k = in_features l.
Proof.
  intros Sx. unfold linear. rewrite Sx, rev_snoc_shape.
  destruct (Nat.eqb_spec k (in_features l)); [auto|discriminate].
Qed.

(** What an answer of a constructed model with at least one layer tells
    about the request and the graph. *)
Lemma model_forward_inv (m : MPNNModel (A := A)) (x y ea : Tensor A)
  (ei : Tensor Z) (in_dim n emb out_dim N F E : nat) :
  Model_init' ei ea in_dim n emb out_dim = Ok m ->
  1 <= n ->
  size x = [N; F] ->
  size ei = [2; E] ->
  1 <= E ->
  predict_fn' x m = Ok y ->
  F = in_dim /\
  (forall r e, r < 2 -> e < E -> (0 <= get ei [r; e]%nat < Z.of_nat N)%Z) /\
  (exists e, e < E /\ get ei [1; e]%nat = (Z.of_nat N - 1)%Z).
Proof.
  intros Hm Hn Sx Sei HE Hy.
  unfold MPNNModel_init in Hm. apply bind_ok in Hm as [k [_ Hm]].
  apply bind_ok in Hm as [cs [Hcs Hm]]. injection Hm as Hm.
  destruct (make_convs_add MessagePassing_init init_param _ _ _ _ Hcs) as [Hlen Hadd].
  destruct (make_convs_node_dim MessagePassing_init init_param _ _ _ _ Hcs)
    as [_ Hnd].
  destruct cs as [|c cs]; [simpl in Hlen; lia|].
  inversion Hadd as [|? ? Hc_add _]; subst.
  inversion Hnd as [|? ? Hc_nd _]; subst.
  unfold predict_fn, MPNNModel_forward in Hy.
  cbn [lin_in1 lin_in2 convs edge_index edge_attr lin_pred1 lin_pred2] in Hy.
  apply bind_ok in Hy as [h1 [H1 Hy]]. apply bind_ok in Hy as [h2 [H2 Hy]].
  apply bind_ok in Hy as [h3 [H3 _]].
  pose proof (linear_inv _ x h1 [N] F Sx H1) as HF. cbn in HF.
  split; [exact HF|].
  apply linear_size in H1, H2. cbn [relu_ tmap size] in H2.
  rewrite H1, Sx in H2. cbn in H2.
  rewrite run_convs_cons in H3. apply bind_ok in H3 as [h' [Hc _]].
  apply (layer_forward_rows c (relu_ dt h2) ea h' ei N emb E Hc_nd
           (or_introl Hc_add) H2 Sei HE Hc).
Qed.

(** X17.  Which requests a model answers.  A model built by the constructor
    with at least one layer and an embedding width of at least 1, over an
    edge index of shape [2; E] with [E >= 1] and edge attributes of shape
    [E; edge_dim], answers an input of shape [N; F] exactly when [F] is
    [in_dim], every node number of the edge index is in [[0, N)], and some
    edge has the destination [N - 1]: the number of rows of the input has to
    be one more than the largest destination. *)
Theorem predict_accepts_iff (m : MPNNModel (A := A)) (x ea : Tensor A)
  (ei : Tensor Z) (in_dim n emb out_dim N F E ed : nat) :
  Model_init' ei ea in_dim n emb out_dim = Ok m ->
  1 <= n ->
  1 <= emb ->
  1 <= E ->
  size x = [N; F] ->
  size ei = [2; E] ->
  size ea = [E; ed] ->
  ((exists y, predict_fn' x m = Ok y) <->
   (F = in_dim /\
    (forall r e, r < 2 -> e < E -> (0 <= get ei [r; e]%nat < Z.of_nat N)%Z) /\
    (exists e, e < E /\ get ei [1; e]%nat = (Z.of_nat N - 1)%Z))).
Proof.
  intros Hm Hn Hemb HE Sx Sei Sea. split.
  - intros [y Hy].
    exact (model_forward_inv m x y ea ei in_dim n emb out_dim N F E
             Hm Hn Sx Sei HE Hy).
  - intros [HF [Hr Hlast]]. subst F.
    destruct (model_forward_ok dt torch_scatter_mul torch_scatter_min
                torch_scatter_max MessagePassing_init init_param
                m x ea ei in_dim n emb out_dim N E ed Hm Hemb Sx Sei Sea Hr Hlast)
      as [y [Hy _]].
    exists y. exact Hy.
Qed.

(** X18.  The model that [model_fn] constructs is one over a graph of two
    nodes with an edge each way, so it answers the inputs of shape [2; 2]
    and no other matrix: an input of shape [2; 2] gets two predictions, and
    an input of any other shape [N; F] an error. *)
Theorem model_fn_requests (m : MPNNModel (A := A)) (x : Tensor A) (N F : nat) :
  model_fn_model dt MessagePassing_init init_param = Ok m ->
  size x = [N; F] ->
  (N = 2 /\ F = 2 -> exists y, predict_fn' x m = Ok y /\ size y = [2]) /\
  (N <> 2 \/ F <> 2 -> exists err, predict_fn' x m = Err err).
Proof.
  intros Hm Sx. unfold model_fn_model in Hm.
  assert (Sei : size model_fn_edge_index = [2; 2]) by reflexivity.
  assert (Sea : size (model_fn_edge_attr dt) = [2; 2]) by reflexivity.
  split.
  - intros [-> ->].
    apply (model_forward_ok dt torch_scatter_mul torch_scatter_min
             torch_scatter_max MessagePassing_init init_param
             m x (model_fn_edge_attr dt) model_fn_edge_index 2 2 4 1 2 2 2
             Hm ltac:(lia) Sx Sei Sea).
    + intros r e Hr He. destruct r as [|[|r]], e as [|[|e]]; cbn; lia.
    + exists 0. split; [lia|reflexivity].
  - intro Hne. destruct (predict_fn' x m) as [y|err] eqn:Hy;
      [exfalso|exists err; reflexivity].
    destruct (model_forward_inv m x y (model_fn_edge_attr dt) model_fn_edge_index
                2 2 4 1 N F 2 Hm ltac:(lia) Sx Sei ltac:(lia) Hy)
      as [HF [Hr [e [He Hlast]]]].
    pose proof (Hr 1 0 ltac:(lia) ltac:(lia)) as R.
    destruct e as [|[|e]]; [| |lia]; cbn in R, Hlast; lia.
Qed.

End Accept.

Lemma predict_accepts_iff_witness :
  exists m,
    MPNNModel_init accept_all unit_param graph_edges graph_attr 1 1 1 1 = Ok m /\
    ((exists y, predict_fn int64 no_kernel no_kernel no_kernel two_nodes m = Ok y) <->
     (1 = 1 /\
      (forall r e, r < 2 -> e < 2 ->
         (0 <= get graph_edges [r; e]%nat < Z.of_nat 2)%Z) /\
      (exists e, e < 2 /\ get graph_edges [1; e]%nat = (Z.of_nat 2 - 1)%Z))).
Proof.
  eexists. split; [reflexivity|].
  apply (predict_accepts_iff int64 no_kernel no_kernel no_kernel
           accept_all unit_param _ two_nodes graph_attr graph_edges
           1 1 1 1 2 1 2 2).
  - reflexivity.
  - lia.
  - lia.
  - lia.
  - reflexivity.
  - reflexivity.
  - reflexivity.
Defined.

Lemma model_fn_requests_witness :
  exists m,
    model_fn_model int64 accept_all unit_param = Ok m /\
    (2 = 2 /\ 2 = 2 ->
     exists y,
       predict_fn int64 no_kernel no_kernel no_kernel
         (mat 0%Z 2 [[1; 2]; [3; 4]]%Z) m = Ok y /\ size y = [2]) /\
    (2 <> 2 \/ 2 <> 2 ->
     exists err,
       predict_fn int64 no_kernel no_kernel no_kernel
         (mat 0%Z 2 [[1; 2]; [3; 4]]%Z) m = Err err).
Proof.
  eexists. split; [reflexivity|].
  apply (model_fn_requests int64 no_kernel no_kernel no_kernel
           accept_all unit_param _ (mat 0%Z 2 [[1; 2]; [3; 4]]%Z) 2 2).
  - reflexivity.
  - reflexivity.
Defined.

(** The edge index of [model_fn] is the one of the graph of two nodes: the
    adjacency matrix has its non-zero entries at (0, 1) and (1, 0). *)
Example model_fn_edges :
  observe (Ok model_fn_edge_index) = observe (Ok graph_edges) /\
  observe (Ok (model_fn_edge_attr int64)) = observe (Ok graph_attr).
Proof. split; reflexivity. Qed.
